(** * thin-cross-db-client: the SQL statement splitter and the run of a script

    A shallow embedding of [src/main.go] (the Go program) and of the Java
    port of the same splitter kept in the repository: the splitter, the
    configuration check, the connection string, the table of a result set
    and the run of the statements in one transaction, with the properties
    of the specification and further properties of the code stated over
    them.

    Go strings are byte sequences: they are modelled as [list ascii].
    Runes are code points, modelled as [N].  [bufio.Reader] over
    [strings.Reader] is modelled by the bytes that remain to be read: the
    buffer of 4096 bytes is larger than every [Peek] the program makes, so
    [Peek n] is the first [n] remaining bytes (fewer at the end of input). *)

From Stdlib Require Import List Ascii String NArith ZArith Lia Bool Arith.
Import ListNotations.

Local Open Scope N_scope.

(** A Go string is a sequence of bytes. *)
Definition gostring := list ascii.
Definition rune := N.

Definition str (s : string) : gostring := list_ascii_of_string s.

Definition byteN (b : ascii) : N := N_of_ascii b.
Definition byteOf (n : N) : ascii := ascii_of_N n.

Definition gostring_eqb (a b : gostring) : bool :=
  if list_eq_dec ascii_dec a b then true else false.

(** ** Package unicode/utf8 of the Go standard library *)
Module Utf8.

Definition RuneError : rune := 65533.
Definition RuneSelf : N := 128.
Definition UTFMax : nat := 4.

Definition between (lo hi : N) (b : ascii) : bool :=
  (lo <=? byteN b) && (byteN b <=? hi).

(** The accept range of the second byte, from the first byte
    ([first] and [acceptRanges] of the library). *)
Definition acceptRange (x : N) : N * N :=
  if x =? 224 then (160, 191)
  else if x =? 237 then (128, 159)
  else if x =? 240 then (144, 191)
  else if x =? 244 then (128, 143)
  else (128, 191).

Definition seqSize (x : N) : nat :=
  if x <? 224 then 2%nat else if x <? 240 then 3%nat else 4%nat.

(** [utf8.DecodeRune]: the rune at the head of [p] and its width in
    bytes; an invalid or truncated encoding decodes to [RuneError] with
    width 1, the empty input to [RuneError] with width 0. *)
Definition DecodeRune (p : gostring) : rune * nat :=
  match p with
  | [] => (RuneError, 0%nat)
  | p0 :: t =>
    let x := byteN p0 in
    if x <? RuneSelf then (x, 1%nat)
    else if (x <? 194) || (244 <? x) then (RuneError, 1%nat)
    else
      let sz := seqSize x in
      let '(lo, hi) := acceptRange x in
      if (List.length p <? sz)%nat then (RuneError, 1%nat)
      else match t with
      | [] => (RuneError, 1%nat)
      | b1 :: t1 =>
        if negb (between lo hi b1) then (RuneError, 1%nat)
        else if (sz <=? 2)%nat
        then (N.lor (N.shiftl (N.land x 31) 6) (N.land (byteN b1) 63), 2%nat)
        else match t1 with
        | [] => (RuneError, 1%nat)
        | b2 :: t2 =>
          if negb (between 128 191 b2) then (RuneError, 1%nat)
          else if (sz <=? 3)%nat
          then (N.lor (N.lor (N.shiftl (N.land x 15) 12)
                             (N.shiftl (N.land (byteN b1) 63) 6))
                      (N.land (byteN b2) 63), 3%nat)
          else match t2 with
          | [] => (RuneError, 1%nat)
          | b3 :: _ =>
            if negb (between 128 191 b3) then (RuneError, 1%nat)
            else (N.lor (N.lor (N.lor (N.shiftl (N.land x 7) 18)
                                      (N.shiftl (N.land (byteN b1) 63) 12))
                               (N.shiftl (N.land (byteN b2) 63) 6))
                        (N.land (byteN b3) 63), 4%nat)
          end
        end
      end
  end.

(** [utf8.AppendRune] to the empty string, i.e. [string(r)]. *)
Definition EncodeRune (r : rune) : gostring :=
  if r <? RuneSelf then [byteOf r]
  else if r <=? 2047
  then [byteOf (N.lor 192 (N.shiftr r 6));
        byteOf (N.lor 128 (N.land r 63))]
  else if (r <? 55296) || ((57343 <? r) && (r <=? 65535))
  then [byteOf (N.lor 224 (N.shiftr r 12));
        byteOf (N.lor 128 (N.land (N.shiftr r 6) 63));
        byteOf (N.lor 128 (N.land r 63))]
  else if (65535 <? r) && (r <=? 1114111)
  then [byteOf (N.lor 240 (N.shiftr r 18));
        byteOf (N.lor 128 (N.land (N.shiftr r 12) 63));
        byteOf (N.lor 128 (N.land (N.shiftr r 6) 63));
        byteOf (N.lor 128 (N.land r 63))]
  else [byteOf 239; byteOf 191; byteOf 189].

(** [utf8.RuneStart]: the byte is not a continuation byte. *)
Definition RuneStart (b : ascii) : bool :=
  negb (N.land (byteN b) 192 =? 128).

(** The loop of [DecodeLastRune] that walks back from [start] to the
    first rune start, not below [lim]; the result is one below [lim] when
    none is found. *)
Fixpoint backToStart (p : gostring) (lim : nat) (start : Z) (fuel : nat) : Z :=
  match fuel with
  | O => start
  | S fuel' =>
    if (start <? Z.of_nat lim)%Z then start
    else if RuneStart (nth (Z.to_nat start) p zero) then start
    else backToStart p lim (start - 1)%Z fuel'
  end.

(** [utf8.DecodeLastRune]. *)
Definition DecodeLastRune (p : gostring) : rune * nat :=
  let e := List.length p in
  match e with
  | O => (RuneError, 0%nat)
  | S start0 =>
    let r := byteN (nth start0 p zero) in
    if r <? RuneSelf then (r, 1%nat)
    else
      let lim := (e - UTFMax)%nat in
      let start := backToStart p lim (Z.of_nat start0 - 1)%Z (S UTFMax) in
      let start := if (start <? 0)%Z then 0%nat else Z.to_nat start in
      let '(r, size) := DecodeRune (skipn start p) in
      if (start + size =? e)%nat then (r, size) else (RuneError, 1%nat)
  end.

(** The runes that [for _, r := range s] yields. *)
Fixpoint runesFuel (fuel : nat) (s : gostring) : list rune :=
  match fuel with
  | O => []
  | S fuel' =>
    match s with
    | [] => []
    | _ => let '(r, sz) := DecodeRune s in r :: runesFuel fuel' (skipn sz s)
    end
  end.

Definition runes (s : gostring) : list rune := runesFuel (List.length s) s.

End Utf8.

(** ** Package unicode and strings of the Go standard library *)
Module Strings.

(** [unicode.IsSpace]. *)
Definition IsSpace (r : rune) : bool :=
  ((9 <=? r) && (r <=? 13)) || (r =? 32) || (r =? 133) || (r =? 160)
  || (r =? 5760) || ((8192 <=? r) && (r <=? 8202))
  || (r =? 8232) || (r =? 8233) || (r =? 8239) || (r =? 8287) || (r =? 12288).

Fixpoint trimLeftFuel (fuel : nat) (s : gostring) : gostring :=
  match fuel with
  | O => s
  | S fuel' =>
    match s with
    | [] => []
    | _ => let '(r, sz) := Utf8.DecodeRune s in
           if IsSpace r then trimLeftFuel fuel' (skipn sz s) else s
    end
  end.

Fixpoint trimRightFuel (fuel : nat) (s : gostring) : gostring :=
  match fuel with
  | O => s
  | S fuel' =>
    match s with
    | [] => []
    | _ => let '(r, sz) := Utf8.DecodeLastRune s in
           if IsSpace r then trimRightFuel fuel' (firstn (List.length s - sz) s)
           else s
    end
  end.

(** [strings.TrimSpace]: leading and trailing runes satisfying
    [unicode.IsSpace] are removed (the ASCII fast path of the library
    computes the same slice). *)
Definition TrimSpace (s : gostring) : gostring :=
  let l := trimLeftFuel (List.length s) s in
  trimRightFuel (List.length l) l.

Fixpoint HasPrefix (s prefix : gostring) : bool :=
  match prefix, s with
  | [], _ => true
  | p :: ps, c :: cs => if ascii_dec c p then HasPrefix cs ps else false
  | _ :: _, [] => false
  end.

End Strings.

(** ** The splitter of [src/main.go] *)
Module Go.

Import Utf8 Strings.

(** The reader: the bytes not yet consumed. *)
Definition Reader := gostring.

(** [reader.ReadRune()]: [None] is the error return (end of input). *)
Definition ReadRune (rd : Reader) : option (rune * Reader) :=
  match rd with
  | [] => None
  | _ => let '(r, sz) := DecodeRune rd in Some (r, skipn sz rd)
  end.

(** [reader.Peek(n)], the error dropped as the program does. *)
Definition Peek (n : nat) (rd : Reader) : gostring := firstn n rd.

(** [r, _, _ := reader.ReadRune()]: at the end of input [r] is 0. *)
Definition readIgnoringErr (rd : Reader) : rune * Reader :=
  match ReadRune rd with
  | Some (r, rd') => (r, rd')
  | None => (0, rd)
  end.

Definition WriteRune (sb : gostring) (r : rune) : gostring := sb ++ EncodeRune r.

(** [for i := 0; i < n; i++ { r, _, _ := reader.ReadRune(); sb.WriteRune(r) }] *)
Fixpoint copyRunes (n : nat) (rd : Reader) (sb : gostring) : Reader * gostring :=
  match n with
  | O => (rd, sb)
  | S n' => let '(r, rd') := readIgnoringErr rd in copyRunes n' rd' (WriteRune sb r)
  end.

(** The local variables of [splitSQLStatements]. *)
Record state := mkState {
  statements : list gostring;
  reader : Reader;
  sb : gostring;
  inSingle : bool;
  inDouble : bool;
  inLineComment : bool;
  inBlockComment : bool;
  dollarTag : gostring
}.

Definition init (input : gostring) : state :=
  mkState [] input [] false false false false [].

Definition rDash : rune := 45.
Definition rSlash : rune := 47.
Definition rStar : rune := 42.
Definition rDollar : rune := 36.
Definition rSemi : rune := 59.
Definition rQuote : rune := 39.
Definition rDQuote : rune := 34.
Definition rNewline : rune := 10.
Definition rSpace : rune := 32.
Definition rTab : rune := 9.

(** The [range peek] loop of the dollar-tag detection: [Some tag] when a
    second dollar sign is met, [None] when a blank is met first or the
    window ends. *)
Fixpoint findTag (rs : list rune) (tag : gostring) : option gostring :=
  match rs with
  | [] => None
  | r :: rs' =>
    let tag' := tag ++ EncodeRune r in
    if r =? rDollar then Some tag'
    else if (r =? rSpace) || (r =? rNewline) || (r =? rTab) then None
    else findTag rs' tag'
  end.

(** [flush]: the trimmed buffer is appended when it is not empty. *)
Definition emit (stmts : list gostring) (buf : gostring) : list gostring :=
  match TrimSpace buf with
  | [] => stmts
  | s => stmts ++ [s]
  end.

(** The part of the loop body after the comment and dollar-tag checks:
    the quote toggles, the boundary test and the final append. *)
Definition quoteAndBoundary (st : state) (ch : rune) (rd : Reader) : state :=
  let inS := if (ch =? rQuote) && negb (inDouble st)
             then negb (inSingle st) else inSingle st in
  let inD := if (ch =? rQuote) && negb (inDouble st) then inDouble st
             else if (ch =? rDQuote) && negb (inSingle st)
             then negb (inDouble st) else inDouble st in
  if (ch =? rSemi) && negb inS && negb inD
     && (match dollarTag st with [] => true | _ => false end)
     && negb (inLineComment st) && negb (inBlockComment st)
  then mkState (emit (statements st) (sb st)) rd [] inS inD
               (inLineComment st) (inBlockComment st) (dollarTag st)
  else mkState (statements st) rd (WriteRune (sb st) ch) inS inD
               (inLineComment st) (inBlockComment st) (dollarTag st).

(** One iteration of the [for] loop; [None] when [ReadRune] fails and the
    loop is left. *)
Definition step (st : state) : option state :=
  match ReadRune (reader st) with
  | None => None
  | Some (ch, rd) =>
    Some (
    if inLineComment st then
      mkState (statements st) rd (WriteRune (sb st) ch) (inSingle st) (inDouble st)
              (if ch =? rNewline then false else true) (inBlockComment st)
              (dollarTag st)
    else if inBlockComment st then
      if (ch =? rStar) && HasPrefix (Peek 1 rd) (str "/") then
        match ReadRune rd with
        | Some (_, rd') =>
          mkState (statements st) rd' (WriteRune (WriteRune (sb st) ch) rSlash)
                  (inSingle st) (inDouble st) (inLineComment st) false (dollarTag st)
        | None =>
          mkState (statements st) rd (WriteRune (sb st) ch)
                  (inSingle st) (inDouble st) (inLineComment st) false (dollarTag st)
        end
      else
        mkState (statements st) rd (WriteRune (sb st) ch) (inSingle st) (inDouble st)
                (inLineComment st) true (dollarTag st)
    else match dollarTag st with
    | _ :: tagTail =>
      if (ch =? rDollar)
         && gostring_eqb (Peek (List.length (dollarTag st) - 1) rd) tagTail
      then
        let '(rd', sb') := copyRunes (List.length (dollarTag st) - 1) rd
                                     (WriteRune (sb st) ch) in
        mkState (statements st) rd' sb' (inSingle st) (inDouble st)
                (inLineComment st) (inBlockComment st) []
      else
        mkState (statements st) rd (WriteRune (sb st) ch) (inSingle st) (inDouble st)
                (inLineComment st) (inBlockComment st) (dollarTag st)
    | [] =>
      if negb (inSingle st) && negb (inDouble st) then
        let nextTwo := Peek 2 rd in
        if (ch =? rDash)
           && (gostring_eqb nextTwo (str "- ") || gostring_eqb nextTwo (str "--"))
        then
          match ReadRune rd with
          | Some (r, rd') =>
            mkState (statements st) rd' (WriteRune (WriteRune (sb st) ch) r)
                    (inSingle st) (inDouble st) true (inBlockComment st) []
          | None =>
            mkState (statements st) rd (WriteRune (sb st) ch)
                    (inSingle st) (inDouble st) true (inBlockComment st) []
          end
        else if (ch =? rSlash) && HasPrefix (Peek 1 rd) (str "*") then
          match ReadRune rd with
          | Some (r, rd') =>
            mkState (statements st) rd' (WriteRune (WriteRune (sb st) ch) r)
                    (inSingle st) (inDouble st) (inLineComment st) true []
          | None =>
            mkState (statements st) rd (WriteRune (sb st) ch)
                    (inSingle st) (inDouble st) (inLineComment st) true []
          end
        else if ch =? rDollar then
          match findTag (runes (Peek 64 rd)) (str "$") with
          | Some tag =>
            let '(rd', sb') := copyRunes (List.length tag - 1) rd
                                         (WriteRune (sb st) ch) in
            mkState (statements st) rd' sb' (inSingle st) (inDouble st)
                    (inLineComment st) (inBlockComment st) tag
          | None => quoteAndBoundary st ch rd
          end
        else quoteAndBoundary st ch rd
      else quoteAndBoundary st ch rd
    end)
  end.

(** The [for] loop: [step] is iterated until [ReadRune] fails. *)
Fixpoint loop (fuel : nat) (st : state) : state :=
  match fuel with
  | O => st
  | S fuel' =>
    match step st with
    | None => st
    | Some st' => loop fuel' st'
    end
  end.

(** The statements returned for the state in which the loop was left. *)
Definition finish (st : state) : list gostring := emit (statements st) (sb st).

(** Every iteration consumes at least one byte, so one more iteration than
    the input has bytes reaches the end of input. *)
Definition scan (input : gostring) : state :=
  loop (S (List.length input)) (init input).

Definition splitSQLStatements (input : gostring) : list gostring :=
  finish (scan input).

End Go.

(** ** The Java port of the splitter ([Main.splitSQLStatements])

    A Java [String] is a sequence of UTF-16 code units, modelled as
    [list N].  The reader is a [BufferedReader] over a [StringReader]: it
    is modelled by the characters that remain, and [peek] by the first
    characters of them. *)
Module Java.

Definition jstring := list N.

Definition jstr (s : string) : jstring := map byteN (list_ascii_of_string s).

Definition jstring_eqb (a b : jstring) : bool :=
  if list_eq_dec N.eq_dec a b then true else false.

(** [peek(reader, length)]. *)
Definition peek (n : nat) (rd : jstring) : jstring := firstn n rd.

(** [(char) reader.read()]: the cast of -1 at the end of input is 65535. *)
Definition readChar (rd : jstring) : N * jstring :=
  match rd with
  | [] => (65535, [])
  | c :: rd' => (c, rd')
  end.

Fixpoint copyChars (n : nat) (rd sb : jstring) : jstring * jstring :=
  match n with
  | O => (rd, sb)
  | S n' => let '(c, rd') := readChar rd in copyChars n' rd' (sb ++ [c])
  end.

Definition startsWith (s : jstring) (c : N) : bool :=
  match s with
  | x :: _ => x =? c
  | [] => false
  end.

(** [String.trim()]: leading and trailing characters up to U+0020 go. *)
Fixpoint trimLeft (s : jstring) : jstring :=
  match s with
  | c :: s' => if c <=? 32 then trimLeft s' else s
  | [] => []
  end.

Definition trim (s : jstring) : jstring := rev (trimLeft (rev (trimLeft s))).

Record state := mkState {
  statements : list jstring;
  reader : jstring;
  sb : jstring;
  inSingle : bool;
  inDouble : bool;
  inLineComment : bool;
  inBlockComment : bool;
  dollarTag : jstring
}.

Definition init (input : jstring) : state :=
  mkState [] input [] false false false false [].

Fixpoint findTag (pk tag : jstring) : option jstring :=
  match pk with
  | [] => None
  | r :: pk' =>
    let tag' := tag ++ [r] in
    if r =? 36 then Some tag'
    else if (r =? 32) || (r =? 10) || (r =? 9) then None
    else findTag pk' tag'
  end.

Definition emit (stmts : list jstring) (buf : jstring) : list jstring :=
  match trim buf with
  | [] => stmts
  | s => stmts ++ [s]
  end.

Definition quoteAndBoundary (st : state) (c : N) (rd : jstring) : state :=
  let inS := if (c =? 39) && negb (inDouble st)
             then negb (inSingle st) else inSingle st in
  let inD := if (c =? 39) && negb (inDouble st) then inDouble st
             else if (c =? 34) && negb (inSingle st)
             then negb (inDouble st) else inDouble st in
  if (c =? 59) && negb inS && negb inD
     && (match dollarTag st with [] => true | _ => false end)
     && negb (inLineComment st) && negb (inBlockComment st)
  then mkState (emit (statements st) (sb st)) rd [] inS inD
               (inLineComment st) (inBlockComment st) (dollarTag st)
  else mkState (statements st) rd (sb st ++ [c]) inS inD
               (inLineComment st) (inBlockComment st) (dollarTag st).

(** One iteration of the [while] loop; [None] when [read()] returns -1. *)
Definition step (st : state) : option state :=
  match reader st with
  | [] => None
  | c :: rd =>
    let nextOne := peek 1 rd in
    Some (
    if inLineComment st then
      mkState (statements st) rd (sb st ++ [c]) (inSingle st) (inDouble st)
              (if c =? 10 then false else true) (inBlockComment st) (dollarTag st)
    else if inBlockComment st then
      if (c =? 42) && startsWith nextOne 47 then
        let '(r, rd') := readChar rd in
        mkState (statements st) rd' ((sb st ++ [c]) ++ [r]) (inSingle st)
                (inDouble st) (inLineComment st) false (dollarTag st)
      else
        mkState (statements st) rd (sb st ++ [c]) (inSingle st) (inDouble st)
                (inLineComment st) true (dollarTag st)
    else match dollarTag st with
    | _ :: tagTail =>
      if (c =? 36)
         && jstring_eqb (peek (List.length (dollarTag st) - 1) rd) tagTail
      then
        let '(rd', sb') := copyChars (List.length (dollarTag st) - 1) rd
                                     (sb st ++ [c]) in
        mkState (statements st) rd' sb' (inSingle st) (inDouble st)
                (inLineComment st) (inBlockComment st) []
      else
        mkState (statements st) rd (sb st ++ [c]) (inSingle st) (inDouble st)
                (inLineComment st) (inBlockComment st) (dollarTag st)
    | [] =>
      if negb (inSingle st) && negb (inDouble st) then
        if (c =? 45) && startsWith nextOne 45 then
          let '(r, rd') := readChar rd in
          mkState (statements st) rd' ((sb st ++ [c]) ++ [r]) (inSingle st)
                  (inDouble st) true (inBlockComment st) []
        else if (c =? 47) && startsWith nextOne 42 then
          let '(r, rd') := readChar rd in
          mkState (statements st) rd' ((sb st ++ [c]) ++ [r]) (inSingle st)
                  (inDouble st) (inLineComment st) true []
        else if c =? 36 then
          match findTag (peek 64 rd) [36] with
          | Some tag =>
            let '(rd', sb') := copyChars (List.length tag - 1) rd (sb st ++ [c]) in
            mkState (statements st) rd' sb' (inSingle st) (inDouble st)
                    (inLineComment st) (inBlockComment st) tag
          | None => quoteAndBoundary st c rd
          end
        else quoteAndBoundary st c rd
      else quoteAndBoundary st c rd
    end)
  end.

Fixpoint loop (fuel : nat) (st : state) : state :=
  match fuel with
  | O => st
  | S fuel' =>
    match step st with
    | None => st
    | Some st' => loop fuel' st'
    end
  end.

Definition splitSQLStatements (input : jstring) : list jstring :=
  let st := loop (S (List.length input)) (init input) in
  emit (statements st) (sb st).

End Java.

(** ** Configuration: [config], [validate], [defaultPort] and the start of [main] *)
Module Config.

Import Utf8.

Section WithCaseTable.

(** [unicode.ToLower], the case table of the Go standard library; the
    program reaches it only for engine names with a byte outside ASCII. *)
Variable unicode_ToLower : rune -> rune.

Definition isUpper (c : ascii) : bool := (65 <=? byteN c) && (byteN c <=? 90).

Definition lowerByte (c : ascii) : ascii :=
  if isUpper c then byteOf (byteN c + 32) else c.

(** [strings.ToLower]: byte-wise on an ASCII string, rune-wise through
    [unicode.ToLower] otherwise. *)
Definition ToLower (s : gostring) : gostring :=
  if forallb (fun c => byteN c <? RuneSelf) s then
    if existsb isUpper s then map lowerByte s else s
  else flat_map (fun r => EncodeRune (unicode_ToLower r)) (runes s).

Record config := mkConfig {
  engine : gostring;
  host : gostring;
  port : Z;
  username : gostring;
  password : gostring;
  dbname : gostring;
  sqlPath : gostring
}.

Definition isEmpty (s : gostring) : bool :=
  match s with [] => true | _ => false end.

Definition defaultPort (engine : gostring) : Z :=
  let e := ToLower engine in
  if gostring_eqb e (str "oracle") then 1521%Z
  else if gostring_eqb e (str "sqlserver") then 1433%Z
  else if gostring_eqb e (str "postgres") then 5432%Z
  else 0%Z.

Definition supported (engine : gostring) : bool :=
  let e := ToLower engine in
  gostring_eqb e (str "oracle") || gostring_eqb e (str "sqlserver")
  || gostring_eqb e (str "postgres").

(** [(c *config) validate()]: the error, if any, and the configuration
    as the call leaves it. *)
Definition validate (c : config) : option gostring * config :=
  if isEmpty (engine c) then (Some (str "engine is required"), c)
  else if isEmpty (host c) then (Some (str "host is required"), c)
  else if isEmpty (dbname c) then (Some (str "dbname is required"), c)
  else if isEmpty (sqlPath c) then (Some (str "sql path is required"), c)
  else if negb (supported (engine c))
  then (Some (str "unsupported engine: " ++ engine c)%list, c)
  else if (port c =? 0)%Z
  then (None, mkConfig (engine c) (host c) (defaultPort (engine c)) (username c)
                       (password c) (dbname c) (sqlPath c))
  else (None, c).

(** The configuration with its port replaced. *)
Definition setPort (c : config) (p : Z) : config :=
  mkConfig (engine c) (host c) p (username c) (password c) (dbname c) (sqlPath c).

(** The four required fields are present. *)
Definition complete (c : config) : Prop :=
  engine c <> [] /\ host c <> [] /\ dbname c <> [] /\ sqlPath c <> [].

(** The flags given on the command line; [None] is a flag left out. *)
Record flags := mkFlags {
  f_engine : option gostring;
  f_host : option gostring;
  f_port : option Z;
  f_username : option gostring;
  f_password : option gostring;
  f_dbname : option gostring;
  f_sql : option gostring
}.

Definition orDefault {A} (o : option A) (d : A) : A :=
  match o with Some v => v | None => d end.

(** The [flag.StringVar] / [flag.IntVar] registrations of [main] with
    their default values, followed by [flag.Parse]. *)
Definition parseFlags (f : flags) : config :=
  mkConfig (orDefault (f_engine f) []) (orDefault (f_host f) [])
           (orDefault (f_port f) 0%Z) (orDefault (f_username f) (str "db_admin"))
           (orDefault (f_password f) []) (orDefault (f_dbname f) [])
           (orDefault (f_sql f) []).

(** What [main] does up to its first access to the file system. *)
Inductive event :=
| Stderr (msg : gostring)
| Exit (code : Z)
| ReadFile (path : gostring).

Definition isIO (e : event) : bool :=
  match e with ReadFile _ => true | _ => false end.

(** [main] from the flags to [os.ReadFile]; the splitting, the connection
    and the transaction that follow the read are not part of this trace. *)
Definition mainStart (f : flags) : list event :=
  match validate (parseFlags f) with
  | (Some err, _) => [Stderr err; Exit 1%Z]
  | (None, cfg) => [ReadFile (sqlPath cfg)]
  end.

End WithCaseTable.

(** Flags as in the usage of the README, the engine written with a capital. *)
Definition exampleFlags : flags :=
  mkFlags (Some (str "Postgres")) (Some (str "127.0.0.1")) None None None
          (Some (str "app")) (Some (str "a.sql")).

End Config.

(** ** Notions of the specification, over the Go splitter *)
Module GoSpec.

Import Utf8 Strings Go.

(** The scanner is in the Normal state: no flag is set and no dollar tag
    is open. *)
Definition normal (st : state) : bool :=
  negb (inSingle st) && negb (inDouble st) && negb (inLineComment st)
  && negb (inBlockComment st)
  && match dollarTag st with [] => true | _ => false end.

(** The state after a boundary semicolon. *)
Definition boundary (st : state) (rest : Reader) : state :=
  mkState (emit (statements st) (sb st)) rest [] false false false false [].

(** The state after [chunk] was appended and nothing else changed. *)
Definition appended (st : state) (chunk : gostring) (rest : Reader) : state :=
  mkState (statements st) rest (sb st ++ chunk) (inSingle st) (inDouble st)
          (inLineComment st) (inBlockComment st) (dollarTag st).

Definition semicolon : ascii := ";"%char.

(** The segments of a rune sequence between semicolons. *)
Fixpoint segments (rs : list rune) (cur : list rune) : list (list rune) :=
  match rs with
  | [] => [cur]
  | r :: rs' => if r =? rSemi then cur :: segments rs' []
                else segments rs' (cur ++ [r])
  end.

Definition encodeAll (rs : list rune) : gostring := flat_map EncodeRune rs.

(** A segment is blank when nothing but white space is in it. *)
Definition blank (seg : gostring) : bool :=
  match TrimSpace seg with [] => true | _ => false end.

(** The trimmed segments that are not blank, in order. *)
Definition trimmedSegments (rs : list rune) : list gostring :=
  map TrimSpace (filter (fun s => negb (blank s)) (map encodeAll (segments rs []))).

(** The dollar sign before [rd] opens a dollar tag: the detection of the
    scanner finds a second dollar sign in the 64 bytes that follow, before
    any blank. *)
Definition opensTag (rd : Reader) : bool :=
  match findTag (runes (Peek 64 rd)) (str "$") with
  | Some _ => true
  | None => false
  end.

(** The character [r], with [rd] left to read after it, is ordinary: it is
    no quote, it does not begin [--] or [/*], and if it is a dollar sign it
    opens no dollar tag. *)
Definition plainAt (r : rune) (rd : Reader) : bool :=
  negb (r =? rQuote) && negb (r =? rDQuote)
  && negb ((r =? rDollar) && opensTag rd)
  && negb ((r =? rDash) && HasPrefix rd (str "-"))
  && negb ((r =? rSlash) && HasPrefix rd (str "*")).

(** A script with no quote, no comment and no dollar-quoted block: every
    character the reader delivers is ordinary. *)
Fixpoint plainFuel (fuel : nat) (rd : Reader) : bool :=
  match fuel with
  | O => true
  | S fuel' =>
    match ReadRune rd with
    | None => true
    | Some (r, rd') => plainAt r rd' && plainFuel fuel' rd'
    end
  end.

Definition plainScript (input : gostring) : bool :=
  plainFuel (S (List.length input)) input.

(** The statements a scan yields from the runes [rs] when it meets only
    ordinary characters and semicolons, the buffer holding [buf]. *)
Fixpoint stmtsFrom (buf : gostring) (rs : list rune) : list gostring :=
  match rs with
  | [] => emit [] buf
  | r :: rs' => if r =? rSemi then emit [] buf ++ stmtsFrom [] rs'
                else stmtsFrom (buf ++ EncodeRune r) rs'
  end.

(** The number of segments between semicolons that are not blank. *)
Definition nonBlankSegments (rs : list rune) : nat :=
  List.length (filter (fun s => negb (blank s)) (map encodeAll (segments rs []))).

(** The count in the words of the specification: the semicolons of the
    script that are followed by content that is not only white space. *)
Fixpoint semicolonsBeforeContent (s : gostring) : nat :=
  match s with
  | [] => 0%nat
  | c :: t =>
    let here := if (byteN c =? rSemi) && negb (blank t) then 1%nat else 0%nat in
    (here + semicolonsBeforeContent t)%nat
  end.

(** The same count read segment by segment: the semicolons whose next
    segment, up to the following semicolon, is not blank. *)
Definition semicolonsBeforeSegment (s : gostring) : nat :=
  List.length (filter (fun seg => negb (blank seg))
                      (tl (map encodeAll (segments (runes s) [])))).

(** The close test in the words of the specification: the [len(tag)-2]
    characters after the dollar sign equal the tag without its first and
    its last dollar sign. *)
Definition closesBySpec (tag : gostring) (rd : Reader) : bool :=
  gostring_eqb (Peek (List.length tag - 2) rd) (removelast (tl tag)).

Definition isAscii (c : ascii) : bool := byteN c <? 128.

(** The scanner is inside a dollar-quoted body opened by [tag]. *)
Definition dollarQuoted (st : state) (tag : gostring) : Prop :=
  inSingle st = false /\ inDouble st = false /\ inLineComment st = false
  /\ inBlockComment st = false /\ dollarTag st = tag /\ tag <> [].

Definition newline : ascii := ascii_of_N 10.

(** The letter e with an acute accent, two bytes in UTF-8, and the dollar
    tag made of it. *)
Definition eAcute : gostring := [byteOf 195; byteOf 169].
Definition tagE : gostring := str "$" ++ eAcute ++ str "$".

(** A query that ends with a dollar-quoted literal under that tag. *)
Definition queryE : gostring := str "select " ++ tagE ++ str "x" ++ tagE.

(** [s] occurs in [t] as a contiguous run of bytes. *)
Fixpoint isSubstring (s t : gostring) : bool :=
  HasPrefix t s || match t with [] => false | _ :: t' => isSubstring s t' end.

(** The script of the repository's test, line by line. *)
Definition testLines : list gostring :=
  [str "-- keep ; in comment"; str "select ';' as a;";
   str "/* block ; comment */";
   str "update users set name = 'x;y' where id = 1;"].

(** The lines separated by newlines, and the same with the final newline
    that the text block of the test has. *)
Definition joinLines (ls : list gostring) : gostring :=
  match ls with
  | [] => []
  | l :: ls' => l ++ flat_map (fun x => newline :: x) ls'
  end.

Definition testScript : gostring := joinLines testLines.
Definition testScriptNewline : gostring := testScript ++ [newline].

(** The regions of a script, put back together with the semicolons that
    separate them. *)
Fixpoint joinSemi (first : gostring) (others : list gostring) : gostring :=
  match others with
  | [] => first
  | r :: rs => first ++ semicolon :: joinSemi r rs
  end.

(** A byte that [strings.TrimSpace] removes. *)
Definition isWs (c : ascii) : bool := IsSpace (byteN c).

(** The mode of the scanner: its flags and the open dollar tag. *)
Definition mode (st : state) : bool * bool * bool * bool * gostring :=
  (inSingle st, inDouble st, inLineComment st, inBlockComment st, dollarTag st).

(** An open dollar tag has a first byte and ends with a dollar sign. *)
Definition tagOK (st : state) : Prop :=
  dollarTag st = [] \/ exists t0 pre, dollarTag st = t0 :: pre ++ ["$"%char].

(** What one iteration consumes is one byte, or ends with a byte that is
    not white space. *)
Definition shaped (chunk : gostring) : Prop :=
  (exists c, chunk = [c]) \/ (exists pre x, chunk = pre ++ [x] /\ isWs x = false).

(** A run of iterations without a boundary: from [st] the scanner consumes
    and appends exactly the bytes of the second argument, chunk by chunk,
    and stands in the last argument. *)
Inductive run : state -> gostring -> state -> Prop :=
| run_nil : forall st, run st [] st
| run_step : forall st st1 st2 chunk rest,
    step st = Some st1 ->
    statements st1 = statements st ->
    chunk <> [] ->
    reader st = chunk ++ reader st1 ->
    sb st1 = sb st ++ chunk ->
    run st1 rest st2 ->
    run st (chunk ++ rest) st2.

(** A region that the scanner, started in the Normal state on an ASCII
    script, passes over without a boundary. *)
Definition regionOK (r : gostring) : Prop :=
  exists A A', normal A = true /\ forallb isAscii (reader A) = true /\ run A r A'.

(** All byte values, for the facts about [DecodeRune] that are checked
    by enumeration. *)
Definition allBytes : list N := map N.of_nat (seq 0 256).

(** The part of a decoded multi-byte rune made of its first two bytes
    has a bit set above the ASCII range. *)
Definition multiByteHigh (x b1 : N) : bool :=
  if x <? 224 then negb (N.shiftr (N.shiftl (N.land x 31) 6) 7 =? 0)
  else if x <? 240
  then negb (N.shiftr (N.lor (N.shiftl (N.land x 15) 12)
                             (N.shiftl (N.land b1 63) 6)) 7 =? 0)
  else negb (N.shiftr (N.lor (N.shiftl (N.land x 7) 18)
                             (N.shiftl (N.land b1 63) 12)) 7 =? 0).

End GoSpec.

(** ** Further notions over the Go splitter *)
Module GoMore.

Import Utf8 Strings Go GoSpec.

(** The number of semicolon bytes of a script. *)
Definition countSemi (s : gostring) : nat :=
  List.length (filter (fun c => if ascii_dec c semicolon then true else false) s).

(** A byte that is white space or a semicolon. *)
Definition isWsOrSemi (c : ascii) : bool :=
  isWs c || (if ascii_dec c semicolon then true else false).

(** What one iteration consumes on an ASCII script: one byte; or two
    bytes, the second a dash, a star or a slash; or a dollar tag, from
    its first dollar sign to its last. *)
Definition shaped2 (chunk : gostring) : Prop :=
  (exists c, chunk = [c])
  \/ (exists c x, chunk = [c; x] /\ x <> semicolon /\ isWs x = false)
  \/ (exists pre, chunk = "$"%char :: pre ++ ["$"%char]).

(** The script holds no dollar sign. *)
Definition noDollar (s : gostring) : bool :=
  forallb (fun c => if ascii_dec c "$"%char then false else true) s.

(** The state with statements put in front of those it has. *)
Definition prepend (pre : list gostring) (st : state) : state :=
  mkState (pre ++ statements st) (reader st) (sb st) (inSingle st) (inDouble st)
          (inLineComment st) (inBlockComment st) (dollarTag st).

(** Two scans stand at the same point of a script [a], one of them with
    a semicolon and [b] still to come after [a]. *)
Definition inStep (A B : state) (b : gostring) : Prop :=
  mode A = mode B /\ statements A = statements B /\ sb A = sb B
  /\ reader A = reader B ++ semicolon :: b.

End GoMore.

(** ** [driverName], [buildDSN] and the library functions they call *)
Module Dsn.

Import Config.

(** [strconv.FormatInt(v, 10)], which [%d] prints for an [int]: the
    decimal digits, most significant first, after a minus sign for a
    negative number. *)
Fixpoint digitsFuel (fuel : nat) (n : N) (acc : gostring) : gostring :=
  match fuel with
  | O => acc
  | S fuel' =>
    let d := byteOf (48 + n mod 10) in
    if n <? 10 then d :: acc else digitsFuel fuel' (n / 10) (d :: acc)
  end.

Definition digits (n : N) : gostring := digitsFuel (S (N.to_nat (N.log2 n))) n [].

Definition formatInt (z : Z) : gostring :=
  match z with
  | Z0 => str "0"
  | Zpos p => digits (Npos p)
  | Zneg p => "-"%char :: digits (Npos p)
  end.

(** The two modes of [url.escape] the program uses. *)
Inductive encoding := encodePathSegment | encodeQueryComponent.

Definition isAlnum (c : ascii) : bool :=
  let n := byteN c in
  ((97 <=? n) && (n <=? 122)) || ((65 <=? n) && (n <=? 90))
  || ((48 <=? n) && (n <=? 57)).

Definition inBytes (c : ascii) (s : string) : bool :=
  existsb (fun d => if ascii_dec c d then true else false) (str s).

(** [url.shouldEscape] for these two modes. *)
Definition shouldEscape (c : ascii) (mode : encoding) : bool :=
  if isAlnum c then false
  else if inBytes c "-_.~" then false
  else if inBytes c "$&+,/:;=?@" then
    match mode with
    | encodePathSegment => inBytes c "/;,?"
    | encodeQueryComponent => true
    end
  else true.

Definition upperhex (n : N) : ascii := nth (N.to_nat n) (str "0123456789ABCDEF") zero.

(** [url.escape]: a byte that must be escaped becomes a percent sign and
    two hexadecimal digits, a blank in a query component a plus sign. *)
Definition escapeByte (mode : encoding) (c : ascii) : gostring :=
  match mode with
  | encodeQueryComponent =>
    if ascii_dec c " "%char then [ "+"%char ]
    else if shouldEscape c mode
    then ["%"%char; upperhex (N.shiftr (byteN c) 4); upperhex (N.land (byteN c) 15)]
    else [c]
  | encodePathSegment =>
    if shouldEscape c mode
    then ["%"%char; upperhex (N.shiftr (byteN c) 4); upperhex (N.land (byteN c) 15)]
    else [c]
  end.

Definition escape (s : gostring) (mode : encoding) : gostring :=
  flat_map (escapeByte mode) s.

Definition PathEscape (s : gostring) : gostring := escape s encodePathSegment.
Definition QueryEscape (s : gostring) : gostring := escape s encodeQueryComponent.

(** [url.Values{"database": {v}}.Encode()]. *)
Definition encodeDatabase (v : gostring) : gostring :=
  QueryEscape (str "database") ++ "="%char :: QueryEscape v.

Section WithCaseTable.

Variable unicode_ToLower : rune -> rune.

Definition driverName (engine : gostring) : gostring :=
  let e := ToLower unicode_ToLower engine in
  if gostring_eqb e (str "oracle") then str "oracle"
  else if gostring_eqb e (str "sqlserver") then str "sqlserver"
  else if gostring_eqb e (str "postgres") then str "pgx"
  else [].

Definition buildDSN (cfg : config) : gostring :=
  let e := ToLower unicode_ToLower (engine cfg) in
  if gostring_eqb e (str "oracle") then
    str "oracle://" ++ PathEscape (username cfg) ++ str ":"
    ++ PathEscape (password cfg) ++ str "@" ++ host cfg ++ str ":"
    ++ formatInt (port cfg) ++ str "/" ++ dbname cfg
  else if gostring_eqb e (str "sqlserver") then
    str "sqlserver://" ++ PathEscape (username cfg) ++ str ":"
    ++ PathEscape (password cfg) ++ str "@" ++ host cfg ++ str ":"
    ++ formatInt (port cfg) ++ str "?" ++ encodeDatabase (dbname cfg)
  else if gostring_eqb e (str "postgres") then
    str "host=" ++ host cfg ++ str " port=" ++ formatInt (port cfg)
    ++ str " user=" ++ username cfg ++ str " password=" ++ password cfg
    ++ str " dbname=" ++ dbname cfg ++ str " sslmode=disable"
  else [].

End WithCaseTable.

(** The configuration with other credentials. *)
Definition setCredentials (c : config) (user pass : gostring) : config :=
  mkConfig (engine c) (host c) (port c) user pass (dbname c) (sqlPath c).

(** The configuration with another database name. *)
Definition setDbname (c : config) (d : gostring) : config :=
  mkConfig (engine c) (host c) (port c) (username c) (password c) d (sqlPath c).

(** The bytes an escaped path segment can hold besides letters and digits,
    and those an escaped query component can. *)
Definition pathSafe (c : ascii) : bool := isAlnum c || inBytes c "-_.~$&+=:@%".
Definition querySafe (c : ascii) : bool := isAlnum c || inBytes c "-_.~+%".

End Dsn.

(** ** The table of a result set: [printTable], [printSeparator], [printRow] *)
Module Table.

Import GoSpec.

Local Open Scope Z_scope.

(** [len(s)], the number of bytes. *)
Definition len (s : gostring) : Z := Z.of_nat (List.length s).

(** [strings.Repeat], which panics on a negative count (the lengths here
    are those of strings held in memory, so the result fits). *)
Definition Repeat (s : gostring) (count : Z) : option gostring :=
  if count <? 0 then None else Some (List.concat (repeat s (Z.to_nat count))).

(** A piece of printing code: the text it wrote to the standard output,
    and its result, [None] when it panicked. *)
Definition out (A : Type) : Type := (gostring * option A)%type.

Definition ret {A} (a : A) : out A := ([], Some a).

Definition panic {A} : out A := ([], None).

Definition bind {A B} (m : out A) (f : A -> out B) : out B :=
  match m with
  | (o, None) => (o, None)
  | (o, Some a) => let (o', r) := f a in (o ++ o', r)
  end.

Definition orPanic {A} (o : option A) : out A :=
  match o with Some a => ret a | None => panic end.

Definition Println (s : gostring) : out unit := (s ++ [newline], Some tt).

#[local] Notation "x <- m ;; k" := (bind m (fun x => k))
  (at level 61, m at next level, right associativity).
#[local] Notation "m ;;; k" := (bind m (fun _ => k))
  (at level 61, right associativity).

(** The loop of [printSeparator] over the builder [sb]. *)
Fixpoint separatorLoop (widths : list Z) (sb : gostring) : option gostring :=
  match widths with
  | [] => Some sb
  | width :: rest =>
    match Repeat (str "-") (width + 2) with
    | None => None
    | Some dashes => separatorLoop rest (sb ++ dashes ++ str "+")
    end
  end.

Definition printSeparator (widths : list Z) : out unit :=
  line <- orPanic (separatorLoop widths (str "+")) ;; Println line.

(** The loop of [printRow] from cell [i] on; [widths[i]] panics when [i]
    is out of range. *)
Fixpoint rowLoop (i : nat) (row : list gostring) (widths : list Z) (sb : gostring)
  : option gostring :=
  match row with
  | [] => Some sb
  | cell :: rest =>
    match nth_error widths i with
    | None => None
    | Some w =>
      let padding := w - len cell in
      match Repeat (str " ") (padding + 1) with
      | None => None
      | Some blanks =>
        rowLoop (S i) rest widths (sb ++ str " " ++ cell ++ blanks ++ str "|")
      end
    end
  end.

Definition printRow (row : list gostring) (widths : list Z) : out unit :=
  line <- orPanic (rowLoop 0 row widths (str "|")) ;; Println line.

(** [widths[i] = v] for an index in range. *)
Fixpoint setNth (i : nat) (v : Z) (l : list Z) : list Z :=
  match l, i with
  | [], _ => []
  | _ :: t, O => v :: t
  | h :: t, S i' => h :: setNth i' v t
  end.

(** The inner loop of [printTable] that widens the columns to the cells
    of one row. *)
Fixpoint widenRow (i : nat) (row : list gostring) (widths : list Z)
  : option (list Z) :=
  match row with
  | [] => Some widths
  | cell :: rest =>
    match nth_error widths i with
    | None => None
    | Some w =>
      widenRow (S i) rest (if len cell >? w then setNth i (len cell) widths else widths)
    end
  end.

Fixpoint widen (data : list (list gostring)) (widths : list Z) : option (list Z) :=
  match data with
  | [] => Some widths
  | row :: rest =>
    match widenRow 0 row widths with
    | None => None
    | Some widths' => widen rest widths'
    end
  end.

Fixpoint printData (data : list (list gostring)) (widths : list Z) : out unit :=
  match data with
  | [] => ret tt
  | row :: rest => printRow row widths ;;; printData rest widths
  end.

Definition printTable (columns : list gostring) (data : list (list gostring))
  : out unit :=
  widths <- orPanic (widen data (map len columns)) ;;
  printSeparator widths ;;;
  printRow columns widths ;;;
  printSeparator widths ;;;
  printData data widths ;;;
  printSeparator widths.

(** The text of lines printed one after the other. *)
Definition printed (lines : list gostring) : gostring :=
  flat_map (fun l => l ++ [newline]) lines.

(** The length of a line of the table for columns of the given widths. *)
Definition lineLength (widths : list Z) : Z :=
  fold_right (fun w a => w + 3 + a) 1 widths.

End Table.

(** ** The run of a script: [printRows], [executeStatement], [main] *)
Module Runner.

Import Utf8 Strings Go GoSpec Config Dsn.

Local Open Scope Z_scope.

(** An error, by its message: what [err.Error()] returns and [%v] prints. *)
Definition error := gostring.

(** A value that [rows.Scan] stores through a [*any]: nil, a byte slice,
    or a value of another type, given by what [fmt.Sprint] prints for it. *)
Inductive value := Nil | Bytes (b : gostring) | Other (sprint : gostring).

(** [*sql.Rows] as the program uses it: the outcome of [Columns], one entry
    for each [Next] that returns true, holding the outcome of [Scan] (the
    value stored in each destination, by index), and the outcome of [Err]. *)
Record Rows := mkRows {
  Columns : error + list gostring;
  Scans : list (error + (nat -> value));
  RowsErr : option error
}.

(** [sql.Result]. *)
Record Result := mkResult { RowsAffected : error + Z }.

(** The database behind [database/sql]: the state of the connection and of
    the server, and what each call of the program does to it. *)
Record Database := mkDatabase {
  conn : Type;
  Open : gostring -> gostring -> conn -> conn * option error;
  PingContext : conn -> conn * option error;
  BeginTx : conn -> conn * option error;
  QueryContext : gostring -> conn -> conn * (error + Rows);
  ExecContext : gostring -> conn -> conn * (error + Result);
  Commit : conn -> conn * option error;
  Rollback : conn -> conn * option error;
  Close : conn -> conn * option error
}.

Inductive call :=
| OpenCall (driver dsn : gostring)
| PingCall
| BeginCall
| QueryCall (sql : gostring)
| ExecCall (sql : gostring)
| CommitCall
| RollbackCall
| CloseCall.

(** What a run does that can be seen from outside, in order: a file read,
    text on the standard output or the standard error, a call to the
    database with the error it returned, [rows.Close()]. *)
Inductive event :=
| Read (path : gostring)
| Out (text : gostring)
| Err (text : gostring)
| Sql (c : call) (err : option error)
| CloseRows.

(** How a piece of the program ends: it returns, it calls [os.Exit], or it
    panics. *)
Inductive outcome (A : Type) :=
| Return (a : A)
| Exited (code : Z)
| Panicked.

Arguments Return {A} a.
Arguments Exited {A} code.
Arguments Panicked {A}.

Definition cell (v : value) : gostring :=
  match v with
  | Nil => str "NULL"
  | Bytes b => b
  | Other s => s
  end.

(** The loop of [printRows] over [rows.Next()]. *)
Fixpoint scanAll (n : nat) (scans : list (error + (nat -> value)))
  (data : list (list gostring)) : error + list (list gostring) :=
  match scans with
  | [] => inr data
  | inl err :: _ => inl err
  | inr values :: rest =>
    scanAll n rest (data ++ [map (fun i => cell (values i)) (seq 0 n)])
  end.

Definition printRows (rows : Rows) : Table.out (option error) :=
  match Columns rows with
  | inl err => Table.ret (Some err)
  | inr columns =>
    match scanAll (List.length columns) (Scans rows) [] with
    | inl err => Table.ret (Some err)
    | inr data =>
      match RowsErr rows with
      | Some err => Table.ret (Some err)
      | None => Table.bind (Table.printTable columns data) (fun _ => Table.ret None)
      end
    end
  end.

(** The SQL texts passed to [QueryContext] and [ExecContext], in order. *)
Definition sent (t : list event) : list gostring :=
  flat_map (fun e => match e with
                     | Sql (QueryCall s) _ | Sql (ExecCall s) _ => [s]
                     | _ => []
                     end) t.

(** The calls to the database, in order. *)
Definition calls (t : list event) : list call :=
  flat_map (fun e => match e with Sql c _ => [c] | _ => [] end) t.

(** The text written to the standard output. *)
Definition stdout (t : list event) : gostring :=
  flat_map (fun e => match e with Out s => s | _ => [] end) t.


(** The events of a run and how it ended. *)
Definition events {S A : Type} (r : S * list event * outcome A) : list event :=
  snd (fst r).

Definition ending {S A : Type} (r : S * list event * outcome A) : outcome A :=
  snd r.

(** The statement is not blank, so that [executeStatement] does not skip it. *)
Definition notBlank (statement : gostring) : bool :=
  negb (isEmpty (TrimSpace statement)).

(** The events of [main] before the first statement. *)
Definition isSetup (e : event) : bool :=
  match e with
  | Read _ | Sql (OpenCall _ _) _ | Sql PingCall _ | Sql BeginCall _ => true
  | _ => false
  end.

(** The events of [executeStatement] besides its call to the database;
    its events; and its events when the call returned no error. *)
Definition isPrint (e : event) : bool :=
  match e with Out _ | CloseRows => true | _ => false end.

Definition isStatementEvent (e : event) : bool :=
  match e with
  | Out _ | CloseRows | Sql (QueryCall _) _ | Sql (ExecCall _) _ => true
  | _ => false
  end.

Definition isClean (e : event) : bool :=
  match e with
  | Out _ | CloseRows | Sql (QueryCall _) None | Sql (ExecCall _) None => true
  | _ => false
  end.

Section WithDatabase.

Variable unicode_ToLower : rune -> rune.

(** [os.ReadFile] on the file system of the run. *)
Variable os_ReadFile : gostring -> error + gostring.

Variable D : Database.

(** A piece of the program: from the state of the database to the new
    state, the events in order and the outcome. *)
Definition M (A : Type) : Type := conn D -> conn D * list event * outcome A.

Definition ret {A} (a : A) : M A := fun s => (s, [], Return a).

Definition bind {A B} (m : M A) (f : A -> M B) : M B :=
  fun s =>
    match m s with
    | (s1, t1, Return a) => let '(s2, t2, o) := f a s1 in (s2, t1 ++ t2, o)
    | (s1, t1, Exited code) => (s1, t1, Exited code)
    | (s1, t1, Panicked) => (s1, t1, Panicked)
    end.

#[local] Notation "x <- m ;; k" := (bind m (fun x => k))
  (at level 61, m at next level, right associativity).
#[local] Notation "m ;;; k" := (bind m (fun _ => k))
  (at level 61, right associativity).

Definition emit (e : event) : M unit := fun s => (s, [e], Return tt).

(** [os.Exit]. *)
Definition exit {A} (code : Z) : M A := fun s => (s, [], Exited code).

(** A call that returns an error or nothing. *)
Definition call0 (c : call) (f : conn D -> conn D * option error) : M (option error) :=
  fun s => let (s', r) := f s in (s', [Sql c r], Return r).

(** A call that returns an error or a value. *)
Definition call1 {A} (c : call) (f : conn D -> conn D * (error + A)) : M (error + A) :=
  fun s => let (s', r) := f s in
           (s', [Sql c (match r with inl err => Some err | inr _ => None end)],
            Return r).

(** Printing code run inside the program. *)
Definition say {A} (o : Table.out A) : M A :=
  fun s => (s, [Out (fst o)],
            match snd o with Some a => Return a | None => Panicked end).

(** [defer cleanup] before [body]: the clean-up runs when the body returns
    or panics, not when it calls [os.Exit]. *)
Definition deferred {A} (cleanup : M unit) (body : M A) : M A :=
  fun s =>
    match body s with
    | (s1, t1, Exited code) => (s1, t1, Exited code)
    | (s1, t1, o) => let '(s2, t2, _) := cleanup s1 in (s2, t1 ++ t2, o)
    end.

(** [executeStatement]: the error it returns, if any; [rows.Close()] is
    deferred once the query has returned its rows. *)
Definition executeStatement (index : Z) (statement : gostring) : M (option error) :=
  let trimmed := TrimSpace statement in
  if isEmpty trimmed then ret None
  else
    let normalized := ToLower unicode_ToLower trimmed in
    if HasPrefix normalized (str "select") || HasPrefix normalized (str "with") then
      r <- call1 (QueryCall statement) (QueryContext D statement) ;;
      match r with
      | inl err => ret (Some err)
      | inr rows =>
        deferred (emit CloseRows)
          (emit (Out (newline :: str "-- Statement " ++ formatInt index
                      ++ str " (query)" ++ [newline])) ;;;
           say (printRows rows))
      end
    else
      r <- call1 (ExecCall statement) (ExecContext D statement) ;;
      match r with
      | inl err => ret (Some err)
      | inr result =>
        match RowsAffected result with
        | inl _ =>
          emit (Out (newline :: str "-- Statement " ++ formatInt index
                     ++ str " (execution)" ++ [newline])) ;;;
          say (Table.Println (str "OK")) ;;;
          ret None
        | inr rowsAffected =>
          emit (Out (newline :: str "-- Statement " ++ formatInt index
                     ++ str " (execution)" ++ [newline])) ;;;
          (if rowsAffected >=? 0
           then emit (Out (str "Rows affected: " ++ formatInt rowsAffected
                           ++ [newline]))
           else say (Table.Println (str "OK"))) ;;;
          ret None
        end
      end.

(** The loop of [main] over the statements, from index [idx]. *)
Fixpoint runStatements (idx : Z) (statements : list gostring) : M unit :=
  match statements with
  | [] => ret tt
  | statement :: rest =>
    r <- executeStatement (idx + 1) statement ;;
    match r with
    | Some err =>
      call0 RollbackCall (Rollback D) ;;;
      emit (Err (str "statement " ++ formatInt (idx + 1) ++ str " failed: "
                 ++ err ++ [newline])) ;;;
      exit 1
    | None => runStatements (idx + 1) rest
    end
  end.

(** [main]: the flags, the check of the configuration, the read of the
    script, the split, the connection and the transaction.  The context
    with its timeout shows only in the errors the database returns;
    [db.Close()] is deferred once the database is open. *)
Definition main (f : flags) : M unit :=
  match validate unicode_ToLower (parseFlags f) with
  | (Some err, _) => emit (Err (err ++ [newline])) ;;; exit 1
  | (None, cfg) =>
    emit (Read (sqlPath cfg)) ;;;
    match os_ReadFile (sqlPath cfg) with
    | inl err =>
      emit (Err (str "failed to read SQL file: " ++ err ++ [newline])) ;;; exit 1
    | inr sqlBytes =>
      let statements := splitSQLStatements sqlBytes in
      if (List.length statements =? 0)%nat then
        emit (Err (str "no SQL statements found in file" ++ [newline])) ;;; exit 1
      else
        r <- call0 (OpenCall (driverName unicode_ToLower (engine cfg))
                             (buildDSN unicode_ToLower cfg))
                   (Open D (driverName unicode_ToLower (engine cfg))
                           (buildDSN unicode_ToLower cfg)) ;;
        match r with
        | Some err =>
          emit (Err (str "failed to open database: " ++ err ++ [newline])) ;;; exit 1
        | None =>
          deferred (call0 CloseCall (Close D) ;;; ret tt)
            (r <- call0 PingCall (PingContext D) ;;
             match r with
             | Some err =>
               emit (Err (str "failed to connect: " ++ err ++ [newline])) ;;; exit 1
             | None =>
               r <- call0 BeginCall (BeginTx D) ;;
               match r with
               | Some err =>
                 emit (Err (str "failed to start transaction: " ++ err ++ [newline])) ;;;
                 exit 1
               | None =>
                 runStatements 0 statements ;;;
                 r <- call0 CommitCall (Commit D) ;;
                 match r with
                 | Some err =>
                   emit (Err (str "failed to commit transaction: " ++ err
                              ++ [newline])) ;;;
                   exit 1
                 | None => ret tt
                 end
               end
             end)
        end
    end
  end.

End WithDatabase.

(** A database for examples: its state counts the statements run; a query
    returns one row of two columns, an execution one affected row, and a
    statement that holds [boom] fails. *)
Definition failing (s : gostring) : bool :=
  existsb (fun i => gostring_eqb (firstn 4 (skipn i s)) (str "boom"))
          (seq 0 (List.length s)).

Definition toy : Database :=
  mkDatabase nat
    (fun _ _ s => (s, None))
    (fun s => (s, None))
    (fun s => (s, None))
    (fun q s => (S s, if failing q then inl (str "bad query")
                      else inr (mkRows (inr [str "id"; str "name"])
                                  [inr (fun i => match i with
                                                 | O => Other (str "1")
                                                 | _ => Nil
                                                 end)]
                                  None)))
    (fun q s => (S s, if failing q then inl (str "bad statement")
                      else inr (mkResult (inr 1))))
    (fun s => (s, None))
    (fun s => (s, None))
    (fun s => (s, None)).

(** A file system with one script at [a.sql]. *)
Definition oneFile (script : gostring) (path : gostring) : error + gostring :=
  if gostring_eqb path (str "a.sql") then inr script
  else inl (str "open: no such file or directory").

End Runner.

(** * Facts about the Go splitter *)
Module GoFacts.

Import Utf8 Strings Go GoSpec GoMore.

(** ** Bytes, runes and lists *)

Lemma lor_small a b : N.lor a b < 128 -> N.shiftr a 7 = 0.
Proof.
  intros H.
  assert (N.shiftr (N.lor a b) 7 = 0) as E.
  { apply N.shiftr_eq_0_iff. destruct (N.eq_dec (N.lor a b) 0) as [|Hne]; [now left|right].
    split; [lia|]. apply N.log2_lt_pow2; [lia|]. simpl. lia. }
  rewrite N.shiftr_lor in E. apply N.lor_eq_0_iff in E. tauto.
Qed.

Lemma In_allBytes c : In (byteN c) allBytes.
Proof.
  unfold allBytes. apply in_map_iff. exists (N.to_nat (byteN c)). split.
  - apply N2Nat.id.
  - apply in_seq. pose proof (N_ascii_bounded c). unfold byteN. lia.
Qed.

Lemma multiByteHigh_all :
  forallb (fun x => forallb (fun b1 =>
     implb (negb (x <? 194) && negb (244 <? x)
            && (fst (acceptRange x) <=? b1) && (b1 <=? snd (acceptRange x)))
           (multiByteHigh x b1)) allBytes) allBytes = true.
Proof. vm_compute. reflexivity. Qed.

Lemma multiByteHigh_ok c b1 :
  (byteN c <? 194) || (244 <? byteN c) = false ->
  between (fst (acceptRange (byteN c))) (snd (acceptRange (byteN c))) b1 = true ->
  multiByteHigh (byteN c) (byteN b1) = true.
Proof.
  intros H1 H2. pose proof multiByteHigh_all as A.
  rewrite forallb_forall in A. specialize (A _ (In_allBytes c)).
  rewrite forallb_forall in A. specialize (A _ (In_allBytes b1)).
  apply orb_false_iff in H1. destruct H1 as [Ha Hb]. rewrite Ha, Hb in A.
  unfold between in H2. apply andb_true_iff in H2. destruct H2 as [Hc Hd].
  rewrite Hc, Hd in A. exact A.
Qed.

Lemma DecodeRune_size p : p <> [] -> (1 <= snd (DecodeRune p) <= 4)%nat.
Proof.
  destruct p as [|p0 t]; [congruence|intros _].
  unfold DecodeRune.
  repeat match goal with
  | |- context [if ?b then _ else _] => destruct b
  | |- context [let '(_, _) := ?x in _] => destruct x
  | |- context [match ?l with [] => _ | _ :: _ => _ end] => destruct l
  end; simpl; lia.
Qed.

Lemma DecodeRune_ascii c t : byteN c < 128 -> DecodeRune (c :: t) = (byteN c, 1%nat).
Proof.
  intros H. unfold DecodeRune, RuneSelf.
  apply N.ltb_lt in H. now rewrite H.
Qed.

Lemma DecodeRune_ascii_inv c t r sz :
  DecodeRune (c :: t) = (r, sz) -> r < 128 -> byteN c = r /\ sz = 1%nat.
Proof.
  unfold DecodeRune. 
  destruct (byteN c <? RuneSelf) eqn:E1; [intros H; inversion H; auto|].
  destruct ((byteN c <? 194) || (244 <? byteN c)) eqn:E2;
    [intros H; inversion H; subst; unfold RuneError; lia|].
  intros H Hr. exfalso. revert H.
  destruct (acceptRange (byteN c)) as [lo hi] eqn:EA.
  destruct (List.length (c :: t) <? seqSize (byteN c))%nat;
    [intros H; inversion H; subst; unfold RuneError in Hr; lia|].
  destruct t as [|b1 t1]; [intros H; inversion H; subst; unfold RuneError in Hr; lia|].
  destruct (between lo hi b1) eqn:EB; cbn [negb];
    [|intros H; inversion H; subst; unfold RuneError in Hr; lia].
  pose proof (multiByteHigh_ok c b1 E2) as Hh. rewrite EA in Hh. specialize (Hh EB).
  unfold multiByteHigh, seqSize in *.
  destruct (byteN c <? 224) eqn:E3.
  - cbn [Nat.leb]. intros H; inversion H; subst.
    apply lor_small in Hr. rewrite Hr in Hh. discriminate.
  - destruct (byteN c <? 240) eqn:E4; cbn [Nat.leb].
    + destruct t1 as [|b2 t2]; [intros H; inversion H; subst; unfold RuneError in Hr; lia|].
      destruct (between 128 191 b2); cbn [negb];
        [|intros H; inversion H; subst; unfold RuneError in Hr; lia].
      intros H; inversion H; subst.
      apply lor_small in Hr. rewrite Hr in Hh. discriminate.
    + destruct t1 as [|b2 t2]; [intros H; inversion H; subst; unfold RuneError in Hr; lia|].
      destruct (between 128 191 b2); cbn [negb];
        [|intros H; inversion H; subst; unfold RuneError in Hr; lia].
      destruct t2 as [|b3 t3]; [intros H; inversion H; subst; unfold RuneError in Hr; lia|].
      destruct (between 128 191 b3); cbn [negb];
        [|intros H; inversion H; subst; unfold RuneError in Hr; lia].
      intros H; inversion H; subst.
      apply lor_small in Hr. rewrite N.shiftr_lor in Hr.
      apply N.lor_eq_0_iff in Hr. destruct Hr as [Hr _]. rewrite Hr in Hh. discriminate.
Qed.

Lemma EncodeRune_ascii c : byteN c < 128 -> EncodeRune (byteN c) = [c].
Proof.
  intros H. unfold EncodeRune, RuneSelf. apply N.ltb_lt in H. rewrite H.
  unfold byteOf, byteN. now rewrite ascii_N_embedding.
Qed.

Lemma EncodeRune_nonempty r : EncodeRune r <> [].
Proof.
  unfold EncodeRune.
  repeat match goal with |- context [if ?b then _ else _] => destruct b end;
    discriminate.
Qed.

Lemma byteN_inj c d : byteN c = byteN d -> c = d.
Proof.
  unfold byteN. intros H.
  rewrite <- (ascii_N_embedding c), <- (ascii_N_embedding d). now rewrite H.
Qed.

Lemma gostring_eqb_eq a b : gostring_eqb a b = true <-> a = b.
Proof.
  unfold gostring_eqb. destruct (list_eq_dec ascii_dec a b); split; congruence.
Qed.

Lemma gostring_eqb_refl a : gostring_eqb a a = true.
Proof. now apply gostring_eqb_eq. Qed.

Lemma isAscii_lt c : isAscii c = true -> byteN c < 128.
Proof. unfold isAscii. apply N.ltb_lt. Qed.

Lemma runesFuel_enough fuel : forall s fuel',
  (List.length s <= fuel)%nat -> (List.length s <= fuel')%nat ->
  runesFuel fuel s = runesFuel fuel' s.
Proof.
  induction fuel as [|fuel IH]; intros s fuel' H H'.
  - destruct s; [|cbn in H; lia]. destruct fuel'; reflexivity.
  - destruct s as [|c t]; [destruct fuel'; reflexivity|].
    destruct fuel' as [|fuel']; [cbn in H'; lia|].
    cbn [runesFuel].
    pose proof (DecodeRune_size (c :: t) ltac:(discriminate)) as Hs.
    destruct (DecodeRune (c :: t)) as [r sz]. cbn [snd] in Hs.
    f_equal. apply IH; rewrite length_skipn; cbn [List.length] in *; lia.
Qed.

Lemma forallb_firstn {A} (f : A -> bool) n l :
  forallb f l = true -> forallb f (firstn n l) = true.
Proof.
  revert l; induction n as [|n IH]; intros [|x l]; cbn; auto.
  intros H. apply andb_true_iff in H. destruct H as [-> H]. cbn. auto.
Qed.

Lemma forallb_app_r {A} (f : A -> bool) l1 l2 :
  forallb f (l1 ++ l2) = true -> forallb f l2 = true.
Proof. rewrite forallb_app. intros H. apply andb_true_iff in H. tauto. Qed.

Lemma forallb_app_l {A} (f : A -> bool) l1 l2 :
  forallb f (l1 ++ l2) = true -> forallb f l1 = true.
Proof. rewrite forallb_app. intros H. apply andb_true_iff in H. tauto. Qed.

Lemma skipn_app_le {A} n (rd w : list A) :
  (n <= List.length rd)%nat -> skipn n (rd ++ w) = skipn n rd ++ w.
Proof.
  intros H. rewrite skipn_app.
  replace (n - List.length rd)%nat with 0%nat by lia. reflexivity.
Qed.

(** ** The reader and the buffer *)

Lemma ReadRune_shorter rd r rd' :
  ReadRune rd = Some (r, rd') -> (List.length rd' < List.length rd)%nat.
Proof.
  unfold ReadRune. destruct rd as [|c t]; [discriminate|].
  pose proof (DecodeRune_size (c :: t) ltac:(discriminate)) as Hs.
  destruct (DecodeRune (c :: t)) as [r0 sz]. simpl in Hs.
  intros H; inversion H; subst. rewrite length_skipn. cbn [List.length]. lia.
Qed.

Lemma ReadRune_ascii c t : isAscii c = true -> ReadRune (c :: t) = Some (byteN c, t).
Proof.
  intros H. unfold ReadRune. now rewrite (DecodeRune_ascii c t (isAscii_lt c H)).
Qed.

Lemma ReadRune_ascii_inv rd r rd' :
  ReadRune rd = Some (r, rd') -> r < 128 -> rd = byteOf r :: rd'.
Proof.
  unfold ReadRune. destruct rd as [|c t]; [discriminate|].
  destruct (DecodeRune (c :: t)) as [r0 sz] eqn:E. intros H Hr; inversion H; subst.
  destruct (DecodeRune_ascii_inv _ _ _ _ E Hr) as [E1 ->].
  subst r. unfold byteOf, byteN. now rewrite ascii_N_embedding.
Qed.

Lemma WriteRune_ascii buf c : isAscii c = true -> WriteRune buf (byteN c) = buf ++ [c].
Proof.
  intros H. unfold WriteRune. now rewrite (EncodeRune_ascii c (isAscii_lt c H)).
Qed.

Lemma readIgnoringErr_length rd :
  (List.length (snd (readIgnoringErr rd)) <= List.length rd)%nat.
Proof.
  unfold readIgnoringErr. destruct (ReadRune rd) as [[r rd']|] eqn:E; cbn [snd].
  - apply ReadRune_shorter in E. lia.
  - lia.
Qed.

Lemma copyRunes_extends n : forall rd buf,
  exists more, snd (copyRunes n rd buf) = buf ++ more.
Proof.
  induction n as [|n IH]; intros rd buf; cbn [copyRunes].
  - exists []. now rewrite app_nil_r.
  - destruct (readIgnoringErr rd) as [r rd'].
    destruct (IH rd' (WriteRune buf r)) as [more E]. rewrite E.
    unfold WriteRune. rewrite <- app_assoc. eauto.
Qed.

Lemma copyRunes_length n : forall rd buf,
  (List.length (fst (copyRunes n rd buf)) <= List.length rd)%nat.
Proof.
  induction n as [|n IH]; intros rd buf; cbn [copyRunes fst]; [lia|].
  pose proof (readIgnoringErr_length rd) as H.
  destruct (readIgnoringErr rd) as [r rd']. cbn [snd] in H.
  specialize (IH rd' (WriteRune buf r)). lia.
Qed.

(** Over ASCII text the copy loop moves exactly the bytes it counts. *)
Lemma copyRunes_ascii pre : forall rd buf,
  forallb isAscii pre = true ->
  copyRunes (List.length pre) (pre ++ rd) buf = (rd, buf ++ pre).
Proof.
  induction pre as [|c pre IH]; intros rd buf H; cbn [List.length copyRunes app].
  - now rewrite app_nil_r.
  - cbn [forallb] in H. apply andb_true_iff in H. destruct H as [Hc Hp].
    unfold readIgnoringErr. rewrite (ReadRune_ascii c (pre ++ rd) Hc).
    rewrite (WriteRune_ascii buf c Hc), (IH rd (buf ++ [c]) Hp).
    now rewrite <- app_assoc.
Qed.

(** Over ASCII text the copy loop takes [n] bytes when they are there. *)
Lemma copyRunes_ascii_firstn n rd buf :
  forallb isAscii rd = true -> (n <= List.length rd)%nat ->
  copyRunes n rd buf = (skipn n rd, buf ++ firstn n rd).
Proof.
  intros HA Hn.
  rewrite <- (firstn_skipn n rd) at 1.
  replace n with (List.length (firstn n rd)) at 1 by (rewrite length_firstn; lia).
  apply copyRunes_ascii. now apply forallb_firstn.
Qed.

Lemma runes_ReadRune rd r rd' :
  ReadRune rd = Some (r, rd') -> runes rd = r :: runes rd'.
Proof.
  unfold ReadRune, runes. destruct rd as [|c t]; [discriminate|].
  cbn [List.length runesFuel].
  pose proof (DecodeRune_size (c :: t) ltac:(discriminate)) as Hs.
  destruct (DecodeRune (c :: t)) as [r0 sz]. cbn [snd] in Hs.
  intros H; inversion H; subst. f_equal.
  apply runesFuel_enough; rewrite ?length_skipn; cbn [List.length]; lia.
Qed.

Lemma runes_ascii_head c t : isAscii c = true -> runes (c :: t) = byteN c :: runes t.
Proof. intros H. apply runes_ReadRune. now apply ReadRune_ascii. Qed.

Lemma runes_all_ascii s : forallb isAscii s = true -> runes s = map byteN s.
Proof.
  induction s as [|c t IH]; [reflexivity|]. cbn [forallb]. intros H.
  apply andb_true_iff in H. destruct H as [Hc Ht].
  rewrite (runes_ascii_head c t Hc), (IH Ht). reflexivity.
Qed.

Lemma HasPrefix_one rd c :
  HasPrefix (Peek 1 rd) [c] = true -> exists rd', rd = c :: rd'.
Proof.
  destruct rd as [|x rd']; cbn; [discriminate|].
  destruct (ascii_dec x c) as [->|]; [eauto|discriminate].
Qed.

Lemma Peek_app_le n rd w : (n <= List.length rd)%nat -> Peek n (rd ++ w) = Peek n rd.
Proof.
  intros H. unfold Peek. rewrite firstn_app.
  replace (n - List.length rd)%nat with 0%nat by lia. cbn [firstn]. apply app_nil_r.
Qed.

(** ** [TrimSpace] and the flush *)

Lemma emit_app stmts buf :
  emit stmts buf = stmts ++ match TrimSpace buf with [] => [] | s => [s] end.
Proof. unfold emit. destruct (TrimSpace buf); [now rewrite app_nil_r|reflexivity]. Qed.

Lemma emit_split stmts buf : emit stmts buf = stmts ++ emit [] buf.
Proof. now rewrite emit_app, (emit_app [] buf). Qed.

Lemma emit_blank buf : emit [] buf = if blank buf then [] else [TrimSpace buf].
Proof. unfold emit, blank. destruct (TrimSpace buf); reflexivity. Qed.

Lemma emit_filter buf l :
  emit [] buf ++ map TrimSpace (filter (fun s => negb (blank s)) l)
  = map TrimSpace (filter (fun s => negb (blank s)) (buf :: l)).
Proof. cbn [filter]. rewrite emit_blank. destruct (blank buf); reflexivity. Qed.

Lemma trimLeftFuel_suffix fuel : forall s, exists a, s = a ++ trimLeftFuel fuel s.
Proof.
  induction fuel as [|fuel IH]; intros s; cbn [trimLeftFuel]; [now exists []|].
  destruct s as [|c t]; [now exists []|].
  destruct (DecodeRune (c :: t)) as [r sz]. destruct (IsSpace r); [|now exists []].
  destruct (IH (skipn sz (c :: t))) as [a E].
  exists (firstn sz (c :: t) ++ a). rewrite <- app_assoc, <- E. symmetry.
  apply firstn_skipn.
Qed.

Lemma trimRightFuel_prefix fuel : forall s, exists b, s = trimRightFuel fuel s ++ b.
Proof.
  induction fuel as [|fuel IH]; intros s; cbn [trimRightFuel];
    [exists []; now rewrite app_nil_r|].
  destruct s as [|c t]; [now exists []|].
  destruct (DecodeLastRune (c :: t)) as [r sz].
  destruct (IsSpace r); [|exists []; now rewrite app_nil_r].
  set (n := (List.length (c :: t) - sz)%nat).
  destruct (IH (firstn n (c :: t))) as [b E].
  exists (b ++ skipn n (c :: t)). rewrite app_assoc, <- E. symmetry.
  apply firstn_skipn.
Qed.

(** [TrimSpace] returns a slice of its argument. *)
Lemma TrimSpace_slice s : exists a b, s = a ++ TrimSpace s ++ b.
Proof.
  unfold TrimSpace.
  destruct (trimLeftFuel_suffix (List.length s) s) as [a Ea].
  destruct (trimRightFuel_prefix (List.length (trimLeftFuel (List.length s) s))
              (trimLeftFuel (List.length s) s)) as [b Eb].
  exists a, b. now rewrite <- Eb.
Qed.

Lemma trimLeftFuel_ascii fuel : forall s,
  forallb isAscii s = true -> (List.length s <= fuel)%nat ->
  exists lead, s = lead ++ trimLeftFuel fuel s /\ forallb isWs lead = true
    /\ match trimLeftFuel fuel s with [] => True | c :: _ => isWs c = false end.
Proof.
  induction fuel as [|fuel IH]; intros s HA Hl.
  - destruct s; [|cbn in Hl; lia]. exists []. cbn. auto.
  - destruct s as [|c t]; [exists []; cbn; auto|].
    cbn [forallb] in HA. apply andb_true_iff in HA. destruct HA as [Hc Ht].
    cbn [trimLeftFuel]. rewrite (DecodeRune_ascii c t (isAscii_lt c Hc)).
    destruct (IsSpace (byteN c)) eqn:E.
    + cbn [skipn]. destruct (IH t Ht ltac:(cbn in Hl; lia)) as (lead & E1 & E2 & E3).
      exists (c :: lead). cbn [app forallb]. unfold isWs at 1. rewrite E, E2.
      split; [now f_equal|]. split; [reflexivity|exact E3].
    + exists []. cbn [app forallb]. unfold isWs. rewrite E. auto.
Qed.

Lemma DecodeLastRune_ascii t c :
  isAscii c = true -> DecodeLastRune (t ++ [c]) = (byteN c, 1%nat).
Proof.
  intros Hc. unfold DecodeLastRune. rewrite length_app. cbn [List.length].
  replace (List.length t + 1)%nat with (S (List.length t)) by lia.
  rewrite app_nth2, Nat.sub_diag by lia. cbn [nth].
  apply isAscii_lt, N.ltb_lt in Hc. unfold RuneSelf. now rewrite Hc.
Qed.

Lemma trimRightFuel_ascii fuel : forall s,
  forallb isAscii s = true -> (List.length s <= fuel)%nat ->
  exists trail, s = trimRightFuel fuel s ++ trail /\ forallb isWs trail = true
    /\ (trimRightFuel fuel s = []
        \/ exists pre c, trimRightFuel fuel s = pre ++ [c] /\ isWs c = false).
Proof.
  induction fuel as [|fuel IH]; intros s HA Hl.
  - destruct s; [|cbn in Hl; lia]. exists []. cbn. auto.
  - destruct s as [|c0 t0] eqn:Es; [exists []; cbn; auto|]. rewrite <- Es in *.
    assert (exists t c, s = t ++ [c]) as (t & c & E).
    { destruct (exists_last (l := s)) as (t & c & E); [subst; discriminate|eauto]. }
    cbn [trimRightFuel]. rewrite Es. rewrite <- Es.
    rewrite E in HA. rewrite forallb_app in HA. apply andb_true_iff in HA.
    destruct HA as [Ht Hc]. cbn [forallb] in Hc. rewrite andb_true_r in Hc.
    rewrite E, (DecodeLastRune_ascii t c Hc).
    destruct (IsSpace (byteN c)) eqn:EW.
    + rewrite length_app. cbn [List.length].
      replace (List.length t + 1 - 1)%nat with (List.length t + 0)%nat by lia.
      rewrite firstn_app_2. cbn [firstn]. rewrite app_nil_r.
      destruct (IH t Ht) as (trail & E1 & E2 & E3).
      { rewrite E, length_app in Hl. cbn in Hl. lia. }
      exists (trail ++ [c]). rewrite app_assoc, <- E1. split; [reflexivity|].
      rewrite forallb_app, E2. cbn. unfold isWs. rewrite EW. auto.
    + exists []. rewrite app_nil_r. split; [reflexivity|]. split; [reflexivity|].
      right. exists t, c. unfold isWs. auto.
Qed.

(** On ASCII text [TrimSpace] removes a run of white space at each end,
    and what is left, if anything, begins and ends with other bytes. *)
Lemma TrimSpace_ascii r :
  forallb isAscii r = true ->
  exists lead trail,
    r = lead ++ TrimSpace r ++ trail
    /\ forallb isWs lead = true /\ forallb isWs trail = true
    /\ (TrimSpace r = []
        \/ ((exists c rest, TrimSpace r = c :: rest /\ isWs c = false)
            /\ (exists pre c, TrimSpace r = pre ++ [c] /\ isWs c = false))).
Proof.
  intros HA. unfold TrimSpace.
  destruct (trimLeftFuel_ascii (List.length r) r HA (le_n _)) as (lead & E1 & W1 & H1).
  set (l := trimLeftFuel (List.length r) r) in *.
  assert (HL : forallb isAscii l = true).
  { rewrite E1 in HA. now apply forallb_app_r in HA. }
  destruct (trimRightFuel_ascii (List.length l) l HL (le_n _)) as (trail & E2 & W2 & H2).
  set (s := trimRightFuel (List.length l) l) in *.
  exists lead, trail. split; [now rewrite <- E2|]. split; [exact W1|]. split; [exact W2|].
  destruct H2 as [H2|(pre & c & H2 & H3)]; [now left|right]. split.
  - rewrite H2 in E2. destruct l as [|x l']; [destruct pre; discriminate|].
    destruct pre as [|p pre']; cbn in E2; inversion E2; subst; rewrite H2; cbn; eauto.
  - eauto.
Qed.

Lemma TrimSpace_fixed s :
  forallb isAscii s = true ->
  (exists c rest, s = c :: rest /\ isWs c = false) ->
  (exists pre c, s = pre ++ [c] /\ isWs c = false) ->
  TrimSpace s = s.
Proof.
  intros HA (c & rest & E1 & W1) (pre & d & E2 & W2). unfold TrimSpace.
  rename E2 into Es.
  assert (L : trimLeftFuel (List.length s) s = s).
  { rewrite E1 in *. cbn [List.length trimLeftFuel].
    cbn [forallb] in HA. apply andb_true_iff in HA. destruct HA as [Hc _].
    rewrite (DecodeRune_ascii c rest (isAscii_lt c Hc)).
    unfold isWs in W1. now rewrite W1. }
  rewrite L. clear L E1 W1. subst s.
  apply forallb_app_r in HA. cbn in HA. rewrite andb_true_r in HA.
  rewrite length_app. cbn [List.length].
  replace (List.length pre + 1)%nat with (S (List.length pre)) by lia.
  cbn [trimRightFuel]. rewrite (DecodeLastRune_ascii pre d HA).
  unfold isWs in W2. rewrite W2. now destruct (pre ++ [d]).
Qed.

(** [TrimSpace] trims: what it returns is empty or begins and ends with a
    character that is not white space. *)
Lemma DecodeLastRune_space_size p r sz :
  DecodeLastRune p = (r, sz) -> IsSpace r = true -> (1 <= sz)%nat.
Proof.
  unfold DecodeLastRune. destruct (List.length p) as [|start0] eqn:L.
  { intros H; inversion H; subst. discriminate. }
  destruct (byteN (nth start0 p zero) <? RuneSelf); [intros H; inversion H; lia|].
  cbv zeta.
  match goal with |- context [DecodeRune ?x] =>
    destruct (DecodeRune x) as [r' size] eqn:D; destruct x as [|y ys] eqn:K end.
  - cbn in D. inversion D; subst.
    destruct (_ =? _)%nat; intros H; inversion H; subst; [discriminate|lia].
  - pose proof (DecodeRune_size (y :: ys) ltac:(discriminate)) as S. rewrite D in S.
    cbn [snd] in S.
    destruct (_ =? _)%nat; intros H; inversion H; subst; lia.
Qed.

Lemma trimRightFuel_last fuel : forall s,
  (List.length s <= fuel)%nat ->
  trimRightFuel fuel s = []
  \/ IsSpace (fst (DecodeLastRune (trimRightFuel fuel s))) = false.
Proof.
  induction fuel as [|fuel IH]; intros s Hl.
  { destruct s; [now left|cbn in Hl; lia]. }
  cbn [trimRightFuel]. destruct s as [|c t]; [now left|].
  destruct (DecodeLastRune (c :: t)) as [r sz] eqn:D.
  destruct (IsSpace r) eqn:W.
  - apply IH. pose proof (DecodeLastRune_space_size _ _ _ D W).
    rewrite length_firstn. cbn [List.length] in *. lia.
  - right. now rewrite D.
Qed.

Lemma trimLeftFuel_first fuel : forall s,
  (List.length s <= fuel)%nat ->
  trimLeftFuel fuel s = []
  \/ IsSpace (fst (DecodeRune (trimLeftFuel fuel s))) = false.
Proof.
  induction fuel as [|fuel IH]; intros s Hl.
  { destruct s; [now left|cbn in Hl; lia]. }
  cbn [trimLeftFuel]. destruct s as [|c t]; [now left|].
  destruct (DecodeRune (c :: t)) as [r sz] eqn:D.
  destruct (IsSpace r) eqn:W.
  - apply IH. pose proof (DecodeRune_size (c :: t) ltac:(discriminate)) as S.
    rewrite D in S. cbn [snd] in S. rewrite length_skipn. cbn [List.length] in *. lia.
  - right. now rewrite D.
Qed.

(** The first character of a prefix is that of the whole string, or the
    prefix ends inside it and it decodes to [RuneError]. *)
Lemma DecodeRune_prefix r b :
  r <> [] ->
  fst (DecodeRune r) = fst (DecodeRune (r ++ b)) \/ fst (DecodeRune r) = RuneError.
Proof.
  destruct r as [|p0 t]; [congruence|intros _].
  cbn [app]. unfold DecodeRune.
  destruct (byteN p0 <? RuneSelf); [now left|].
  destruct ((byteN p0 <? 194) || (244 <? byteN p0)); [now left|].
  cbv zeta. destruct (acceptRange (byteN p0)) as [lo hi].
  unfold seqSize.
  destruct (byteN p0 <? 224); [|destruct (byteN p0 <? 240)];
    destruct t as [|b1 [|b2 [|b3 t3]]]; cbn [app List.length Nat.ltb Nat.leb];
    try (now right);
    repeat match goal with
    | |- context [if ?c then _ else _] => destruct c
    end; cbn [fst]; auto.
Qed.

Lemma TrimSpace_trimmed s :
  TrimSpace s = []
  \/ (IsSpace (fst (DecodeRune (TrimSpace s))) = false
      /\ IsSpace (fst (DecodeLastRune (TrimSpace s))) = false).
Proof.
  unfold TrimSpace. set (l := trimLeftFuel (List.length s) s).
  destruct (trimRightFuel_last (List.length l) l (le_n _)) as [E|E]; [now left|].
  destruct (trimRightFuel (List.length l) l) as [|c t] eqn:R; [now left|].
  right. split; [|exact E].
  destruct (trimRightFuel_prefix (List.length l) l) as [b Eb]. rewrite R in Eb.
  destruct (trimLeftFuel_first (List.length s) s (le_n _)) as [F|F]; fold l in F.
  { rewrite F in Eb. discriminate. }
  destruct (DecodeRune_prefix (c :: t) b ltac:(discriminate)) as [P|P].
  - rewrite P, <- Eb. exact F.
  - rewrite P. reflexivity.
Qed.

(** Every statement held by the scanner came out of a flush: it is a
    trimmed buffer and it is not empty. *)
Lemma emit_flushed stmts buf :
  Forall (fun s => s <> [] /\ exists b, s = TrimSpace b) stmts ->
  Forall (fun s => s <> [] /\ exists b, s = TrimSpace b) (emit stmts buf).
Proof.
  intros H. unfold emit. destruct (TrimSpace buf) eqn:E; [exact H|].
  apply Forall_app. split; [exact H|]. constructor; [|constructor].
  split; [discriminate|]. exists buf. now rewrite E.
Qed.

Lemma isWs_cases c :
  isAscii c = true -> isWs c = true ->
  In c [ascii_of_N 9; ascii_of_N 10; ascii_of_N 11; ascii_of_N 12; ascii_of_N 13;
        " "%char].
Proof.
  unfold isAscii, isWs, IsSpace. intros HA HW.
  apply N.ltb_lt in HA.
  assert (H : In (byteN c) [9; 10; 11; 12; 13; 32]).
  { repeat (apply orb_true_iff in HW; destruct HW as [HW|HW]);
      repeat match goal with
      | H : (_ && _) = true |- _ => apply andb_true_iff in H; destruct H
      | H : (_ <=? _) = true |- _ => apply N.leb_le in H
      | H : (_ =? _) = true |- _ => apply N.eqb_eq in H
      end; cbn; lia. }
  cbn in H |- *.
  repeat (destruct H as [H|H];
    [apply (f_equal ascii_of_N) in H; unfold byteN in H;
     rewrite ascii_N_embedding in H; subst c; tauto|]).
  contradiction.
Qed.

(** ** One iteration of the loop *)

Lemma quoteAndBoundary_effect st ch rd :
  (ch = rSemi /\ normal st = true /\ quoteAndBoundary st ch rd = boundary st rd)
  \/ (statements (quoteAndBoundary st ch rd) = statements st
      /\ sb (quoteAndBoundary st ch rd) = sb st ++ EncodeRune ch).
Proof.
  unfold quoteAndBoundary.
  match goal with |- context [if ?c then mkState _ _ _ _ _ _ _ _ else _] =>
    destruct c eqn:E end; [left|right; split; reflexivity].
  repeat (apply andb_true_iff in E; destruct E as [E ?]).
  apply N.eqb_eq in E. subst ch.
  destruct st as [stmts r0 buf s d l b tag]; cbn in *.
  destruct s, d, l, b, tag; try discriminate. auto.
Qed.

Lemma quoteAndBoundary_reader st ch rd : reader (quoteAndBoundary st ch rd) = rd.
Proof.
  unfold quoteAndBoundary.
  match goal with |- context [if ?c then mkState _ _ _ _ _ _ _ _ else _] =>
    destruct c end; reflexivity.
Qed.

Lemma quoteAndBoundary_mode A B c r1 r2 :
  mode A = mode B -> mode (quoteAndBoundary A c r1) = mode (quoteAndBoundary B c r2).
Proof.
  unfold mode. intros H. inversion H as [[H1 H2 H3 H4 H5]].
  unfold quoteAndBoundary. rewrite H1, H2, H3, H4, H5.
  match goal with |- context [if ?b then mkState _ _ _ _ _ _ _ _ else _] =>
    destruct b end; reflexivity.
Qed.

Lemma normal_mode A : normal A = true <-> mode A = (false, false, false, false, []).
Proof.
  destruct A as [sA rA bA s d l b tag]. unfold normal, mode. cbn.
  destruct s, d, l, b, tag; cbn; split; intros H;
    try discriminate H; try reflexivity; inversion H.
Qed.

Lemma step_semicolon_normal st rest :
  reader st = semicolon :: rest -> normal st = true ->
  step st = Some (boundary st rest).
Proof.
  destruct st as [stmts rd buf s d l b tag]; cbn [reader]; intros -> Hn.
  unfold normal in Hn; cbn in Hn.
  destruct s, d, l, b, tag; try discriminate. reflexivity.
Qed.

Lemma step_semicolon_suspended st rest :
  reader st = semicolon :: rest -> normal st = false ->
  step st = Some (appended st [semicolon] rest).
Proof.
  destruct st as [stmts rd buf s d l b tag]; cbn [reader]; intros -> Hn.
  unfold normal in Hn; cbn in Hn.
  destruct l; [reflexivity|].
  destruct b; [reflexivity|].
  destruct tag as [|t0 tag]; [|reflexivity].
  destruct s, d; try discriminate; reflexivity.
Qed.

Lemma step_effect st st' :
  step st = Some st' ->
  (normal st = true /\ exists rest, reader st = semicolon :: rest /\ st' = boundary st rest)
  \/ (statements st' = statements st
      /\ exists chunk, chunk <> [] /\ sb st' = sb st ++ chunk).
Proof.
  unfold step. destruct (ReadRune (reader st)) as [[ch rd]|] eqn:ER; [|discriminate].
  intros H; inversion H; clear H.
  assert (Q : (normal st = true /\ exists rest, reader st = semicolon :: rest
                 /\ quoteAndBoundary st ch rd = boundary st rest)
              \/ (statements (quoteAndBoundary st ch rd) = statements st
                  /\ exists chunk, chunk <> [] /\ sb (quoteAndBoundary st ch rd) = sb st ++ chunk)).
  { destruct (quoteAndBoundary_effect st ch rd) as [(-> & Hn & E)|[E1 E2]].
    - left. split; [exact Hn|]. exists rd. split; [|exact E].
      apply (ReadRune_ascii_inv _ _ _ ER). reflexivity.
    - right. split; [exact E1|]. exists (EncodeRune ch). split; [apply EncodeRune_nonempty|exact E2]. }
  assert (W : forall buf, exists chunk, chunk <> [] /\ WriteRune (sb st) ch ++ buf = sb st ++ chunk).
  { intros buf. exists (EncodeRune ch ++ buf). split.
    - pose proof (EncodeRune_nonempty ch). destruct (EncodeRune ch); [congruence|discriminate].
    - unfold WriteRune. now rewrite app_assoc. }
  assert (W0 : exists chunk, chunk <> [] /\ WriteRune (sb st) ch = sb st ++ chunk).
  { destruct (W []) as [c [? E]]. rewrite app_nil_r in E. eauto. }
  assert (W1 : forall r, exists chunk, chunk <> [] /\ WriteRune (WriteRune (sb st) ch) r = sb st ++ chunk).
  { intros r. apply (W (EncodeRune r)). }
  assert (WC : forall n rd0, exists chunk, chunk <> []
             /\ snd (copyRunes n rd0 (WriteRune (sb st) ch)) = sb st ++ chunk).
  { intros n rd0. destruct (copyRunes_extends n rd0 (WriteRune (sb st) ch)) as [more E].
    rewrite E. apply W. }
  repeat match goal with
  | |- context [if ?b then _ else _] => destruct b
  | |- context [match ReadRune ?x with _ => _ end] => destruct (ReadRune x) as [[? ?]|]
  | |- context [match dollarTag ?x with _ => _ end] => destruct (dollarTag x) eqn:?
  | |- context [match findTag ?x ?y with _ => _ end] => destruct (findTag x y)
  | |- context [let '(_, _) := copyRunes ?n ?r ?b in _] =>
      let E := fresh "EC" in
      pose proof (WC n r) as E; destruct (copyRunes n r b)
  end; try exact Q; right; cbn [statements sb snd] in *; split; auto.
Qed.

Lemma step_shorter st st' :
  step st = Some st' -> (List.length (reader st') < List.length (reader st))%nat.
Proof.
  unfold step. destruct (ReadRune (reader st)) as [[ch rd]|] eqn:ER; [|discriminate].
  apply ReadRune_shorter in ER.
  intros H; inversion H; clear H.
  repeat match goal with
  | |- context [if ?b then _ else _] => destruct b
  | |- context [match ReadRune ?x with _ => _ end] =>
      let E := fresh "E" in destruct (ReadRune x) as [[? ?]|] eqn:E;
      [apply ReadRune_shorter in E|]
  | |- context [match dollarTag ?x with _ => _ end] => destruct (dollarTag x) eqn:?
  | |- context [match findTag ?x ?y with _ => _ end] => destruct (findTag x y)
  | |- context [let '(_, _) := copyRunes ?n ?r ?b in _] =>
      let E := fresh "EC" in
      pose proof (copyRunes_length n r b) as E; destruct (copyRunes n r b)
  end; rewrite ?quoteAndBoundary_reader; cbn [reader fst] in *; lia.
Qed.

Lemma step_none_iff st : step st = None <-> reader st = [].
Proof.
  unfold step, ReadRune. destruct (reader st) as [|c t].
  - tauto.
  - destruct (DecodeRune (c :: t)). split; discriminate.
Qed.

Lemma step_dollar_other st tag ch rd :
  dollarQuoted st tag -> ReadRune (reader st) = Some (ch, rd) -> ch <> rDollar ->
  step st = Some (appended st (EncodeRune ch) rd).
Proof.
  intros (Hs & Hd & Hl & Hb & Ht & Hne) ER Hch.
  unfold step. rewrite ER, Hl, Hb. destruct (dollarTag st) as [|t0 tl0] eqn:E; [congruence|].
  apply N.eqb_neq in Hch. rewrite Hch. cbn [andb]. unfold appended, WriteRune.
  now rewrite E, Hl, Hb.
Qed.

Lemma step_dollar_close st tag rd :
  dollarQuoted st tag -> reader st = "$"%char :: rd ->
  Peek (List.length tag - 1) rd = tl tag ->
  step st = Some (mkState (statements st)
                    (fst (copyRunes (List.length tag - 1) rd (sb st ++ str "$")))
                    (snd (copyRunes (List.length tag - 1) rd (sb st ++ str "$")))
                    false false false false []).
Proof.
  intros (Hs & Hd & Hl & Hb & Ht & Hne) ER HP.
  unfold step. rewrite ER, Hl, Hb.
  change (ReadRune ("$"%char :: rd)) with (Some (rDollar, rd)).
  rewrite Ht. destruct tag as [|t0 tl0]; [congruence|]. cbn [tl] in HP.
  cbv beta iota. rewrite HP, gostring_eqb_refl.
  change (rDollar =? rDollar) with true. cbn [andb].
  change (WriteRune (sb st) rDollar) with (sb st ++ str "$").
  destruct (copyRunes (List.length (t0 :: tl0) - 1) rd (sb st ++ str "$")).
  now rewrite Hs, Hd.
Qed.

Lemma step_dollar_stay st tag rd :
  dollarQuoted st tag -> reader st = "$"%char :: rd ->
  Peek (List.length tag - 1) rd <> tl tag ->
  step st = Some (appended st (str "$") rd).
Proof.
  intros (Hs & Hd & Hl & Hb & Ht & Hne) ER HP.
  unfold step. rewrite ER, Hl, Hb.
  change (ReadRune ("$"%char :: rd)) with (Some (rDollar, rd)).
  rewrite Ht. destruct tag as [|t0 tl0]; [congruence|]. cbn [tl] in HP.
  cbv beta iota.
  destruct (gostring_eqb (Peek (List.length (t0 :: tl0) - 1) rd) tl0) eqn:E.
  - apply gostring_eqb_eq in E. congruence.
  - rewrite andb_false_r. unfold appended. now rewrite Ht, Hl, Hb.
Qed.

(** The line comment rule of the Go scanner: in the Normal state a dash
    opens a line comment only when the two bytes after it are a dash and
    a blank, or two dashes. *)
Lemma step_dash_normal st rd :
  normal st = true -> reader st = "-"%char :: rd ->
  step st =
  Some (if gostring_eqb (Peek 2 rd) (str "- ") || gostring_eqb (Peek 2 rd) (str "--")
        then mkState (statements st) (tl rd) (sb st ++ str "--")
                     false false true false []
        else appended st (str "-") rd).
Proof.
  destruct st as [stmts r0 buf s d l b tag]; cbn [reader]; intros Hn ->.
  unfold normal in Hn; cbn in Hn.
  destruct s, d, l, b, tag; try discriminate.
  unfold step. cbn [reader inLineComment inBlockComment dollarTag inSingle inDouble
                    statements sb negb andb].
  change (ReadRune ("-"%char :: rd)) with (Some (rDash, rd)). cbv beta iota.
  change (rDash =? rDash) with true. cbn [andb].
  destruct (gostring_eqb (Peek 2 rd) (str "- ") || gostring_eqb (Peek 2 rd) (str "--")) eqn:E.
  - assert (exists rd', rd = "-"%char :: rd') as [rd' ->].
    { apply orb_true_iff in E. destruct E as [E|E]; apply gostring_eqb_eq in E;
        destruct rd as [|c rd']; try discriminate; inversion E; eauto. }
    change (ReadRune ("-"%char :: rd')) with (Some (rDash, rd')). cbv beta iota.
    unfold WriteRune. cbn [tl]. now rewrite <- app_assoc.
  - reflexivity.
Qed.

(** The line comment rule of the Java port: in the Normal state two
    dashes open a line comment, whatever follows. *)
Lemma java_step_dash_dash stmts rest buf :
  Java.step (Java.mkState stmts (45 :: 45 :: rest) buf false false false false [])
  = Some (Java.mkState stmts rest (buf ++ [45; 45]) false false true false []).
Proof. cbn. now rewrite <- app_assoc. Qed.

Lemma step_plain st ch rd :
  normal st = true -> ReadRune (reader st) = Some (ch, rd) ->
  plainAt ch rd = true ->
  step st = Some (if ch =? rSemi then boundary st rd
                  else appended st (EncodeRune ch) rd).
Proof.
  destruct st as [stmts r0 buf s d l b tag]; cbn [reader]; intros Hn ER HP.
  unfold normal in Hn; cbn in Hn.
  destruct s, d, l, b, tag; try discriminate. clear Hn.
  unfold plainAt in HP.
  repeat (apply andb_true_iff in HP; destruct HP as [HP ?]).
  repeat match goal with H : negb _ = true |- _ => apply negb_true_iff in H end.
  unfold step. cbn [reader inLineComment inBlockComment dollarTag inSingle inDouble
                    statements sb negb andb]. rewrite ER.
  assert (D : (ch =? rDash)
              && (gostring_eqb (Peek 2 rd) (str "- ") || gostring_eqb (Peek 2 rd) (str "--"))
              = false).
  { destruct (ch =? rDash) eqn:E; [|reflexivity]. cbn [andb] in *.
    apply orb_false_iff.
    split; (destruct (gostring_eqb (Peek 2 rd) _) eqn:G; [|reflexivity]);
      apply gostring_eqb_eq in G; destruct rd as [|c t]; try discriminate;
      inversion G; subst; cbn in *; destruct t; discriminate. }
  rewrite D.
  assert (S : (ch =? rSlash) && HasPrefix (Peek 1 rd) (str "*") = false).
  { destruct (ch =? rSlash) eqn:E; [|reflexivity]. cbn [andb] in *.
    destruct rd as [|c t]; [reflexivity|]. cbn in *.
    destruct (ascii_dec c "*"%char) as [->|]; [|reflexivity].
    destruct t; discriminate. }
  rewrite S.
  assert (T : (if ch =? rDollar
               then match findTag (runes (Peek 64 rd)) (str "$") with
                    | Some tag =>
                      let '(rd', sb') := copyRunes (List.length tag - 1) rd
                                                   (WriteRune buf ch) in
                      mkState stmts rd' sb' false false false false tag
                    | None => quoteAndBoundary
                                (mkState stmts r0 buf false false false false []) ch rd
                    end
               else quoteAndBoundary
                      (mkState stmts r0 buf false false false false []) ch rd)
              = quoteAndBoundary (mkState stmts r0 buf false false false false []) ch rd).
  { destruct (ch =? rDollar) eqn:E; [|reflexivity]. cbn [andb] in *.
    unfold opensTag in *.
    destruct (findTag (runes (Peek 64 rd)) (str "$")); [discriminate|reflexivity]. }
  rewrite T.
  unfold quoteAndBoundary, boundary, appended, WriteRune.
  cbn [reader inLineComment inBlockComment dollarTag inSingle inDouble
       statements sb negb andb].
  rewrite HP.
  match goal with H : (ch =? rDQuote) = false |- _ => rewrite H end.
  cbn [andb negb]. rewrite !andb_true_r. reflexivity.
Qed.

(** In the Normal state a white space byte is appended and nothing else
    changes. *)
Lemma step_ws_normal A c rd :
  normal A = true -> reader A = c :: rd -> isAscii c = true -> isWs c = true ->
  step A = Some (appended A [c] rd).
Proof.
  destruct A as [sA rA bA s d l b tag]; cbn [reader]; intros Hn -> HA HW.
  unfold normal in Hn; cbn in Hn.
  destruct s, d, l, b, tag; try discriminate. clear Hn.
  pose proof (isWs_cases c HA HW) as H. cbn [In] in H.
  repeat (destruct H as [H|H]; [subst c; reflexivity|]). contradiction.
Qed.

(** On ASCII text a tag that is found is the accumulator followed by a
    prefix of the window. *)
Lemma findTag_ascii p : forall acc tag,
  forallb isAscii p = true -> findTag (map byteN p) acc = Some tag ->
  exists k, (k <= List.length p)%nat /\ tag = acc ++ firstn k p.
Proof.
  induction p as [|c p IH]; intros acc tag HA H; [discriminate|].
  cbn [forallb] in HA. apply andb_true_iff in HA. destruct HA as [Hc Hp].
  cbn [map findTag] in H. rewrite (EncodeRune_ascii c (isAscii_lt c Hc)) in H.
  destruct (byteN c =? rDollar).
  - inversion H. exists 1%nat. cbn. split; [lia|reflexivity].
  - destruct ((byteN c =? rSpace) || (byteN c =? rNewline) || (byteN c =? rTab));
      [discriminate|].
    destruct (IH _ _ Hp H) as [k [Hk ->]]. exists (S k). cbn [List.length firstn].
    split; [lia|]. now rewrite <- app_assoc.
Qed.

Lemma findTag_dollar rs : forall acc tag,
  findTag rs acc = Some tag -> exists pre, tag = pre ++ ["$"%char].
Proof.
  induction rs as [|r rs IH]; intros acc tag H; [discriminate|].
  cbn [findTag] in H. destruct (r =? rDollar) eqn:E.
  - apply N.eqb_eq in E. subst r. inversion H. exists acc. reflexivity.
  - destruct ((r =? rSpace) || (r =? rNewline) || (r =? rTab)); [discriminate|].
    eapply IH; eauto.
Qed.

(** Whether a tag is found, and which, depends on the bytes up to its
    closing dollar sign only. *)
Lemma findTag_prefix p : forall q acc tag,
  forallb isAscii p = true ->
  findTag (map byteN p) acc = Some tag ->
  firstn (List.length tag - List.length acc) q
  = firstn (List.length tag - List.length acc) p ->
  findTag (map byteN q) acc = Some tag.
Proof.
  induction p as [|c p IH]; intros q acc tag HA H HF; [discriminate|].
  cbn [forallb] in HA. apply andb_true_iff in HA. destruct HA as [Hc Hp].
  destruct (findTag_ascii (c :: p) acc tag) as [k [Hk Etag]];
    [cbn [forallb]; now rewrite Hc, Hp|exact H|].
  cbn [map findTag] in H. rewrite (EncodeRune_ascii c (isAscii_lt c Hc)) in H.
  assert (L : (List.length tag - List.length acc = k)%nat).
  { rewrite Etag, length_app, length_firstn. lia. }
  rewrite L in HF.
  destruct (byteN c =? rDollar) eqn:ED.
  - injection H as H. rewrite <- H in L. rewrite length_app in L.
    cbn [List.length] in L. assert (K : k = 1%nat) by lia. rewrite K in HF.
    rewrite <- H.
    destruct q as [|x q']; cbn [firstn] in HF; [discriminate|]. inversion HF; subst x.
    cbn [map findTag]. now rewrite ED, (EncodeRune_ascii c (isAscii_lt c Hc)).
  - destruct ((byteN c =? rSpace) || (byteN c =? rNewline) || (byteN c =? rTab)) eqn:EW;
      [discriminate|].
    destruct (findTag_ascii p (acc ++ [c]) tag Hp H) as [k' [Hk' Etag']].
    assert (K : k = S k').
    { assert (List.length tag = List.length acc + 1 + k')%nat.
      { rewrite Etag', !length_app, length_firstn. cbn [List.length]. lia. }
      lia. }
    rewrite K in HF.
    destruct q as [|x q']; cbn [firstn] in HF; [discriminate|].
    inversion HF as [[Hx Hq]]; subst x.
    cbn [map findTag]. rewrite ED, EW, (EncodeRune_ascii c (isAscii_lt c Hc)).
    apply (IH q' (acc ++ [c]) tag Hp H).
    assert (List.length tag - List.length (acc ++ [c]) = k')%nat as ->.
    { rewrite length_app. cbn [List.length]. lia. }
    exact Hq.
Qed.

(** What one iteration does to an ASCII script: at a boundary it drops
    the semicolon; otherwise the bytes it consumes are the bytes it
    appends. *)
Lemma step_ascii st st' :
  forallb isAscii (reader st) = true -> step st = Some st' ->
  (normal st = true /\ reader st = semicolon :: reader st'
   /\ st' = boundary st (reader st'))
  \/ (statements st' = statements st
      /\ exists chunk, chunk <> [] /\ reader st = chunk ++ reader st'
                       /\ sb st' = sb st ++ chunk).
Proof.
  intros HA. unfold step.
  destruct (reader st) as [|c rd] eqn:ER; [discriminate|].
  cbn [forallb] in HA. apply andb_true_iff in HA. destruct HA as [Hc Hrd].
  rewrite (ReadRune_ascii c rd Hc), (WriteRune_ascii (sb st) c Hc).
  intros H. assert (H' := f_equal (fun o => match o with Some x => x | None => st end) H).
  cbv beta iota in H'. subst st'. clear H.
  assert (Q : (normal st = true /\ c :: rd = semicolon :: reader (quoteAndBoundary st (byteN c) rd)
               /\ quoteAndBoundary st (byteN c) rd
                  = boundary st (reader (quoteAndBoundary st (byteN c) rd)))
              \/ (statements (quoteAndBoundary st (byteN c) rd) = statements st
                  /\ exists chunk, chunk <> []
                       /\ c :: rd = chunk ++ reader (quoteAndBoundary st (byteN c) rd)
                       /\ sb (quoteAndBoundary st (byteN c) rd) = sb st ++ chunk)).
  { rewrite quoteAndBoundary_reader.
    destruct (quoteAndBoundary_effect st (byteN c) rd) as [(E & Hn & E')|[E1 E2]].
    - left. apply (byteN_inj c semicolon) in E. subst c. auto.
    - right. split; [exact E1|]. exists [c]. rewrite E2, (EncodeRune_ascii c (isAscii_lt c Hc)).
      repeat split. discriminate. }
  assert (One : forall s d l b tag,
    statements (mkState (statements st) rd (sb st ++ [c]) s d l b tag) = statements st
    /\ exists chunk, chunk <> []
         /\ c :: rd = chunk ++ reader (mkState (statements st) rd (sb st ++ [c]) s d l b tag)
         /\ sb (mkState (statements st) rd (sb st ++ [c]) s d l b tag) = sb st ++ chunk).
  { intros. split; [reflexivity|]. exists [c]. repeat split. discriminate. }
  assert (Two : forall r n s d l b tag,
    isAscii n = true -> r = byteN n \/ (r = rSlash /\ n = "/"%char) ->
    forall rd', rd = n :: rd' ->
    statements (mkState (statements st) rd' (WriteRune (sb st ++ [c]) r) s d l b tag)
      = statements st
    /\ exists chunk, chunk <> []
         /\ c :: rd = chunk ++ reader (mkState (statements st) rd'
                                          (WriteRune (sb st ++ [c]) r) s d l b tag)
         /\ sb (mkState (statements st) rd' (WriteRune (sb st ++ [c]) r) s d l b tag)
            = sb st ++ chunk).
  { intros r n s d l b tag Hn Hr rd' ->. split; [reflexivity|]. exists [c; n].
    split; [discriminate|]. split; [reflexivity|]. cbn [sb].
    assert (r = byteN n) as -> by (destruct Hr as [|[-> ->]]; [assumption|reflexivity]).
    rewrite (WriteRune_ascii _ n Hn). now rewrite <- app_assoc. }
  assert (Copy : forall n s d l b tag, (n <= List.length rd)%nat ->
    statements (mkState (statements st) (fst (copyRunes n rd (sb st ++ [c])))
                        (snd (copyRunes n rd (sb st ++ [c]))) s d l b tag) = statements st
    /\ exists chunk, chunk <> []
         /\ c :: rd = chunk ++ reader (mkState (statements st)
                         (fst (copyRunes n rd (sb st ++ [c])))
                         (snd (copyRunes n rd (sb st ++ [c]))) s d l b tag)
         /\ sb (mkState (statements st) (fst (copyRunes n rd (sb st ++ [c])))
                        (snd (copyRunes n rd (sb st ++ [c]))) s d l b tag) = sb st ++ chunk).
  { intros n s d l b tag Hn. rewrite (copyRunes_ascii_firstn n rd _ Hrd Hn).
    cbn [fst snd statements reader sb]. split; [reflexivity|].
    exists (c :: firstn n rd). split; [discriminate|]. split.
    - cbn [app]. now rewrite firstn_skipn.
    - now rewrite <- app_assoc. }
  destruct (inLineComment st); [right; apply One|].
  destruct (inBlockComment st).
  { destruct ((byteN c =? rStar) && HasPrefix (Peek 1 rd) (str "/")) eqn:E;
      [|right; apply One].
    apply andb_true_iff in E. destruct E as [_ E].
    apply HasPrefix_one in E. destruct E as [rd' E]. rewrite E.
    change (ReadRune ("/"%char :: rd')) with (Some (rSlash, rd')). cbv beta iota.
    right. rewrite E in Two. eapply (Two rSlash "/"%char); eauto. }
  destruct (dollarTag st) as [|t0 tagTail] eqn:ET.
  2:{ destruct ((byteN c =? rDollar)
                && gostring_eqb (Peek (List.length (t0 :: tagTail) - 1) rd) tagTail) eqn:E;
        [|right; apply One].
      apply andb_true_iff in E. destruct E as [_ E]. apply gostring_eqb_eq in E.
      right.
      assert (Hn : (List.length (t0 :: tagTail) - 1 <= List.length rd)%nat).
      { cbn [List.length]. rewrite <- E at 1. unfold Peek. rewrite length_firstn. 
        cbn [List.length]. lia. }
      pose proof (Copy _ (inSingle st) (inDouble st) false false [] Hn) as C.
      destruct (copyRunes (List.length (t0 :: tagTail) - 1) rd (sb st ++ [c])).
      exact C. }
  destruct (negb (inSingle st) && negb (inDouble st)); [|exact Q].
  destruct ((byteN c =? rDash)
            && (gostring_eqb (Peek 2 rd) (str "- ") || gostring_eqb (Peek 2 rd) (str "--"))) eqn:ED.
  { apply andb_true_iff in ED. destruct ED as [_ ED].
    assert (exists rd', rd = "-"%char :: rd') as [rd' E].
    { apply orb_true_iff in ED. destruct ED as [G|G]; apply gostring_eqb_eq in G;
        destruct rd as [|x rd']; try discriminate; inversion G; eauto. }
    rewrite E. change (ReadRune ("-"%char :: rd')) with (Some (rDash, rd')).
    cbv beta iota. right. rewrite E in Two. eapply (Two rDash "-"%char); eauto. }
  destruct ((byteN c =? rSlash) && HasPrefix (Peek 1 rd) (str "*")) eqn:ES.
  { apply andb_true_iff in ES. destruct ES as [_ ES].
    apply HasPrefix_one in ES. destruct ES as [rd' E]. rewrite E.
    change (ReadRune ("*"%char :: rd')) with (Some (rStar, rd')). cbv beta iota.
    right. rewrite E in Two. eapply (Two rStar "*"%char); eauto. }
  destruct (byteN c =? rDollar); [|exact Q].
  destruct (findTag (runes (Peek 64 rd)) (str "$")) as [tag|] eqn:EF; [|exact Q].
  right.
  assert (HP : forallb isAscii (Peek 64 rd) = true) by (now apply forallb_firstn).
  rewrite (runes_all_ascii _ HP) in EF.
  destruct (findTag_ascii _ _ _ HP EF) as [k [Hk ->]].
  assert (Hn : (List.length (str "$" ++ firstn k (Peek 64 rd)) - 1 <= List.length rd)%nat).
  { rewrite length_app, length_firstn. unfold Peek in *. rewrite length_firstn in *.
    cbn [str list_ascii_of_string List.length]. lia. }
  pose proof (Copy _ (inSingle st) (inDouble st) false false
                   (str "$" ++ firstn k (Peek 64 rd)) Hn) as C.
  destruct (copyRunes (List.length (str "$" ++ firstn k (Peek 64 rd)) - 1) rd (sb st ++ [c])).
  exact C.
Qed.

Lemma step_ascii_shape2 st st' :
  forallb isAscii (reader st) = true -> tagOK st -> step st = Some st' ->
  tagOK st' /\ forall chunk, reader st = chunk ++ reader st' -> shaped2 chunk.
Proof.
  intros HA HT. unfold step.
  destruct (reader st) as [|c rd] eqn:ER; [discriminate|].
  cbn [forallb] in HA. apply andb_true_iff in HA. destruct HA as [Hc Hrd].
  rewrite (ReadRune_ascii c rd Hc), (WriteRune_ascii (sb st) c Hc).
  intros H. assert (H' := f_equal (fun o => match o with Some x => x | None => st end) H).
  cbv beta iota in H'. subst st'. clear H.
  assert (One : forall chunk, c :: rd = chunk ++ rd -> shaped2 chunk).
  { intros chunk E. left. exists c. change (c :: rd) with ([c] ++ rd) in E.
    apply app_inv_tail in E. now symmetry. }
  assert (Two : forall n rd' chunk, In n ["/"%char; "-"%char; "*"%char] ->
                rd = n :: rd' -> c :: rd = chunk ++ rd' -> shaped2 chunk).
  { intros n rd' chunk Hn -> E. right. left. exists c, n.
    change (c :: n :: rd') with ([c; n] ++ rd') in E.
    apply app_inv_tail in E. split; [now symmetry|].
    cbn [In] in Hn. destruct Hn as [<-|[<-|[<-|[]]]]; split;
      (discriminate || reflexivity). }
  assert (Copy : c = "$"%char -> forall n buf pre chunk, (n <= List.length rd)%nat ->
                firstn n rd = pre ++ ["$"%char] ->
                c :: rd = chunk ++ fst (copyRunes n rd buf) -> shaped2 chunk).
  { intros Hd n buf pre chunk Hn Hf E. rewrite (copyRunes_ascii_firstn n rd _ Hrd Hn) in E.
    cbn [fst] in E. rewrite <- (firstn_skipn n rd) in E at 1.
    change (c :: firstn n rd ++ skipn n rd) with ((c :: firstn n rd) ++ skipn n rd) in E.
    apply app_inv_tail in E. right. right. exists pre.
    rewrite <- E, Hf, Hd. reflexivity. }
  assert (Q : tagOK (quoteAndBoundary st (byteN c) rd)
              /\ forall chunk, c :: rd = chunk ++ reader (quoteAndBoundary st (byteN c) rd)
                               -> shaped2 chunk).
  { rewrite quoteAndBoundary_reader. split; [|exact One].
    unfold quoteAndBoundary, tagOK in *.
    match goal with |- context [if ?b then mkState _ _ _ _ _ _ _ _ else _] =>
      destruct b end; exact HT. }
  destruct (inLineComment st); [split; [exact HT|exact One]|].
  destruct (inBlockComment st).
  { destruct ((byteN c =? rStar) && HasPrefix (Peek 1 rd) (str "/")) eqn:E;
      [|split; [exact HT|exact One]].
    apply andb_true_iff in E. destruct E as [_ E].
    apply HasPrefix_one in E. destruct E as [rd' E]. rewrite E.
    change (ReadRune ("/"%char :: rd')) with (Some (rSlash, rd')). cbv beta iota.
    split; [exact HT|]. intros chunk. cbn [reader]. rewrite <- E.
    apply (Two "/"%char rd'); [cbn; tauto|exact E]. }
  destruct (dollarTag st) as [|t0 tagTail] eqn:ET.
  2:{ destruct ((byteN c =? rDollar)
                && gostring_eqb (Peek (List.length (t0 :: tagTail) - 1) rd) tagTail) eqn:E.
      2:{ split; [|exact One]. unfold tagOK. cbn [dollarTag]. unfold tagOK in HT.
          now rewrite ET in HT. }
      apply andb_true_iff in E. destruct E as [E0 E]. apply gostring_eqb_eq in E.
      assert (Hn : (List.length (t0 :: tagTail) - 1 <= List.length rd)%nat).
      { cbn [List.length]. rewrite <- E at 1. unfold Peek. rewrite length_firstn. 
        cbn [List.length]. lia. }
      assert (exists pre, tagTail = pre ++ ["$"%char]) as [pre Hp].
      { destruct HT as [HT|(t1 & pre & HT)]; [congruence|]. rewrite ET in HT.
        inversion HT. eauto. }
      assert (Hd : c = "$"%char) by (apply N.eqb_eq in E0; now apply byteN_inj).
      pose proof (fun chunk => Copy Hd _ (sb st ++ [c]) pre chunk Hn) as C.
      unfold Peek in E. rewrite E in C. specialize (fun chunk => C chunk Hp).
      destruct (copyRunes (List.length (t0 :: tagTail) - 1) rd (sb st ++ [c])).
      split; [left; reflexivity|]. intros chunk. cbn [reader fst] in *. apply C. }
  assert (HT0 : forall s0 r0 b0 f1 f2 f3 f4, tagOK (mkState s0 r0 b0 f1 f2 f3 f4 [])).
  { intros. left. reflexivity. }
  destruct (negb (inSingle st) && negb (inDouble st)); [|exact Q].
  destruct ((byteN c =? rDash)
            && (gostring_eqb (Peek 2 rd) (str "- ") || gostring_eqb (Peek 2 rd) (str "--"))) eqn:ED.
  { apply andb_true_iff in ED. destruct ED as [_ ED].
    assert (exists rd', rd = "-"%char :: rd') as [rd' E].
    { apply orb_true_iff in ED. destruct ED as [G|G]; apply gostring_eqb_eq in G;
        destruct rd as [|x rd']; try discriminate; inversion G; eauto. }
    rewrite E. change (ReadRune ("-"%char :: rd')) with (Some (rDash, rd')).
    cbv beta iota. split; [apply HT0|]. intros chunk. cbn [reader]. rewrite <- E.
    apply (Two "-"%char rd'); [cbn; tauto|exact E]. }
  destruct ((byteN c =? rSlash) && HasPrefix (Peek 1 rd) (str "*")) eqn:ES.
  { apply andb_true_iff in ES. destruct ES as [_ ES].
    apply HasPrefix_one in ES. destruct ES as [rd' E]. rewrite E.
    change (ReadRune ("*"%char :: rd')) with (Some (rStar, rd')). cbv beta iota.
    split; [apply HT0|]. intros chunk. cbn [reader]. rewrite <- E.
    apply (Two "*"%char rd'); [cbn; tauto|exact E]. }
  destruct (byteN c =? rDollar) eqn:E0; [|exact Q].
  assert (Hd : c = "$"%char) by (apply N.eqb_eq in E0; now apply byteN_inj).
  destruct (findTag (runes (Peek 64 rd)) (str "$")) as [tag|] eqn:EF; [|exact Q].
  assert (HP : forallb isAscii (Peek 64 rd) = true) by (now apply forallb_firstn).
  destruct (findTag_dollar _ _ _ EF) as [pre0 Hpre0].
  rewrite (runes_all_ascii _ HP) in EF.
  destruct (findTag_ascii _ _ _ HP EF) as [k [Hk Etag]].
  assert (Hn : (List.length tag - 1 <= List.length rd)%nat).
  { rewrite Etag, length_app, length_firstn. unfold Peek in *. rewrite length_firstn in *.
    cbn [str list_ascii_of_string List.length]. lia. }
  assert (Hf : exists pre, firstn (List.length tag - 1) rd = pre ++ ["$"%char]).
  { assert (L : (List.length tag - 1 = List.length (firstn k (Peek 64 rd)))%nat).
    { rewrite Etag, length_app. cbn [str list_ascii_of_string List.length]. lia. }
    assert (F : firstn (List.length tag - 1) rd = firstn k (Peek 64 rd)).
    { rewrite L. clear - Hk. unfold Peek in *. rewrite length_firstn in Hk.
      rewrite firstn_firstn, length_firstn. f_equal. lia. }
    rewrite F. rewrite Etag in Hpre0. cbn [str list_ascii_of_string app] in Hpre0.
    destruct pre0 as [|p0 pre0']; cbn [app] in Hpre0; inversion Hpre0.
    - exfalso. rewrite Etag in EF.
      destruct (firstn k (Peek 64 rd)) eqn:EK; [|discriminate].
      clear - EF HP EK Hk. 
      assert (forall p acc, findTag (map byteN p) acc <> Some acc) as NE.
      { clear. intros p acc H. 
        assert (forall p acc t, findTag (map byteN p) acc = Some t ->
                                (List.length acc < List.length t)%nat) as G.
        { clear. induction p as [|x p IH]; intros acc t H; [discriminate|].
          cbn [map findTag] in H.
          assert (1 <= List.length (EncodeRune (byteN x)))%nat as L1.
          { pose proof (EncodeRune_nonempty (byteN x)).
            destruct (EncodeRune (byteN x)); [congruence|cbn; lia]. }
          destruct (byteN x =? rDollar).
          - inversion H. rewrite length_app. lia.
          - destruct ((byteN x =? rSpace) || (byteN x =? rNewline) || (byteN x =? rTab));
              [discriminate|].
            apply IH in H. rewrite length_app in H. lia. }
        apply G in H. lia. }
      apply (NE (Peek 64 rd) (str "$")). cbn [app] in EF. now rewrite app_nil_r in EF.
    - eauto. }
  destruct Hf as [pre Hf].
  pose proof (fun chunk => Copy Hd _ (sb st ++ [c]) pre chunk Hn Hf) as C.
  destruct (copyRunes (List.length tag - 1) rd (sb st ++ [c])).
  split; [|intros chunk; cbn [reader fst] in *; apply C].
  right. exists "$"%char, pre. cbn [dollarTag]. rewrite Etag.
  cbn [str list_ascii_of_string app]. f_equal.
  rewrite <- Hf. symmetry.
  assert (L : (List.length tag - 1 = List.length (firstn k (Peek 64 rd)))%nat).
  { rewrite Etag, length_app. cbn [str list_ascii_of_string List.length]. lia. }
  rewrite L. clear - Hk. unfold Peek in *. rewrite length_firstn in Hk.
  rewrite firstn_firstn, length_firstn. f_equal. lia.
Qed.

Lemma step_ascii_shape st st' :
  forallb isAscii (reader st) = true -> tagOK st -> step st = Some st' ->
  tagOK st' /\ forall chunk, reader st = chunk ++ reader st' -> shaped chunk.
Proof.
  intros HA HT ES. destruct (step_ascii_shape2 st st' HA HT ES) as [HT' HS].
  split; [exact HT'|]. intros chunk E.
  destruct (HS chunk E) as [[c ->]|[(c & x & -> & _ & Hx)|[pre ->]]].
  - left. eauto.
  - right. exists [c], x. auto.
  - right. exists ("$"%char :: pre), "$"%char. auto.
Qed.

Lemma sim_step A B w A' :
  forallb isAscii (reader A) = true -> mode A = mode B ->
  reader A = reader B ++ w -> reader B <> [] ->
  step A = Some A' ->
  (List.length (reader A) - List.length (reader A') <= List.length (reader B))%nat ->
  (exists B', step B = Some B' /\ mode A' = mode B' /\ reader A' = reader B' ++ w)
  \/ (reader B = str "--"
      /\ (exists w', w = " "%char :: w' \/ w = "-"%char :: w')
      /\ exists B' B'', step B = Some B' /\ step B' = Some B''
           /\ statements B' = statements B /\ sb B' = sb B ++ str "-"
           /\ reader B' = str "-"
           /\ statements B'' = statements B /\ sb B'' = sb B ++ str "--"
           /\ reader B'' = []).
Proof.
  destruct A as [sA rA bA s d l b tag], B as [sB rB bB s2 d2 l2 b2 tag2].
  cbn [reader]. intros HA HM ER HN HS HF.
  unfold mode in HM. cbn [inSingle inDouble inLineComment inBlockComment dollarTag] in HM.
  inversion HM; subst s2 d2 l2 b2 tag2. clear HM.
  destruct rB as [|c rd]; [congruence|]. clear HN. subst rA. cbn [app] in *.
  cbn [forallb] in HA. apply andb_true_iff in HA. destruct HA as [Hc HA].
  assert (Hrd : forallb isAscii rd = true) by (now apply forallb_app_l in HA).
  unfold step in HS |- *.
  cbn [reader inSingle inDouble inLineComment inBlockComment dollarTag statements sb]
    in HS |- *.
  rewrite (ReadRune_ascii c (rd ++ w) Hc) in HS. rewrite (ReadRune_ascii c rd Hc).
  rewrite !(WriteRune_ascii bA c Hc) in HS. rewrite !(WriteRune_ascii bB c Hc).
  assert (HS' := f_equal (fun o => match o with Some x => x | None => A' end) HS).
  cbv beta iota in HS'. subst A'. clear HS.
  destruct l.
  { left. eexists. split; [reflexivity|]. split; reflexivity. }
  destruct b.
  { destruct rd as [|x rd'].
    - change (HasPrefix (Peek 1 []) (str "/")) with false. rewrite andb_false_r.
      destruct ((byteN c =? rStar) && HasPrefix (Peek 1 ([] ++ w)) (str "/")) eqn:E.
      + exfalso. apply andb_true_iff in E. destruct E as [_ E].
        apply HasPrefix_one in E. destruct E as [w' E]. cbn [app] in E. subst w.
        cbn [app] in HF.
        change (ReadRune ("/"%char :: w')) with (Some (rSlash, w')) in HF.
        cbn [reader List.length] in HF. lia.
      + left. eexists. split; [reflexivity|]. split; reflexivity.
    - cbn [app]. change (Peek 1 (x :: rd' ++ w)) with (Peek 1 (x :: rd')).
      cbn [forallb] in Hrd. apply andb_true_iff in Hrd. destruct Hrd as [Hx _].
      rewrite !(ReadRune_ascii x _ Hx).
      destruct ((byteN c =? rStar) && HasPrefix (Peek 1 (x :: rd')) (str "/"));
        left; eexists; (split; [reflexivity|]); split; reflexivity. }
  destruct tag as [|t0 tagTail].
  2:{ assert (LT : (List.length (t0 :: tagTail) - 1 = List.length tagTail)%nat)
        by (cbn [List.length]; lia).
      rewrite !LT in HF |- *. clear LT.
      destruct (Nat.le_gt_cases (List.length tagTail) (List.length rd)) as [Hle|Hgt].
      - rewrite (Peek_app_le _ rd w Hle) in *.
        destruct ((byteN c =? rDollar)
                  && gostring_eqb (Peek (List.length tagTail) rd) tagTail).
        + rewrite (copyRunes_ascii_firstn _ (rd ++ w) (bA ++ [c]) HA)
            by (rewrite length_app; lia).
          rewrite (copyRunes_ascii_firstn _ rd (bB ++ [c]) Hrd Hle).
          left. eexists. split; [reflexivity|]. split; [reflexivity|].
          cbn [reader]. now apply skipn_app_le.
        + left. eexists. split; [reflexivity|]. split; reflexivity.
      - assert (EB : gostring_eqb (Peek (List.length tagTail) rd) tagTail = false).
        { destruct (gostring_eqb (Peek (List.length tagTail) rd) tagTail) eqn:E;
            [|reflexivity].
          apply gostring_eqb_eq in E. apply (f_equal (@List.length ascii)) in E.
          unfold Peek in E. rewrite length_firstn in E. lia. }
        rewrite EB, andb_false_r.
        destruct ((byteN c =? rDollar)
                  && gostring_eqb (Peek (List.length tagTail) (rd ++ w)) tagTail) eqn:E.
        + exfalso. apply andb_true_iff in E. destruct E as [_ E].
          apply gostring_eqb_eq in E. apply (f_equal (@List.length ascii)) in E.
          unfold Peek in E. rewrite length_firstn in E.
          rewrite (copyRunes_ascii_firstn _ (rd ++ w) (bA ++ [c]) HA) in HF by lia.
          cbn [reader fst] in HF. rewrite length_skipn in HF.
          change (List.length (c :: rd ++ w)) with (S (List.length (rd ++ w))) in HF.
          change (List.length (c :: rd)) with (S (List.length rd)) in HF.
          rewrite length_app in *. lia.
        + left. eexists. split; [reflexivity|]. split; reflexivity. }
  set (stA := mkState sA (c :: rd ++ w) bA s d false false []) in *.
  set (stB := mkState sB (c :: rd) bB s d false false []) in *.
  assert (Q : exists B', Some (quoteAndBoundary stB (byteN c) rd) = Some B'
              /\ mode (quoteAndBoundary stA (byteN c) (rd ++ w)) = mode B'
              /\ reader (quoteAndBoundary stA (byteN c) (rd ++ w)) = reader B' ++ w).
  { eexists. split; [reflexivity|]. split.
    - apply quoteAndBoundary_mode. reflexivity.
    - now rewrite !quoteAndBoundary_reader. }
  destruct (negb s && negb d) eqn:ESD; [|left; exact Q].
  apply andb_true_iff in ESD. destruct ESD as [Es Ed].
  apply negb_true_iff in Es, Ed. subst s d.
  (* the line comment *)
  destruct ((byteN c =? rDash)
            && (gostring_eqb (Peek 2 (rd ++ w)) (str "- ")
                || gostring_eqb (Peek 2 (rd ++ w)) (str "--"))) eqn:EA.
  { apply andb_true_iff in EA. destruct EA as [EC EA].
    destruct rd as [|x [|y rd']].
    - exfalso. cbn [app] in *.
      assert (exists w', w = "-"%char :: w') as [w' ->].
      { apply orb_true_iff in EA. destruct EA as [G|G]; apply gostring_eqb_eq in G;
          destruct w as [|x w']; try discriminate; inversion G; eauto. }
      change (ReadRune ("-"%char :: w')) with (Some (rDash, w')) in HF.
      cbn [reader List.length] in HF. lia.
    - right. cbn [app] in EA.
      assert (W : exists w', w = " "%char :: w' \/ w = "-"%char :: w').
      { apply orb_true_iff in EA. destruct EA as [G|G]; apply gostring_eqb_eq in G;
          destruct w as [|y w']; cbn in G; inversion G; eauto. }
      assert (x = "-"%char) as ->.
      { apply orb_true_iff in EA. destruct EA as [G|G]; apply gostring_eqb_eq in G;
          destruct w; cbn in G; inversion G; reflexivity. }
      apply N.eqb_eq in EC. apply (byteN_inj c "-"%char) in EC. subst c.
      split; [reflexivity|]. split; [exact W|]. subst stB. cbn.
      eexists. eexists. split; [reflexivity|]. split; [reflexivity|].
      repeat split; cbn; rewrite <- ?app_assoc; reflexivity.
    - cbn [app] in EA |- *.
      change (Peek 2 (x :: y :: rd' ++ w)) with (Peek 2 (x :: y :: rd')) in EA.
      rewrite EC, EA. cbn [andb].
      assert (x = "-"%char) as ->.
      { apply orb_true_iff in EA. destruct EA as [G|G]; apply gostring_eqb_eq in G;
          cbn in G; inversion G; reflexivity. }
      change (ReadRune ("-"%char :: y :: rd' ++ w))
        with (Some (rDash, y :: rd' ++ w)).
      change (ReadRune ("-"%char :: y :: rd')) with (Some (rDash, y :: rd')).
      left. eexists. split; [reflexivity|]. split; reflexivity. }
  assert (EB : (byteN c =? rDash)
               && (gostring_eqb (Peek 2 rd) (str "- ")
                   || gostring_eqb (Peek 2 rd) (str "--")) = false).
  { destruct ((byteN c =? rDash)
              && (gostring_eqb (Peek 2 rd) (str "- ")
                  || gostring_eqb (Peek 2 rd) (str "--"))) eqn:E; [|reflexivity].
    rewrite <- EA. apply andb_true_iff in E. destruct E as [-> E]. cbn [andb].
    assert (2 <= List.length rd)%nat.
    { apply orb_true_iff in E. destruct E as [G|G]; apply gostring_eqb_eq in G;
        apply (f_equal (@List.length ascii)) in G; unfold Peek in G;
        rewrite length_firstn in G; cbn [str list_ascii_of_string List.length] in G;
        lia. }
    now rewrite Peek_app_le. }
  rewrite EB. clear EA EB.
  (* the block comment *)
  destruct ((byteN c =? rSlash) && HasPrefix (Peek 1 (rd ++ w)) (str "*")) eqn:EA.
  { apply andb_true_iff in EA. destruct EA as [EC EA].
    destruct rd as [|x rd'].
    - exfalso. cbn [app] in *. apply HasPrefix_one in EA. destruct EA as [w' ->].
      change (ReadRune ("*"%char :: w')) with (Some (rStar, w')) in HF.
      cbn [reader List.length] in HF. lia.
    - cbn [app] in EA |- *.
      change (Peek 1 (x :: rd' ++ w)) with (Peek 1 (x :: rd')) in EA.
      rewrite EC, EA. cbn [andb].
      apply HasPrefix_one in EA. destruct EA as [rd'' EA]. inversion EA; subst x rd''.
      change (ReadRune ("*"%char :: rd' ++ w)) with (Some (rStar, rd' ++ w)).
      change (ReadRune ("*"%char :: rd')) with (Some (rStar, rd')).
      left. eexists. split; [reflexivity|]. split; reflexivity. }
  assert (EB : (byteN c =? rSlash) && HasPrefix (Peek 1 rd) (str "*") = false).
  { destruct ((byteN c =? rSlash) && HasPrefix (Peek 1 rd) (str "*")) eqn:E;
      [|reflexivity].
    rewrite <- EA. apply andb_true_iff in E. destruct E as [-> E]. cbn [andb].
    apply HasPrefix_one in E. destruct E as [rd' ->]. reflexivity. }
  rewrite EB. clear EA EB.
  (* the dollar tag *)
  destruct (byteN c =? rDollar); [|left; exact Q].
  assert (WA : forallb isAscii (Peek 64 (rd ++ w)) = true) by (now apply forallb_firstn).
  assert (WB : forallb isAscii (Peek 64 rd) = true) by (now apply forallb_firstn).
  rewrite (runes_all_ascii _ WA) in HF |- *. rewrite (runes_all_ascii _ WB).
  destruct (findTag (map byteN (Peek 64 (rd ++ w))) (str "$")) as [tag|] eqn:FA.
  - destruct (findTag_ascii _ _ _ WA FA) as [k [Hk Etag]].
    assert (LT : (List.length tag - 1 = Nat.min k 64)%nat).
    { rewrite Etag, length_app. unfold Peek in *. rewrite length_firstn in Hk.
      rewrite firstn_firstn, length_firstn.
      cbn [str list_ascii_of_string List.length]. lia. }
    assert (Hk2 : (Nat.min k 64 <= List.length (rd ++ w))%nat).
    { unfold Peek in Hk. rewrite length_firstn in Hk. lia. }
    rewrite LT in HF |- *.
    rewrite (copyRunes_ascii_firstn _ (rd ++ w) (bA ++ [c]) HA Hk2) in HF |- *.
    cbn [reader fst] in HF. rewrite length_skipn in HF.
    change (List.length (c :: rd ++ w)) with (S (List.length (rd ++ w))) in HF.
    change (List.length (c :: rd)) with (S (List.length rd)) in HF.
    assert (Hk3 : (Nat.min k 64 <= List.length rd)%nat) by lia.
    assert (FB : findTag (map byteN (Peek 64 rd)) (str "$") = Some tag).
    { apply (findTag_prefix (Peek 64 (rd ++ w)) (Peek 64 rd) (str "$") tag WA FA).
      change (List.length (str "$")) with 1%nat. rewrite LT. unfold Peek.
      rewrite !firstn_firstn. rewrite firstn_app.
      replace (Nat.min (Nat.min k 64) 64 - List.length rd)%nat with 0%nat by lia.
      cbn [firstn]. now rewrite app_nil_r. }
    rewrite FB, LT. rewrite (copyRunes_ascii_firstn _ rd (bB ++ [c]) Hrd Hk3).
    left. eexists. split; [reflexivity|]. split; [reflexivity|].
    cbn [reader]. now apply skipn_app_le.
  - destruct (findTag (map byteN (Peek 64 rd)) (str "$")) as [tag|] eqn:FB;
      [|left; exact Q].
    exfalso. destruct (findTag_ascii _ _ _ WB FB) as [k [Hk Etag]].
    assert (FA' : findTag (map byteN (Peek 64 (rd ++ w))) (str "$") = Some tag);
      [|congruence].
    apply (findTag_prefix (Peek 64 rd) (Peek 64 (rd ++ w)) (str "$") tag WB FB).
    change (List.length (str "$")) with 1%nat. unfold Peek in *.
    rewrite length_firstn in Hk.
    assert (LT : (List.length tag - 1 = Nat.min k 64)%nat).
    { rewrite Etag, length_app. rewrite firstn_firstn, length_firstn.
      cbn [str list_ascii_of_string List.length]. lia. }
    rewrite LT, !firstn_firstn, firstn_app.
    replace (Nat.min (Nat.min k 64) 64 - List.length rd)%nat with 0%nat by lia.
    cbn [firstn]. now rewrite app_nil_r.
Qed.

(** ** The loop *)

Lemma loop_exhausts fuel : forall st,
  (List.length (reader st) < fuel)%nat -> reader (loop fuel st) = [].
Proof.
  induction fuel as [|fuel IH]; intros st H; [lia|].
  cbn [loop]. destruct (step st) as [st'|] eqn:E.
  - apply IH. apply step_shorter in E. lia.
  - now apply step_none_iff.
Qed.

Lemma loop_fixed fuel : forall st, reader st = [] -> loop fuel st = st.
Proof.
  destruct fuel; intros st H; [reflexivity|].
  cbn [loop]. apply step_none_iff in H. now rewrite H.
Qed.

Lemma loop_add n : forall m st, loop (n + m) st = loop m (loop n st).
Proof.
  induction n as [|n IH]; intros m st; [reflexivity|].
  cbn [Nat.add loop]. destruct (step st) as [st'|] eqn:E.
  - apply IH.
  - symmetry. apply loop_fixed. now apply step_none_iff.
Qed.

(** With enough fuel the loop has read the whole input, and more fuel
    changes nothing. *)
Lemma loop_enough fuel st :
  (List.length (reader st) < fuel)%nat ->
  loop fuel st = loop (S (List.length (reader st))) st.
Proof.
  intros H. replace fuel with (S (List.length (reader st)) + (fuel - S (List.length (reader st))))%nat by lia.
  rewrite loop_add. apply loop_fixed. apply loop_exhausts. lia.
Qed.

Lemma scan_exhausts input : reader (scan input) = [].
Proof. unfold scan. apply loop_exhausts. cbn. lia. Qed.

Lemma step_flushed st st' :
  step st = Some st' ->
  Forall (fun s => s <> [] /\ exists b, s = TrimSpace b) (statements st) ->
  Forall (fun s => s <> [] /\ exists b, s = TrimSpace b) (statements st').
Proof.
  intros E H. destruct (step_effect st st' E) as [(_ & rest & _ & ->)|[-> _]].
  - cbn [boundary statements]. now apply emit_flushed.
  - exact H.
Qed.

Lemma loop_flushed fuel : forall st,
  Forall (fun s => s <> [] /\ exists b, s = TrimSpace b) (statements st) ->
  Forall (fun s => s <> [] /\ exists b, s = TrimSpace b) (statements (loop fuel st)).
Proof.
  induction fuel as [|fuel IH]; intros st H; [exact H|].
  cbn [loop]. destruct (step st) as [st'|] eqn:E; [|exact H].
  apply IH. now apply (step_flushed st).
Qed.

(** More fuel than the scan takes changes nothing. *)
Lemma loop_stable input n :
  (List.length input < n)%nat -> loop n (init input) = scan input.
Proof.
  intros H. unfold scan.
  replace n with (S (List.length input) + (n - S (List.length input)))%nat by lia.
  rewrite loop_add. apply loop_fixed. apply scan_exhausts.
Qed.

(** On an ASCII script the buffer at the end of the scan is the end of
    the script: all of it, or what follows one of its semicolons. *)
Lemma loop_buffer fuel : forall st,
  forallb isAscii (reader st) = true -> (List.length (reader st) < fuel)%nat ->
  sb (loop fuel st) = sb st ++ reader st
  \/ exists head, reader st = head ++ semicolon :: sb (loop fuel st).
Proof.
  induction fuel as [|fuel IH]; intros st HA Hl; [lia|].
  cbn [loop]. destruct (step st) as [st'|] eqn:E.
  - pose proof (step_shorter _ _ E) as Hs.
    destruct (step_ascii st st' HA E) as [(Hn & ER & Eb)|(ES & chunk & Hne & ER & EB)].
    + assert (HA' : forallb isAscii (reader st') = true).
      { rewrite ER in HA. cbn [forallb] in HA. apply andb_true_iff in HA. tauto. }
      assert (S2 : sb st' = []) by (now rewrite Eb).
      right. destruct (IH st' HA' ltac:(lia)) as [F|[head F]].
      * exists []. rewrite S2 in F. cbn [app] in F |- *. now rewrite ER, F.
      * exists (semicolon :: head). rewrite ER. cbn [app]. now rewrite <- F.
    + assert (HA' : forallb isAscii (reader st') = true).
      { rewrite ER, forallb_app in HA. apply andb_true_iff in HA. tauto. }
      destruct (IH st' HA' ltac:(lia)) as [F|[head F]].
      * left. now rewrite F, EB, ER, app_assoc.
      * right. exists (chunk ++ head). now rewrite ER, <- app_assoc, <- F.
  - apply step_none_iff in E. left. now rewrite E, app_nil_r.
Qed.

Lemma loop_plain fuel : forall st,
  normal st = true -> plainFuel fuel (reader st) = true ->
  (List.length (reader st) < fuel)%nat ->
  finish (loop fuel st) = statements st ++ stmtsFrom (sb st) (runes (reader st)).
Proof.
  induction fuel as [|fuel IH]; intros st Hn HP Hl; [lia|].
  cbn [loop]. destruct (step st) as [st'|] eqn:E.
  - pose proof (step_shorter _ _ E) as Hs.
    destruct (ReadRune (reader st)) as [[ch rd]|] eqn:ER.
    2:{ unfold step in E. rewrite ER in E. discriminate. }
    cbn [plainFuel] in HP. rewrite ER in HP.
    apply andb_true_iff in HP. destruct HP as [HC HP].
    rewrite (runes_ReadRune _ _ _ ER).
    rewrite (step_plain st ch rd Hn ER HC) in E. inversion E; subst st'; clear E.
    cbn [stmtsFrom]. destruct (ch =? rSemi).
    + rewrite IH; cbn [boundary reader statements sb] in *;
        [|reflexivity|exact HP|lia].
      rewrite emit_app, (emit_app [] (sb st)). cbn [app]. now rewrite <- app_assoc.
    + rewrite IH; cbn [appended reader statements sb] in *;
        [reflexivity| |exact HP|lia].
      unfold normal in *. exact Hn.
  - apply step_none_iff in E. rewrite E. unfold finish.
    change (runes []) with (@nil rune). cbn [stmtsFrom].
    rewrite emit_app, (emit_app [] (sb st)). reflexivity.
Qed.

Lemma encodeAll_snoc cur r : encodeAll (cur ++ [r]) = encodeAll cur ++ EncodeRune r.
Proof. unfold encodeAll. rewrite flat_map_app. cbn. now rewrite app_nil_r. Qed.

Lemma stmtsFrom_segments rs : forall cur,
  stmtsFrom (encodeAll cur) rs
  = map TrimSpace (filter (fun s => negb (blank s)) (map encodeAll (segments rs cur))).
Proof.
  induction rs as [|r rs IH]; intros cur; cbn [stmtsFrom segments].
  - cbn [map filter]. rewrite emit_blank. destruct (blank (encodeAll cur)); reflexivity.
  - destruct (r =? rSemi).
    + cbn [map filter]. rewrite emit_blank. change (@nil ascii) with (encodeAll []).
      rewrite IH. destruct (blank (encodeAll cur)); reflexivity.
    + rewrite <- encodeAll_snoc. apply IH.
Qed.

Lemma joinSemi_app chunk r0 rs : joinSemi (chunk ++ r0) rs = chunk ++ joinSemi r0 rs.
Proof. destruct rs; cbn [joinSemi]; [reflexivity|]. now rewrite <- app_assoc. Qed.

Lemma run_reader A x A' : run A x A' -> reader A = x ++ reader A'.
Proof.
  induction 1 as [|st st1 st2 chunk rest _ _ _ ER _ _ IH]; [reflexivity|].
  now rewrite ER, IH, app_assoc.
Qed.

Lemma run_effect A x A' :
  run A x A' -> statements A' = statements A /\ sb A' = sb A ++ x.
Proof.
  induction 1 as [|st st1 st2 chunk rest _ ES _ _ EB _ [IH1 IH2]].
  - now rewrite app_nil_r.
  - rewrite IH1, IH2, ES, EB. now rewrite app_assoc.
Qed.

Lemma run_loop B u Bend :
  run B u Bend -> reader Bend = [] ->
  forall fuel, (List.length (reader B) < fuel)%nat -> loop fuel B = Bend.
Proof.
  induction 1 as [|st st1 st2 chunk rest ES _ _ _ _ _ IH]; intros HE fuel Hl.
  - now apply loop_fixed.
  - destruct fuel as [|fuel]; [lia|]. cbn [loop]. rewrite ES.
    apply (IH HE). apply step_shorter in ES. lia.
Qed.

Lemma loop_ascii fuel : forall st,
  forallb isAscii (reader st) = true -> (List.length (reader st) < fuel)%nat ->
  exists r0 rs,
    reader st = joinSemi r0 rs
    /\ finish (loop fuel st)
       = statements st
         ++ map TrimSpace (filter (fun s => negb (blank s)) ((sb st ++ r0) :: rs))
    /\ (exists st1, run st r0 st1)
    /\ Forall regionOK rs.
Proof.
  induction fuel as [|fuel IH]; intros st HA Hl; [lia|].
  cbn [loop]. destruct (step st) as [st'|] eqn:E.
  - pose proof (step_shorter _ _ E) as Hs.
    destruct (step_ascii st st' HA E) as [(Hn & ER & Eb)|(ES & chunk & Hne & ER & EB)].
    + assert (HA' : forallb isAscii (reader st') = true).
      { rewrite ER in HA. cbn [forallb] in HA. apply andb_true_iff in HA. tauto. }
      destruct (IH st' HA' ltac:(lia)) as (r0 & rs & E1 & E2 & [st1 R1] & F).
      assert (S1 : statements st' = emit (statements st) (sb st)) by (now rewrite Eb).
      assert (S2 : sb st' = []) by (now rewrite Eb).
      assert (N' : normal st' = true) by (now rewrite Eb).
      exists [], (r0 :: rs). split; [|split; [|split]].
      * rewrite ER. cbn [joinSemi app]. now f_equal.
      * rewrite E2, S1, S2. cbn [app]. rewrite emit_split, app_nil_r, <- app_assoc.
        f_equal. apply emit_filter.
      * exists st. constructor.
      * constructor; [|exact F]. exists st', st1. auto.
    + assert (HA' : forallb isAscii (reader st') = true).
      { rewrite ER, forallb_app in HA. apply andb_true_iff in HA. tauto. }
      destruct (IH st' HA' ltac:(lia)) as (r0 & rs & E1 & E2 & [st1 R1] & F).
      exists (chunk ++ r0), rs. split; [|split; [|split]].
      * rewrite ER, E1. symmetry. apply joinSemi_app.
      * rewrite E2, ES, EB. now rewrite <- app_assoc.
      * exists st1. eapply run_step; eauto.
      * exact F.
  - apply step_none_iff in E. exists [], []. split; [exact E|]. split; [|split].
    + unfold finish. rewrite emit_split, app_nil_r. f_equal.
      rewrite <- emit_filter. cbn [filter map]. now rewrite app_nil_r.
    + exists st. constructor.
    + constructor.
Qed.

Lemma run_skip_lead lead : forall A x A',
  run A (lead ++ x) A' -> normal A = true ->
  forallb isAscii lead = true -> forallb isWs lead = true ->
  exists A1, run A1 x A' /\ normal A1 = true /\ reader A = lead ++ reader A1.
Proof.
  induction lead as [|c lead IH]; intros A x A' HR Hn HA HW.
  - exists A. auto.
  - cbn [forallb] in HA, HW. apply andb_true_iff in HA, HW.
    destruct HA as [Hc HA], HW as [Wc HW].
    pose proof (run_reader _ _ _ HR) as ER. cbn [app] in ER.
    pose proof (step_ws_normal A c _ Hn ER Hc Wc) as ES.
    remember ((c :: lead) ++ x) as y eqn:Ey.
    destruct HR as [|st st1 st2 chunk rest ES1 _ Hne ER1 _ HR1]; [discriminate|].
    rewrite ES in ES1. injection ES1 as <-. cbn [appended reader] in ER1.
    rewrite ER in ER1.
    change (c :: (lead ++ x) ++ reader st2) with ([c] ++ (lead ++ x) ++ reader st2) in ER1.
    apply app_inv_tail in ER1. subst chunk. cbn [app] in Ey. injection Ey as ->.
    destruct (IH _ _ _ HR1) as (A1 & R1 & N1 & E1); auto.
    exists A1. split; [exact R1|]. split; [exact N1|].
    rewrite ER. cbn [appended reader] in E1. cbn [app]. f_equal. exact E1.
Qed.

Lemma straddle pre x0 rest u trail :
  (pre ++ [x0]) ++ rest = u ++ trail -> forallb isWs trail = true ->
  isWs x0 = false -> (List.length (pre ++ [x0]) <= List.length u)%nat.
Proof.
  intros E HW Hx.
  destruct (Nat.le_gt_cases (List.length (pre ++ [x0])) (List.length u)) as [|Hgt];
    [assumption|exfalso].
  rewrite length_app in Hgt. cbn [List.length] in Hgt.
  apply (f_equal (skipn (List.length u))) in E.
  rewrite (skipn_app (List.length u) u trail), skipn_all, Nat.sub_diag in E.
  cbn [app skipn] in E.
  rewrite <- app_assoc, (skipn_app (List.length u) pre) in E.
  replace (List.length u - List.length pre)%nat with 0%nat in E by lia.
  cbn [skipn app] in E.
  assert (In x0 trail) as HI.
  { rewrite <- E. apply in_or_app. right. left. reflexivity. }
  rewrite forallb_forall in HW. specialize (HW _ HI). congruence.
Qed.

(** The scan of [u] on its own keeps step with a scan that passes over
    [u] followed by white space inside a longer script: it reaches the end
    of [u] without a boundary. *)
Lemma sim_run A x Aend :
  run A x Aend ->
  forall B u trail,
    x = u ++ trail -> forallb isWs trail = true ->
    forallb isAscii (reader A) = true -> tagOK A ->
    mode A = mode B -> reader B = u ->
    exists Bend, run B u Bend /\ reader Bend = [].
Proof.
  induction 1 as [A|A A1 Aend chunk rest ES EST Hne ER EB HR IH];
    intros B u trail Ex HW HA HT HM EU.
  - symmetry in Ex. apply app_eq_nil in Ex. destruct Ex as [-> _].
    exists B. split; [|exact EU]. rewrite <- (app_nil_r []) at 1. 
    cbn. constructor.
  - destruct u as [|c0 u0] eqn:Eu; [exists B; split; [constructor|exact EU]|].
    rewrite <- Eu in *.
    destruct (step_ascii_shape A A1 HA HT ES) as [HT1 HS].
    specialize (HS chunk ER).
    assert (Hlen : (List.length chunk <= List.length u)%nat).
    { destruct HS as [[c ->]|(pre & x0 & -> & Hx0)].
      - rewrite Eu. cbn. lia.
      - exact (straddle pre x0 rest u trail Ex HW Hx0). }
    assert (Echunk : u = chunk ++ skipn (List.length chunk) u).
    { rewrite <- (firstn_skipn (List.length chunk) u) at 1. f_equal.
      apply (f_equal (firstn (List.length chunk))) in Ex.
      rewrite firstn_app, firstn_all, Nat.sub_diag in Ex. cbn [firstn] in Ex.
      rewrite app_nil_r in Ex.
      transitivity (firstn (List.length chunk) (u ++ trail)); [|now symmetry].
      rewrite firstn_app.
      replace (List.length chunk - List.length u)%nat with 0%nat by lia.
      cbn [firstn]. now rewrite app_nil_r. }
    set (u' := skipn (List.length chunk) u) in *.
    assert (Erest : rest = u' ++ trail).
    { rewrite Echunk, <- app_assoc in Ex. now apply app_inv_head in Ex. }
    pose proof (run_reader _ _ _ HR) as ER1.
    set (w := trail ++ reader Aend).
    assert (EA : reader A = reader B ++ w).
    { rewrite ER, ER1, EU, Erest, Echunk. unfold w. now rewrite <- !app_assoc. }
    assert (EA1 : reader A1 = u' ++ w).
    { rewrite ER1, Erest. unfold w. now rewrite <- app_assoc. }
    assert (HA1 : forallb isAscii (reader A1) = true).
    { rewrite ER in HA. now apply forallb_app_r in HA. }
    assert (HB : forallb isAscii (reader B) = true).
    { rewrite EA in HA. now apply forallb_app_l in HA. }
    assert (HF : (List.length (reader A) - List.length (reader A1)
                  <= List.length (reader B))%nat).
    { rewrite ER, length_app, EU. lia. }
    assert (HN : reader B <> []) by (rewrite EU, Eu; discriminate).
    destruct (sim_step A B w A1 HA HM EA HN ES HF)
      as [(B' & ESB & HM' & ER')
         |(E2 & _ & B' & B'' & S1 & S2 & T1 & T2 & T3 & T4 & T5 & T6)].
    + assert (EB' : reader B' = u').
      { rewrite EA1 in ER'. now apply app_inv_tail in ER'. }
      destruct (step_ascii B B' HB ESB) as [(Hn & ERB & EBB)|(ESB2 & chunkB & HneB & ERB & EBB)].
      * exfalso. assert (NA : normal A = true).
        { apply normal_mode. rewrite HM. now apply normal_mode. }
        assert (RA : reader A = semicolon :: (reader B' ++ w)).
        { rewrite EA, ERB. reflexivity. }
        rewrite (step_semicolon_normal A _ RA NA) in ES. injection ES as <-.
        cbn [boundary sb] in EB. symmetry in EB. apply app_eq_nil in EB.
        destruct EB as [_ EB]. contradiction.
      * assert (chunkB = chunk).
        { rewrite EU, EB' in ERB. rewrite Echunk in ERB at 1.
          now apply app_inv_tail in ERB. }
        subst chunkB.
        destruct (IH B' u' trail Erest HW HA1 HT1 HM' EB') as (Bend & RB & EE).
        exists Bend. split; [|exact EE]. rewrite Echunk.
        eapply run_step; eauto.
    + exists B''. split; [|exact T6]. rewrite <- EU, E2.
      change (str "--") with (str "-" ++ (str "-" ++ [])).
      eapply run_step; [exact S1|exact T1|discriminate|now rewrite T3, E2|exact T2|].
      eapply run_step; [exact S2|now rewrite T4, T1|discriminate|now rewrite T3, T6| |constructor].
      rewrite T5, T2. now rewrite <- app_assoc.
Qed.

Lemma region_resplit r :
  regionOK r -> blank r = false ->
  splitSQLStatements (TrimSpace r) = [TrimSpace r].
Proof.
  intros (A & A' & Hn & HA & HR) Hb.
  pose proof (run_reader _ _ _ HR) as ER.
  assert (Hr : forallb isAscii r = true).
  { rewrite ER in HA. now apply forallb_app_l in HA. }
  destruct (TrimSpace_ascii r Hr) as (lead & trail & Er & Wl & Wt & Hs).
  set (s := TrimSpace r) in *.
  destruct Hs as [Hs|[Hhead Hlast]].
  { unfold blank in Hb. fold s in Hb. rewrite Hs in Hb. discriminate. }
  assert (Hlead : forallb isAscii lead = true).
  { rewrite Er in Hr. now apply forallb_app_l in Hr. }
  assert (Hs : forallb isAscii s = true).
  { rewrite Er in Hr. apply forallb_app_r in Hr. now apply forallb_app_l in Hr. }
  rewrite Er in HR.
  destruct (run_skip_lead lead A (s ++ trail) A' HR Hn Hlead Wl) as (A1 & HR1 & Hn1 & ER1).
  assert (HA1 : forallb isAscii (reader A1) = true).
  { rewrite ER1 in HA. now apply forallb_app_r in HA. }
  assert (HT1 : tagOK A1).
  { left. apply normal_mode in Hn1. unfold mode in Hn1. now inversion Hn1. }
  assert (HM : mode A1 = mode (init s)).
  { apply normal_mode in Hn1. rewrite Hn1. reflexivity. }
  destruct (sim_run A1 (s ++ trail) A' HR1 (init s) s trail eq_refl Wt HA1 HT1 HM eq_refl)
    as (Bend & HRB & HE).
  unfold splitSQLStatements, scan.
  rewrite (run_loop _ _ _ HRB HE) by (cbn [init reader]; lia).
  destruct (run_effect _ _ _ HRB) as [E1 E2]. cbn [init statements sb app] in E1, E2.
  unfold finish, emit. rewrite E1, E2, (TrimSpace_fixed s Hs Hhead Hlast).
  destruct Hhead as (c & rest & -> & _). reflexivity.
Qed.

(** ** The properties of the specification *)

(** The loop body in the scanner's own terms, the four flags and the
    open dollar tag: at a semicolon it flushes the buffer and does not
    append the semicolon when no flag is set and no tag is open, and in
    every other state it appends the semicolon and changes nothing else;
    no other iteration flushes, it only appends to the buffer; on an ASCII
    script what such an iteration appends is exactly the bytes it
    consumes, semicolons among them included.  Which text sets the flags
    is another matter, see below. *)
Theorem semicolon_boundary_iff_normal : forall st : state,
  (forall rest, reader st = semicolon :: rest -> normal st = true ->
     step st = Some (boundary st rest))
  /\ (forall rest, reader st = semicolon :: rest -> normal st = false ->
     step st = Some (appended st [semicolon] rest))
  /\ (forall st', step st = Some st' ->
       (normal st = true
        /\ exists rest, reader st = semicolon :: rest /\ st' = boundary st rest)
       \/ (statements st' = statements st
           /\ exists chunk, chunk <> [] /\ sb st' = sb st ++ chunk))
  /\ (forall st', forallb isAscii (reader st) = true -> step st = Some st' ->
       (normal st = true /\ reader st = semicolon :: reader st'
        /\ st' = boundary st (reader st'))
       \/ (statements st' = statements st
           /\ exists chunk, chunk <> [] /\ reader st = chunk ++ reader st'
                            /\ sb st' = sb st ++ chunk)).
Proof.
  intros st. split; [|split; [|split]].
  - intros rest. apply step_semicolon_normal.
  - intros rest. apply step_semicolon_suspended.
  - apply step_effect.
  - apply step_ascii.
Qed.

Lemma semicolon_boundary_iff_normal_witness :
  step (init (str "a;b")) <> None
  /\ step (mkState [] (str ";b") (str "a") false false false false [])
     = Some (mkState [str "a"] (str "b") [] false false false false [])
  /\ step (mkState [] (str ";b") (str "'a") true false false false [])
     = Some (mkState [] (str "b") (str "'a;") true false false false []).
Proof.
  split; [discriminate|]. split.
  - apply (proj1 (semicolon_boundary_iff_normal
             (mkState [] (str ";b") (str "a") false false false false [])));
      reflexivity.
  - apply (proj1 (proj2 (semicolon_boundary_iff_normal
             (mkState [] (str ";b") (str "'a") true false false false []))));
      reflexivity.
Defined.

(** C1 fails on the Go scanner. In [select 1 --x;y] the semicolon lies
    inside the line comment that [--] opens: the Java port of the scanner
    stands in its line-comment state there and keeps the semicolon in the
    one statement it returns.  The Go scanner has passed the two dashes as
    ordinary characters; when it reads the semicolon none of its flags is
    set, and it ends the statement at that semicolon.  In the other
    direction, the semicolon that follows the closing tag of a
    dollar-quoted literal is outside the literal and ends the statement in
    the Java port, while the Go scanner, when the tag has a letter of two
    bytes, consumes it with the closing tag and returns one statement. *)
Theorem semicolon_in_line_comment_splits :
  reader (loop 12 (init (str "select 1 --x;y"))) = str ";y"
  /\ mode (loop 12 (init (str "select 1 --x;y"))) = (false, false, false, false, [])
  /\ step (loop 12 (init (str "select 1 --x;y")))
     = Some (mkState [str "select 1 --x"] (str "y") [] false false false false [])
  /\ splitSQLStatements (str "select 1 --x;y") = [str "select 1 --x"; str "y"]
  /\ Java.reader (Java.loop 11 (Java.init (Java.jstr "select 1 --x;y")))
     = Java.jstr ";y"
  /\ Java.inLineComment (Java.loop 11 (Java.init (Java.jstr "select 1 --x;y")))
     = true
  /\ Java.splitSQLStatements (Java.jstr "select 1 --x;y")
     = [Java.jstr "select 1 --x;y"]
  /\ splitSQLStatements (queryE ++ str ";select 2")
     = [queryE ++ str ";select 2"]
  /\ Java.splitSQLStatements
       (Java.jstr "select " ++ [36; 233; 36; 120; 36; 233; 36] ++ Java.jstr ";select 2")
     = [Java.jstr "select " ++ [36; 233; 36; 120; 36; 233; 36]; Java.jstr "select 2"].
Proof. repeat split; vm_compute; reflexivity. Qed.

(** C2 fails on the Go scanner. In the Normal state, at [--] followed by
    a character other than a blank or a dash, the scanner appends one dash
    only and stays in the Normal state, and the semicolon that follows on
    the same line ends the statement: [select 1 --x;y] is split in two.
    The Java port opens the line comment there and returns one
    statement. *)
Theorem line_comment_marker_before_text :
  step (mkState [] (str "--x;y") (str "select 1 ") false false false false [])
  = Some (mkState [] (str "-x;y") (str "select 1 -") false false false false [])
  /\ splitSQLStatements (str "select 1 --x;y") = [str "select 1 --x"; str "y"]
  /\ Java.splitSQLStatements (Java.jstr "select 1 --x;y")
     = [Java.jstr "select 1 --x;y"].
Proof. repeat split; vm_compute; reflexivity. Qed.

(** C3. On the script of the test (with or without its final newline)
    the splitter returns exactly two statements: the first is the line
    comment followed by the [select] statement, the second the block
    comment followed by the [update] statement. *)
Theorem test_script_two_statements :
  splitSQLStatements testScript
  = [str "-- keep ; in comment" ++ newline :: str "select ';' as a";
     str "/* block ; comment */" ++ newline
       :: str "update users set name = 'x;y' where id = 1"]
  /\ splitSQLStatements testScriptNewline = splitSQLStatements testScript
  /\ List.length (splitSQLStatements testScript) = 2%nat
  /\ HasPrefix (nth 0 (splitSQLStatements testScript) [])
               (str "-- keep ; in comment" ++ newline :: str "select") = true
  /\ HasPrefix (nth 1 (splitSQLStatements testScript) [])
               (str "/* block ; comment */" ++ newline :: str "update") = true.
Proof. repeat split; vm_compute; reflexivity. Qed.

(** C4 fails on the Go scanner. The script that is a query ending with a
    dollar-quoted literal whose tag has a letter of two bytes, followed by
    a newline, yields the query as its one statement; split again on its
    own, that statement comes back with a NUL byte appended, because the
    scanner reads as many characters as the closing tag has bytes and so
    reads past the end.  The same happens for the bare tag followed by a
    blank.  The Java port, which counts characters on both sides, returns
    the statement unchanged. *)
Theorem resplit_changes_statement :
  splitSQLStatements (queryE ++ [newline]) = [queryE]
  /\ splitSQLStatements queryE = [queryE ++ [byteOf 0]]
  /\ splitSQLStatements queryE <> [queryE]
  /\ splitSQLStatements (tagE ++ str " ") = [tagE]
  /\ splitSQLStatements tagE = [tagE ++ [byteOf 0]]
  /\ Java.splitSQLStatements [36; 233; 36; 32] = [[36; 233; 36]]
  /\ Java.splitSQLStatements [36; 233; 36] = [[36; 233; 36]].
Proof.
  split; [vm_compute; reflexivity|]. split; [vm_compute; reflexivity|].
  split; [|repeat split; vm_compute; reflexivity].
  intros H. vm_compute in H. discriminate.
Qed.

(** X6. On an ASCII script splitting is idempotent, as C4 has it: every
    statement of the script, split on its own, comes back as that one
    statement. *)
Theorem ascii_resplit : forall input s : gostring,
  forallb isAscii input = true ->
  In s (splitSQLStatements input) ->
  splitSQLStatements s = [s].
Proof.
  intros input s HA HI.
  destruct (loop_ascii (S (List.length input)) (init input) HA)
    as (r0 & rs & E1 & E2 & [st1 R0] & F); [cbn [init reader]; lia|].
  unfold splitSQLStatements, scan in HI. rewrite E2 in HI.
  cbn [init statements sb app] in HI.
  apply in_map_iff in HI. destruct HI as (r & <- & HI).
  apply filter_In in HI. destruct HI as [HI Hb]. apply negb_true_iff in Hb.
  apply region_resplit; [|exact Hb].
  destruct HI as [<-|HI].
  - exists (init input), st1. auto.
  - rewrite Forall_forall in F. now apply F.
Qed.

(** C5, as the code has it. Inside a dollar-quoted body opened by [tag]
    every character other than a dollar sign is appended and the state
    stays.  At a dollar sign the scanner looks at the next [len(tag)-1]
    bytes: when they equal [tag] without its first dollar sign (the name
    and the closing dollar sign) it appends the dollar sign and returns to
    the Normal state, and for a tag of ASCII characters it has then
    consumed and appended exactly the [len(tag)-1] characters that remain
    of the closing tag; otherwise it appends the dollar sign alone,
    consumes nothing more and stays in the dollar-quoted body. *)
Theorem dollar_quoted_close_rule : forall (st : state) (tag : gostring),
  dollarQuoted st tag ->
  (forall ch rd, ReadRune (reader st) = Some (ch, rd) -> ch <> rDollar ->
     step st = Some (appended st (EncodeRune ch) rd))
  /\ (forall rd, reader st = "$"%char :: rd ->
       Peek (List.length tag - 1) rd = tl tag ->
       (exists st', step st = Some st' /\ normal st' = true
                    /\ statements st' = statements st
                    /\ exists more, sb st' = sb st ++ str "$" ++ more)
       /\ (forallb isAscii (tl tag) = true ->
           step st = Some (mkState (statements st)
                             (skipn (List.length tag - 1) rd)
                             (sb st ++ str "$" ++ tl tag)
                             false false false false [])))
  /\ (forall rd, reader st = "$"%char :: rd ->
       Peek (List.length tag - 1) rd <> tl tag ->
       step st = Some (appended st (str "$") rd)).
Proof.
  intros st tag HQ. split; [|split].
  - intros ch rd. now apply step_dollar_other with (tag := tag).
  - intros rd ER HP. pose proof (step_dollar_close st tag rd HQ ER HP) as E.
    split.
    + eexists. split; [exact E|]. split; [reflexivity|]. split; [reflexivity|].
      cbn [sb]. destruct (copyRunes_extends (List.length tag - 1) rd (sb st ++ str "$"))
        as [more Em].
      exists more. rewrite Em. now rewrite <- app_assoc.
    + intros HA. rewrite E.
      assert (L : (List.length tag - 1 = List.length (tl tag))%nat).
      { destruct tag; cbn [tl List.length]; lia. }
      assert (R : rd = tl tag ++ skipn (List.length tag - 1) rd).
      { unfold Peek in HP. rewrite <- HP at 1. symmetry. apply firstn_skipn. }
      set (rest := skipn (List.length tag - 1) rd) in *. clearbody rest.
      rewrite R, L, (copyRunes_ascii (tl tag) _ _ HA). cbn [fst snd].
      now rewrite <- app_assoc.
  - intros rd. now apply step_dollar_stay.
Qed.

Lemma dollar_quoted_close_rule_witness :
  step (mkState [] (str "$a$;x") (str "$a$ b ") false false false false (str "$a$"))
  = Some (mkState [] (str ";x") (str "$a$ b $a$") false false false false []).
Proof.
  refine (proj2 (proj1 (proj2 (dollar_quoted_close_rule
            (mkState [] (str "$a$;x") (str "$a$ b ") false false false false (str "$a$"))
            (str "$a$") _)) (str "a$;x") _ _) _).
  - unfold dollarQuoted. cbn. repeat split; discriminate.
  - reflexivity.
  - reflexivity.
  - reflexivity.
Defined.

(** C5 in the words of the specification fails: with the tag [$a$] open
    and the input [$ab] ahead, the [len(tag)-2] characters after the dollar
    sign equal the tag stripped of its dollar signs, yet the scanner stays
    in the dollar-quoted body and consumes only the dollar sign. *)
Lemma dollar_close_by_name_only_fails :
  ~ (forall (st : state) (tag : gostring) (rd : Reader),
       dollarQuoted st tag -> reader st = "$"%char :: rd ->
       closesBySpec tag rd = true ->
       exists st', step st = Some st' /\ normal st' = true).
Proof.
  intros H.
  destruct (H (mkState [] (str "$ab") [] false false false false (str "$a$"))
              (str "$a$") (str "ab")) as [st' [E N]].
  - unfold dollarQuoted. cbn. repeat split; discriminate.
  - reflexivity.
  - reflexivity.
  - vm_compute in E. inversion E; subst. vm_compute in N. discriminate.
Qed.

(** C6. No input makes the splitter fail: the loop ends for every input,
    at the end of the input only and in whatever state the scanner is
    then, and the result is the statements found so far followed by the
    trimmed buffer when that is not empty.  Trimmed means that every
    statement returned, the last one included, is not empty and begins
    and ends with a character that is not white space.  On an ASCII script
    the buffer flushed at the end is the end of the script (all of it, or
    what follows one of its semicolons), and trimming takes white space
    from its two ends and nothing else.  On [select 1; /* never closed]
    the scan ends inside the block comment and the result is the two
    statements [select 1] and [/* never closed]; the same holds with white
    space after the open construct, and for an open quote, an open line
    comment and an open dollar-quoted body with a semicolon inside. *)
Theorem unbalanced_input_is_flushed :
  (forall input : gostring,
     reader (scan input) = [] /\ step (scan input) = None
     /\ (forall n, (List.length input < n)%nat -> loop n (init input) = scan input)
     /\ splitSQLStatements input
        = statements (scan input)
          ++ match TrimSpace (sb (scan input)) with [] => [] | s => [s] end
     /\ (forall s, In s (splitSQLStatements input) ->
           s <> [] /\ IsSpace (fst (DecodeRune s)) = false
           /\ IsSpace (fst (DecodeLastRune s)) = false)
     /\ (forallb isAscii input = true ->
           (sb (scan input) = input
            \/ exists head, input = head ++ semicolon :: sb (scan input))
           /\ exists lead trail,
                sb (scan input) = lead ++ TrimSpace (sb (scan input)) ++ trail
                /\ forallb isWs lead = true /\ forallb isWs trail = true))
  /\ inBlockComment (scan (str "select 1; /* never closed")) = true
  /\ splitSQLStatements (str "select 1; /* never closed")
     = [str "select 1"; str "/* never closed"]
  /\ inBlockComment (scan (str "select 1;  /* never ; closed " ++ [newline])) = true
  /\ splitSQLStatements (str "select 1;  /* never ; closed " ++ [newline])
     = [str "select 1"; str "/* never ; closed"]
  /\ inSingle (scan (str "select 1; select 'a;b  ")) = true
  /\ splitSQLStatements (str "select 1; select 'a;b  ")
     = [str "select 1"; str "select 'a;b"]
  /\ inDouble (scan (str "select 1; select " ++ byteOf 34 :: str "a;b" ++ [newline]))
     = true
  /\ splitSQLStatements (str "select 1; select " ++ byteOf 34 :: str "a;b" ++ [newline])
     = [str "select 1"; str "select " ++ byteOf 34 :: str "a;b"]
  /\ inLineComment (scan (str "select 1; -- c;d  ")) = true
  /\ splitSQLStatements (str "select 1; -- c;d  ")
     = [str "select 1"; str "-- c;d"]
  /\ dollarTag (scan (str "select 1; $f$ a;b  ")) = str "$f$"
  /\ splitSQLStatements (str "select 1; $f$ a;b  ")
     = [str "select 1"; str "$f$ a;b"].
Proof.
  split; [|repeat split; vm_compute; reflexivity].
  intros input. pose proof (scan_exhausts input) as H.
  split; [exact H|]. split; [now apply step_none_iff|].
  split; [intros n; apply loop_stable|].
  split; [unfold splitSQLStatements, finish; apply emit_app|]. split.
  - intros s HI.
    assert (F : Forall (fun s => s <> [] /\ exists b, s = TrimSpace b)
                       (splitSQLStatements input)).
    { unfold splitSQLStatements, finish. apply emit_flushed.
      unfold scan. apply loop_flushed. constructor. }
    rewrite Forall_forall in F. destruct (F s HI) as (Hne & b & ->).
    split; [exact Hne|]. destruct (TrimSpace_trimmed b) as [E|E]; [contradiction|exact E].
  - intros HA. split.
    + destruct (loop_buffer (S (List.length input)) (init input) HA) as [E|E];
        cbn [init reader sb] in *; [lia|now left|now right].
    + assert (HB : forallb isAscii (sb (scan input)) = true).
      { destruct (loop_buffer (S (List.length input)) (init input) HA) as [E|[head E]];
          cbn [init reader sb app] in *; [lia| |].
        - fold (scan input) in E. now rewrite E.
        - fold (scan input) in E. rewrite E in HA.
          apply forallb_app_r in HA. cbn [forallb] in HA.
          apply andb_true_iff in HA. tauto. }
      destruct (TrimSpace_ascii _ HB) as (lead & trail & E & Wl & Wt & _).
      exists lead, trail. auto.
Qed.

Lemma unbalanced_input_is_flushed_witness :
  sb (scan (str "select 1; ' open;  ")) = str " ' open;  "
  /\ splitSQLStatements (str "select 1; ' open;  ") = [str "select 1"; str "' open;"].
Proof.
  destruct (proj1 unbalanced_input_is_flushed (str "select 1; ' open;  "))
    as (_ & _ & _ & E & _ & A).
  destruct (A eq_refl) as [_ _].
  split; [vm_compute; reflexivity|]. rewrite E. vm_compute. reflexivity.
Defined.

(** C7, as the code has it. For a script with no quote, no [--] or [/*]
    and no dollar sign that opens a dollar tag, the statements are the
    segments between semicolons, trimmed, with the blank ones left out; so
    their number is the number of segments that are not blank.  A dollar
    sign that opens no tag is a character like any other.  For an ASCII
    script the characters met are the bytes of the script. *)
Theorem plain_script_statement_count : forall input : gostring,
  plainScript input = true ->
  splitSQLStatements input = trimmedSegments (runes input)
  /\ List.length (splitSQLStatements input) = nonBlankSegments (runes input)
  /\ (forallb isAscii input = true -> runes input = map byteN input).
Proof.
  intros input HP.
  assert (E : splitSQLStatements input = trimmedSegments (runes input)).
  { unfold splitSQLStatements, scan. rewrite loop_plain; cbn [init reader statements sb];
      [|reflexivity|exact HP|lia].
    cbn [app]. change (@nil ascii) with (encodeAll []). apply stmtsFrom_segments. }
  split; [exact E|]. split; [|apply runes_all_ascii].
  rewrite E. unfold trimmedSegments, nonBlankSegments. apply length_map.
Qed.

Lemma plain_script_statement_count_witness :
  splitSQLStatements (str " select * from v$session ; ;select 2 - 1; ")
  = [str "select * from v$session"; str "select 2 - 1"]
  /\ nonBlankSegments (runes (str " select * from v$session ; ;select 2 - 1; ")) = 2%nat.
Proof.
  destruct (plain_script_statement_count
              (str " select * from v$session ; ;select 2 - 1; ") eq_refl)
    as (E & L & _).
  split.
  - rewrite E. vm_compute. reflexivity.
  - rewrite <- L, E. vm_compute. reflexivity.
Defined.

(** C7 in the words of the specification fails: the script [a;b] has one
    semicolon followed by content and yields two statements, and the
    script [a] has no semicolon and yields one. *)
Lemma semicolon_count_is_not_statement_count :
  ~ (forall input : gostring,
       plainScript input = true ->
       List.length (splitSQLStatements input) = semicolonsBeforeContent input)
  /\ ~ (forall input : gostring,
          plainScript input = true ->
          List.length (splitSQLStatements input) = semicolonsBeforeSegment input)
  /\ List.length (splitSQLStatements (str "a;b")) = 2%nat
  /\ semicolonsBeforeContent (str "a;b") = 1%nat
  /\ semicolonsBeforeSegment (str "a;b") = 1%nat.
Proof.
  split; [|split; [|repeat split; vm_compute; reflexivity]];
    intros H; specialize (H (str "a;b") eq_refl); vm_compute in H; discriminate.
Qed.

(** C10 fails on the Go scanner. On the script that is a query ending
    with a dollar-quoted literal whose tag has a letter of two bytes, the
    one statement returned ends with a NUL byte that the script does not
    contain: it is already trimmed, it is longer than the script and it is
    not a run of bytes of the script.  The same happens for the bare
    tag. *)
Theorem statement_not_in_script :
  splitSQLStatements queryE = [queryE ++ [byteOf 0]]
  /\ TrimSpace (queryE ++ [byteOf 0]) = queryE ++ [byteOf 0]
  /\ isSubstring (queryE ++ [byteOf 0]) queryE = false
  /\ ~ In (byteOf 0) queryE
  /\ splitSQLStatements tagE = [tagE ++ [byteOf 0]]
  /\ isSubstring (tagE ++ [byteOf 0]) tagE = false.
Proof.
  split; [vm_compute; reflexivity|]. split; [vm_compute; reflexivity|].
  split; [vm_compute; reflexivity|].
  split; [|split; vm_compute; reflexivity].
  cbn. intros H.
  repeat (destruct H as [H|H]; [discriminate|]). exact H.
Qed.

(** X7. On an ASCII script the statements are pieces of the script, as
    C10 has it: the script is a sequence of regions separated by the
    boundary semicolons, and the statements are, in order, the regions
    that are not blank, each trimmed and so a slice of its region. *)
Theorem ascii_statements_are_regions : forall input : gostring,
  forallb isAscii input = true ->
  exists r0 rs,
    input = joinSemi r0 rs
    /\ splitSQLStatements input
       = map TrimSpace (filter (fun s => negb (blank s)) (r0 :: rs))
    /\ forall r, In r (r0 :: rs) -> exists a b, r = a ++ TrimSpace r ++ b.
Proof.
  intros input HA.
  destruct (loop_ascii (S (List.length input)) (init input) HA)
    as (r0 & rs & E1 & E2 & _); [cbn [init reader]; lia|].
  exists r0, rs. split; [exact E1|]. split; [exact E2|].
  intros r _. apply TrimSpace_slice.
Qed.

End GoFacts.

(** * Facts about the configuration check *)
Module ConfigFacts.

Import Utf8 Config.

Section WithCaseTable.

Variable lower : rune -> rune.

#[local] Abbreviation ToLower := (Config.ToLower lower).
#[local] Abbreviation validate := (Config.validate lower).
#[local] Abbreviation defaultPort := (Config.defaultPort lower).
#[local] Abbreviation supported := (Config.supported lower).

Lemma isEmpty_true (s : gostring) : isEmpty s = true <-> s = [].
Proof. destruct s; cbn; split; congruence. Qed.

Lemma isEmpty_false (s : gostring) : isEmpty s = false <-> s <> [].
Proof. destruct s; cbn; split; congruence. Qed.

Lemma supported_iff e :
  supported e = true <->
  ToLower e = str "oracle" \/ ToLower e = str "sqlserver" \/ ToLower e = str "postgres".
Proof.
  unfold Config.supported. rewrite !orb_true_iff, !GoFacts.gostring_eqb_eq. tauto.
Qed.

Lemma defaultPort_cases e :
  (ToLower e = str "oracle" -> defaultPort e = 1521%Z)
  /\ (ToLower e = str "sqlserver" -> defaultPort e = 1433%Z)
  /\ (ToLower e = str "postgres" -> defaultPort e = 5432%Z).
Proof.
  unfold Config.defaultPort. repeat split; intros ->; reflexivity.
Qed.

(** On an ASCII name [strings.ToLower] lowers each letter. *)
Lemma ToLower_ascii e :
  forallb (fun c => byteN c <? RuneSelf) e = true -> ToLower e = map lowerByte e.
Proof.
  intros H. unfold Config.ToLower. rewrite H.
  destruct (existsb isUpper e) eqn:E; [reflexivity|].
  clear H. induction e as [|c e IH]; [reflexivity|].
  cbn [existsb] in E. apply orb_false_iff in E. destruct E as [Ec Ee].
  cbn [map]. rewrite <- (IH Ee). unfold lowerByte. now rewrite Ec.
Qed.

Lemma validate_complete c :
  complete c ->
  validate c =
  if supported (engine c)
  then (None, if (port c =? 0)%Z then setPort c (defaultPort (engine c)) else c)
  else (Some (str "unsupported engine: " ++ engine c)%list, c).
Proof.
  intros (He & Hh & Hd & Hs). unfold Config.validate.
  apply isEmpty_false in He, Hh, Hd, Hs. rewrite He, Hh, Hd, Hs.
  destruct (Config.supported lower (engine c)); cbn [negb]; [|reflexivity].
  destruct (port c =? 0)%Z; reflexivity.
Qed.

Lemma validate_missing c :
  (engine c = [] -> validate c = (Some (str "engine is required"), c))
  /\ (engine c <> [] -> host c = [] ->
      validate c = (Some (str "host is required"), c))
  /\ (engine c <> [] -> host c <> [] -> dbname c = [] ->
      validate c = (Some (str "dbname is required"), c))
  /\ (engine c <> [] -> host c <> [] -> dbname c <> [] -> sqlPath c = [] ->
      validate c = (Some (str "sql path is required"), c)).
Proof.
  unfold Config.validate. repeat split; intros;
    repeat match goal with
    | H : _ = [] |- _ => apply isEmpty_true in H; rewrite H
    | H : _ <> [] |- _ => apply isEmpty_false in H; rewrite H
    end; reflexivity.
Qed.

Lemma mainStart_cases f :
  (exists msg, fst (validate (parseFlags f)) = Some msg
     /\ mainStart lower f = [Stderr msg; Exit 1%Z])
  \/ (fst (validate (parseFlags f)) = None
      /\ mainStart lower f = [ReadFile (orDefault (f_sql f) [])]).
Proof.
  unfold mainStart.
  destruct (Config.validate lower (parseFlags f)) as [[msg|] cfg] eqn:E; cbn [fst].
  - left. eauto.
  - right. split; [reflexivity|].
    assert (sqlPath cfg = sqlPath (parseFlags f)) as ->; [|reflexivity].
    revert E. unfold Config.validate.
    repeat match goal with |- context [if ?b then _ else _] => destruct b end;
      intros E; inversion E; reflexivity.
Qed.

(** C9. [validate], which [main] calls before it reads the script or
    opens a connection, rejects a configuration without engine, host,
    dbname or sql path, and one whose engine, lowered by
    [strings.ToLower] (letter by letter on an ASCII name), is none of
    [oracle], [sqlserver] and [postgres]; otherwise it succeeds and a port
    of zero becomes the default port of the engine, 1521, 1433 or 5432.
    The flags default the username to [db_admin] and the port to zero,
    and a rejected configuration ends [main] with the message and exit
    code 1, with no file read. *)
Theorem validate_rejects_then_defaults :
  (forall c : config,
     (engine c = [] -> validate c = (Some (str "engine is required"), c))
     /\ (engine c <> [] -> host c = [] ->
         validate c = (Some (str "host is required"), c))
     /\ (engine c <> [] -> host c <> [] -> dbname c = [] ->
         validate c = (Some (str "dbname is required"), c))
     /\ (engine c <> [] -> host c <> [] -> dbname c <> [] -> sqlPath c = [] ->
         validate c = (Some (str "sql path is required"), c)))
  /\ (forall c : config, complete c ->
       validate c =
       if supported (engine c)
       then (None, if (port c =? 0)%Z then setPort c (defaultPort (engine c)) else c)
       else (Some (str "unsupported engine: " ++ engine c)%list, c))
  /\ (forall e : gostring,
       (supported e = true <->
        ToLower e = str "oracle" \/ ToLower e = str "sqlserver"
        \/ ToLower e = str "postgres")
       /\ (forallb (fun c => byteN c <? RuneSelf) e = true ->
           ToLower e = map lowerByte e)
       /\ (ToLower e = str "oracle" -> defaultPort e = 1521%Z)
       /\ (ToLower e = str "sqlserver" -> defaultPort e = 1433%Z)
       /\ (ToLower e = str "postgres" -> defaultPort e = 5432%Z))
  /\ (forall f : flags,
       username (parseFlags f) = orDefault (f_username f) (str "db_admin")
       /\ port (parseFlags f) = orDefault (f_port f) 0%Z
       /\ ((exists msg, fst (validate (parseFlags f)) = Some msg
                /\ mainStart lower f = [Stderr msg; Exit 1%Z])
           \/ (fst (validate (parseFlags f)) = None
               /\ mainStart lower f = [ReadFile (orDefault (f_sql f) [])]))).
Proof.
  split; [exact validate_missing|]. split; [exact validate_complete|].
  split.
  - intros e. split; [apply supported_iff|]. split; [apply ToLower_ascii|].
    apply defaultPort_cases.
  - intros f. split; [reflexivity|]. split; [reflexivity|]. apply mainStart_cases.
Qed.

End WithCaseTable.

Lemma validate_rejects_then_defaults_witness :
  validate (fun r => r) (parseFlags exampleFlags)
  = (None, mkConfig (str "Postgres") (str "127.0.0.1") 5432%Z (str "db_admin") []
                    (str "app") (str "a.sql"))
  /\ validate (fun r => r) (mkConfig (str "mysql") (str "h") 0%Z [] [] (str "d") (str "s"))
     = (Some (str "unsupported engine: mysql"),
        mkConfig (str "mysql") (str "h") 0%Z [] [] (str "d") (str "s"))
  /\ validate (fun r => r) (mkConfig (str "oracle") [] 0%Z [] [] (str "d") (str "s"))
     = (Some (str "host is required"),
        mkConfig (str "oracle") [] 0%Z [] [] (str "d") (str "s")).
Proof.
  split; [|split].
  - rewrite (proj1 (proj2 (validate_rejects_then_defaults (fun r => r)))).
    + reflexivity.
    + unfold complete. cbn. repeat split; discriminate.
  - rewrite (proj1 (proj2 (validate_rejects_then_defaults (fun r => r)))).
    + reflexivity.
    + unfold complete. cbn. repeat split; discriminate.
  - apply (proj1 (validate_rejects_then_defaults (fun r => r))).
    + discriminate.
    + reflexivity.
Defined.

End ConfigFacts.

(** * Further facts about the Go splitter *)
Module GoMoreFacts.

Import Utf8 Strings Go GoSpec GoFacts GoMore.

(** ** What every result of the splitter satisfies *)

Lemma emit_nonempty stmts buf :
  Forall (fun s => s <> []) stmts -> Forall (fun s => s <> []) (emit stmts buf).
Proof.
  intros H. unfold emit. destruct (TrimSpace buf) eqn:E; [exact H|].
  apply Forall_app. split; [exact H|]. constructor; [discriminate|constructor].
Qed.

Lemma step_nonempty st st' :
  step st = Some st' -> Forall (fun s => s <> []) (statements st) ->
  Forall (fun s => s <> []) (statements st').
Proof.
  intros E H. destruct (step_effect st st' E) as [(_ & rest & _ & ->)|[-> _]].
  - cbn [boundary statements]. now apply emit_nonempty.
  - exact H.
Qed.

Lemma loop_nonempty fuel : forall st,
  Forall (fun s => s <> []) (statements st) ->
  Forall (fun s => s <> []) (statements (loop fuel st)).
Proof.
  induction fuel as [|fuel IH]; intros st H; [exact H|].
  cbn [loop]. destruct (step st) as [st'|] eqn:E; [|exact H].
  apply IH. now apply (step_nonempty st).
Qed.

Lemma joinSemi_ascii rs : forall r0,
  forallb isAscii (joinSemi r0 rs) = true ->
  Forall (fun r => forallb isAscii r = true) (r0 :: rs).
Proof.
  induction rs as [|r rs IH]; intros r0 H; cbn [joinSemi] in H.
  - constructor; [exact H|constructor].
  - rewrite forallb_app in H. apply andb_true_iff in H. destruct H as [H0 H].
    cbn [forallb] in H. apply andb_true_iff in H. destruct H as [_ H].
    constructor; [exact H0|]. now apply IH.
Qed.

Lemma ascii_statement_trimmed input s :
  forallb isAscii input = true ->
  In s (splitSQLStatements input) ->
  TrimSpace s = s
  /\ (exists c rest, s = c :: rest /\ isWs c = false)
  /\ (exists pre c, s = pre ++ [c] /\ isWs c = false).
Proof.
  intros HA HI.
  destruct (loop_ascii (S (List.length input)) (init input) HA)
    as (r0 & rs & E1 & E2 & _); [cbn [init reader]; lia|].
  cbn [init reader statements sb app] in E1, E2.
  unfold splitSQLStatements, scan in HI. rewrite E2 in HI. apply in_map_iff in HI. destruct HI as (r & <- & HI).
  apply filter_In in HI. destruct HI as [HI Hb]. apply negb_true_iff in Hb.
  rewrite E1 in HA. apply joinSemi_ascii in HA. rewrite Forall_forall in HA.
  specialize (HA r HI).
  destruct (TrimSpace_ascii r HA) as (lead & trail & Er & _ & _ & [Hs|[Hh Hl]]).
  { unfold blank in Hb. rewrite Hs in Hb. discriminate. }
  split; [|split; assumption].
  apply TrimSpace_fixed; try assumption.
  rewrite Er in HA. apply forallb_app_r in HA. now apply forallb_app_l in HA.
Qed.

(** X1. No statement the splitter returns is empty, whatever the input;
    on an ASCII script every statement is trimmed: it begins and ends with
    a byte that is not white space and [TrimSpace] leaves it as it is. *)
Theorem statements_nonempty_and_trimmed : forall input s : gostring,
  In s (splitSQLStatements input) ->
  s <> []
  /\ (forallb isAscii input = true ->
      TrimSpace s = s
      /\ (exists c rest, s = c :: rest /\ isWs c = false)
      /\ (exists pre c, s = pre ++ [c] /\ isWs c = false)).
Proof.
  intros input s HI. split.
  - unfold splitSQLStatements, finish in HI.
    assert (F : Forall (fun s => s <> []) (emit (statements (scan input)) (sb (scan input)))).
    { apply emit_nonempty. unfold scan. apply loop_nonempty. constructor. }
    rewrite Forall_forall in F. now apply F.
  - intros HA. now apply (ascii_statement_trimmed input).
Qed.

Lemma statements_nonempty_and_trimmed_witness :
  str "b" <> [] /\ TrimSpace (str "b") = str "b".
Proof.
  destruct (statements_nonempty_and_trimmed (str "a; b") (str "b")) as [H1 H2].
  { vm_compute. right; left; reflexivity. }
  split; [exact H1|]. apply H2. reflexivity.
Defined.

(** ** Statements and semicolons *)

Lemma skipn_skipn_add {A} n m (l : list A) : skipn n (skipn m l) = skipn (m + n) l.
Proof.
  revert l; induction m as [|m IH]; intros l; [reflexivity|].
  destruct l as [|x l]; cbn [skipn Nat.add]; [now rewrite skipn_nil|apply IH].
Qed.

Lemma ReadRune_suffix rd r rd' :
  ReadRune rd = Some (r, rd') -> exists k, rd' = skipn k rd.
Proof.
  unfold ReadRune. destruct rd as [|c t]; [discriminate|].
  destruct (DecodeRune (c :: t)) as [r0 sz]. intros [= _ <-]. eauto.
Qed.

Lemma copyRunes_suffix n : forall rd buf,
  exists k, fst (copyRunes n rd buf) = skipn k rd.
Proof.
  induction n as [|n IH]; intros rd buf; cbn [copyRunes].
  - exists 0%nat. reflexivity.
  - unfold readIgnoringErr. destruct (ReadRune rd) as [[r rd']|] eqn:E.
    + apply ReadRune_suffix in E. destruct E as [k ->].
      destruct (IH (skipn k rd) (WriteRune buf r)) as [k' ->].
      exists (k + k')%nat. apply skipn_skipn_add.
    + apply IH.
Qed.

(** An iteration leaves a suffix of what there was to read. *)
Lemma step_suffix st st' :
  step st = Some st' -> exists k, reader st' = skipn k (reader st).
Proof.
  unfold step. destruct (ReadRune (reader st)) as [[ch rd]|] eqn:ER; [|discriminate].
  apply ReadRune_suffix in ER. destruct ER as [k0 ER].
  intros H. assert (H' := f_equal (fun o => match o with Some x => x | None => st end) H).
  cbv beta iota in H'. subst st'. clear H.
  assert (S0 : exists k, rd = skipn k (reader st)) by eauto.
  assert (S2 : forall n buf, exists k, fst (copyRunes n rd buf) = skipn k (reader st)).
  { intros n buf. destruct (copyRunes_suffix n rd buf) as [k ->]. rewrite ER.
    exists (k0 + k)%nat. apply skipn_skipn_add. }
  repeat match goal with
  | |- context [if ?b then _ else _] => destruct b
  | |- context [match ReadRune rd with _ => _ end] =>
      let E := fresh "E" in destruct (ReadRune rd) as [[? ?]|] eqn:E;
      [apply ReadRune_suffix in E|]
  | |- context [match dollarTag ?x with _ => _ end] => destruct (dollarTag x) eqn:?
  | |- context [match findTag ?x ?y with _ => _ end] => destruct (findTag x y)
  | |- context [let '(_, _) := copyRunes ?n ?r ?b in _] =>
      let E := fresh "EC" in
      pose proof (S2 n b) as E; destruct (copyRunes n r b)
  end; rewrite ?quoteAndBoundary_reader; cbn [reader fst] in *; try assumption;
  match goal with
  | E : exists k, ?l = skipn k rd |- exists k, ?l = _ =>
      destruct E as [k ->]; rewrite ER; exists (k0 + k)%nat; apply skipn_skipn_add
  end.
Qed.

Lemma countSemi_skipn k : forall s, (countSemi (skipn k s) <= countSemi s)%nat.
Proof.
  unfold countSemi. induction k as [|k IH]; intros s; [cbn [skipn]; lia|].
  destruct s as [|c s]; cbn [skipn filter]; [lia|].
  specialize (IH s). destruct (ascii_dec c semicolon); cbn [List.length]; lia.
Qed.

Lemma emit_length stmts buf :
  (List.length (emit stmts buf) <= S (List.length stmts))%nat.
Proof.
  unfold emit. destruct (TrimSpace buf); [lia|]. rewrite length_app. cbn. lia.
Qed.

Lemma loop_count fuel : forall st,
  (List.length (reader st) < fuel)%nat ->
  (List.length (finish (loop fuel st))
   <= List.length (statements st) + countSemi (reader st) + 1)%nat.
Proof.
  induction fuel as [|fuel IH]; intros st Hl; [lia|].
  cbn [loop]. destruct (step st) as [st'|] eqn:E.
  - pose proof (step_shorter _ _ E) as Hs.
    specialize (IH st' ltac:(lia)).
    destruct (step_effect st st' E) as [(_ & rest & ER & ->)|[ES _]].
    + cbn [boundary statements reader] in IH. rewrite ER.
      pose proof (emit_length (statements st) (sb st)).
      unfold countSemi in *. cbn [filter].
      destruct (ascii_dec semicolon semicolon); [|congruence]. cbn [List.length]. lia.
    + destruct (step_suffix st st' E) as [k Ek]. rewrite ES, Ek in IH.
      pose proof (countSemi_skipn k (reader st)). lia.
  - unfold finish. pose proof (emit_length (statements st) (sb st)). lia.
Qed.

(** X2. Whatever the input, the splitter returns at most one statement
    more than the script has semicolons; a script without a semicolon
    yields at most one statement. *)
Theorem statements_bounded_by_semicolons : forall input : gostring,
  (List.length (splitSQLStatements input) <= countSemi input + 1)%nat.
Proof.
  intros input. unfold splitSQLStatements, scan.
  pose proof (loop_count (S (List.length input)) (init input)) as H.
  cbn [init reader statements List.length] in H. apply H. lia.
Qed.

(** ** Scripts that hold no statement *)

Lemma TrimSpace_blank r :
  forallb isAscii r = true -> (TrimSpace r = [] <-> forallb isWs r = true).
Proof.
  intros HA.
  destruct (TrimSpace_ascii r HA) as (lead & trail & Er & Wl & Wt & Hs). split.
  - intros E. rewrite E in Er. cbn [app] in Er. rewrite Er, forallb_app, Wl, Wt.
    reflexivity.
  - intros HW. destruct Hs as [Hs|[(c & rest & Ec & Hc) _]]; [exact Hs|exfalso].
    rewrite Er, Ec in HW. apply forallb_app_r in HW. cbn [app forallb] in HW.
    apply andb_true_iff in HW. destruct HW as [HW _]. congruence.
Qed.

Lemma isWs_not_semicolon c : isWs c = true -> c <> semicolon.
Proof. intros H ->. discriminate H. Qed.

Lemma loop_blank fuel : forall st,
  normal st = true ->
  forallb isAscii (reader st) = true -> forallb isWsOrSemi (reader st) = true ->
  forallb isAscii (sb st) = true -> forallb isWs (sb st) = true ->
  finish (loop fuel st) = statements st.
Proof.
  assert (F : forall st, forallb isAscii (sb st) = true -> forallb isWs (sb st) = true ->
                emit (statements st) (sb st) = statements st).
  { intros st HA HW. unfold emit.
    now rewrite (proj2 (TrimSpace_blank (sb st) HA) HW). }
  induction fuel as [|fuel IH]; intros st Hn HA HW HAb HWb; [now apply F|].
  cbn [loop]. destruct (reader st) as [|c rd] eqn:ER.
  - assert (E : step st = None) by (now apply step_none_iff). rewrite E. now apply F.
  - cbn [forallb] in HA, HW. apply andb_true_iff in HA, HW.
    destruct HA as [Hc HA], HW as [Wc HW]. unfold isWsOrSemi in Wc.
    apply orb_true_iff in Wc. destruct Wc as [Wc|Wc].
    + rewrite (step_ws_normal st c rd Hn ER Hc Wc).
      rewrite IH; cbn [appended reader statements sb]; try assumption.
      * reflexivity.
      * rewrite forallb_app, HAb. cbn. now rewrite Hc.
      * rewrite forallb_app, HWb. cbn. now rewrite Wc.
    + destruct (ascii_dec c semicolon) as [->|]; [|discriminate].
      rewrite (step_semicolon_normal st rd ER Hn).
      rewrite IH; cbn [boundary reader statements sb]; try assumption; try reflexivity.
      now apply F.
Qed.

Lemma joinSemi_bytes rs : forall r0,
  Forall (fun r => forallb isWs r = true) (r0 :: rs) ->
  forallb isWsOrSemi (joinSemi r0 rs) = true.
Proof.
  assert (W : forall r, forallb isWs r = true -> forallb isWsOrSemi r = true).
  { intros r H. rewrite forallb_forall in *. intros c Hc. unfold isWsOrSemi.
    now rewrite (H c Hc). }
  induction rs as [|r rs IH]; intros r0 H; inversion H as [|? ? H0 H1]; subst;
    cbn [joinSemi].
  - now apply W.
  - rewrite forallb_app, (W r0 H0). cbn [andb forallb].
    rewrite (IH r H1). unfold isWsOrSemi at 1.
    destruct (ascii_dec semicolon semicolon); [|congruence]. now rewrite orb_true_r.
Qed.

(** X3. An ASCII script yields no statement exactly when it is made of
    white space and semicolons only; these are the scripts for which
    [main] reports that no SQL statement was found. *)
Theorem no_statement_iff_blank : forall input : gostring,
  forallb isAscii input = true ->
  (splitSQLStatements input = [] <-> forallb isWsOrSemi input = true).
Proof.
  intros input HA. split.
  - intros E.
    destruct (loop_ascii (S (List.length input)) (init input) HA)
      as (r0 & rs & E1 & E2 & _); [cbn [init reader]; lia|].
    cbn [init reader statements sb app] in E1, E2.
    unfold splitSQLStatements, scan in E. rewrite E2 in E.
    apply map_eq_nil in E.
    assert (B : Forall (fun r => forallb isWs r = true) (r0 :: rs)).
    { pose proof HA as HA'. rewrite E1 in HA'. apply joinSemi_ascii in HA'.
      rewrite Forall_forall in *. intros r Hr.
      apply (TrimSpace_blank r (HA' r Hr)).
      destruct (blank r) eqn:Eb.
      - unfold blank in Eb. destruct (TrimSpace r); [reflexivity|discriminate].
      - exfalso. assert (In r (@nil gostring)) as HI; [|exact HI].
        rewrite <- E. apply filter_In. split; [exact Hr|]. now rewrite Eb. }
    rewrite E1. now apply joinSemi_bytes.
  - intros HW. unfold splitSQLStatements, scan.
    now rewrite (loop_blank (S (List.length input)) (init input)).
Qed.

Lemma no_statement_iff_blank_witness :
  splitSQLStatements (str " ; ;; ") = [].
Proof.
  apply (proj2 (no_statement_iff_blank (str " ; ;; ") eq_refl)). reflexivity.
Defined.

(** ** Scripts put together with a semicolon *)

Lemma emit_prepend pre stmts buf : emit (pre ++ stmts) buf = pre ++ emit stmts buf.
Proof. rewrite emit_split, (emit_split stmts). now rewrite app_assoc. Qed.

Lemma quoteAndBoundary_prepend pre st ch rd :
  quoteAndBoundary (prepend pre st) ch rd = prepend pre (quoteAndBoundary st ch rd).
Proof.
  unfold quoteAndBoundary, prepend.
  cbn [statements reader sb inSingle inDouble inLineComment inBlockComment dollarTag].
  match goal with |- context [if ?b then mkState _ _ _ _ _ _ _ _ else _] =>
    destruct b end;
  cbn [statements reader sb inSingle inDouble inLineComment inBlockComment dollarTag];
  rewrite ?emit_prepend; reflexivity.
Qed.

Lemma step_prepend pre st :
  step (prepend pre st) = option_map (prepend pre) (step st).
Proof.
  unfold step. cbn [prepend reader].
  destruct (ReadRune (reader st)) as [[ch rd]|]; [|reflexivity].
  cbn [option_map]. f_equal. rewrite quoteAndBoundary_prepend.
  change (inLineComment (prepend pre st)) with (inLineComment st).
  change (inBlockComment (prepend pre st)) with (inBlockComment st).
  change (dollarTag (prepend pre st)) with (dollarTag st).
  change (inSingle (prepend pre st)) with (inSingle st).
  change (inDouble (prepend pre st)) with (inDouble st).
  change (sb (prepend pre st)) with (sb st).
  change (statements (prepend pre st)) with (pre ++ statements st).
  repeat match goal with
  | |- context [if ?b then _ else _] => destruct b
  | |- context [match ReadRune rd with _ => _ end] => destruct (ReadRune rd) as [[? ?]|]
  | |- context [match dollarTag ?x with _ => _ end] => destruct (dollarTag x)
  | |- context [match findTag ?x ?y with _ => _ end] => destruct (findTag x y)
  | |- context [let '(_, _) := copyRunes ?n ?r ?b in _] => destruct (copyRunes n r b)
  end; reflexivity.
Qed.

Lemma loop_prepend pre fuel : forall st,
  loop fuel (prepend pre st) = prepend pre (loop fuel st).
Proof.
  induction fuel as [|fuel IH]; intros st; [reflexivity|].
  cbn [loop]. rewrite step_prepend. destruct (step st); cbn [option_map]; auto.
Qed.

Lemma finish_prepend pre st : finish (prepend pre st) = pre ++ finish st.
Proof. unfold finish. cbn [prepend statements sb]. apply emit_prepend. Qed.

Lemma noDollar_In s : noDollar s = true -> ~ In "$"%char s.
Proof.
  unfold noDollar. rewrite forallb_forall. intros H HI. specialize (H _ HI).
  destruct (ascii_dec "$"%char "$"%char); [discriminate|congruence].
Qed.

Lemma noDollar_skipn k : forall s, noDollar s = true -> noDollar (skipn k s) = true.
Proof.
  unfold noDollar. induction k as [|k IH]; intros [|c s]; cbn [skipn forallb]; auto.
  intros H. apply andb_true_iff in H. destruct H as [_ H]. auto.
Qed.

(** An iteration of the scan of [a ; b] that starts inside [a] does not
    reach beyond [a], unless it takes a dollar tag that begins in [a] and
    ends in [b]. *)
Lemma chunk_fits chunk rest u b :
  shaped2 chunk -> chunk ++ rest = u ++ semicolon :: b -> u <> [] ->
  noDollar u = true \/ noDollar b = true ->
  (List.length chunk <= List.length u)%nat.
Proof.
  intros HS E Hu HD.
  destruct (Nat.le_gt_cases (List.length chunk) (List.length u)) as [|Hgt];
    [assumption|exfalso].
  assert (EC : chunk = u ++ firstn (List.length chunk - List.length u) (semicolon :: b)).
  { apply (f_equal (firstn (List.length chunk))) in E.
    rewrite firstn_app, firstn_all, Nat.sub_diag in E. cbn [firstn] in E.
    rewrite app_nil_r in E. rewrite E at 1. rewrite firstn_app.
    rewrite firstn_all2 by lia. reflexivity. }
  destruct (List.length chunk - List.length u)%nat as [|k] eqn:EK; [lia|].
  cbn [firstn] in EC.
  destruct HS as [[c Hc]|[(c & x & Hc & Hx & _)|[pre Hc]]].
  - rewrite Hc in Hgt. destruct u; [congruence|cbn in Hgt; lia].
  - rewrite Hc in EC. destruct u as [|c0 [|c1 u1]]; [congruence| |].
    + cbn [app] in EC. inversion EC. congruence.
    + apply (f_equal (@List.length ascii)) in EC. rewrite length_app in EC.
      cbn [List.length] in EC. lia.
  - rewrite Hc in EC. destruct u as [|c0 u0]; [congruence|].
    cbn [app] in EC. injection EC as E0 E1.
    destruct HD as [HD|HD].
    + apply noDollar_In in HD. apply HD. left. now symmetry.
    + destruct (firstn k b) as [|z t] eqn:EF.
      * change (u0 ++ [semicolon]) with (u0 ++ [semicolon]) in E1.
        apply app_inj_tail in E1. destruct E1 as [_ E1]. discriminate E1.
      * destruct (exists_last (l := z :: t)) as (t' & y & Ey); [discriminate|].
        rewrite Ey in E1.
        replace (u0 ++ semicolon :: t' ++ [y]) with ((u0 ++ semicolon :: t') ++ [y]) in E1
          by (now rewrite <- app_assoc).
        apply app_inj_tail in E1. destruct E1 as [_ E1]. subst y.
        apply noDollar_In in HD. apply HD.
        rewrite <- (firstn_skipn k b), EF, Ey. apply in_or_app. left.
        apply in_or_app. right. now left.
Qed.

Lemma inStep_step A B b B1 :
  inStep A B b -> forallb isAscii (reader A) = true -> tagOK A ->
  noDollar (reader B) = true \/ noDollar b = true ->
  step B = Some B1 ->
  exists A1, step A = Some A1 /\ inStep A1 B1 b /\ tagOK A1.
Proof.
  intros (HM & EST & ESB & ER) HA HT HD SB.
  assert (HN : reader B <> []).
  { intros E. apply step_none_iff in E. congruence. }
  destruct (step A) as [A1|] eqn:SA.
  2:{ apply step_none_iff in SA. rewrite SA in ER. destruct (reader B); discriminate. }
  exists A1. split; [reflexivity|].
  destruct (step_ascii_shape2 A A1 HA HT SA) as [HT1 HS].
  assert (HB : forallb isAscii (reader B) = true).
  { rewrite ER in HA. now apply forallb_app_l in HA. }
  assert (HF : (List.length (reader A) - List.length (reader A1)
                <= List.length (reader B))%nat).
  { destruct (step_ascii A A1 HA SA) as [(_ & E & _)|(_ & chunk & _ & E & _)].
    - rewrite E. cbn [List.length]. destruct (reader B); [congruence|].
      cbn [List.length]. lia.
    - specialize (HS chunk E). rewrite E in ER.
      pose proof (chunk_fits chunk (reader A1) (reader B) b HS ER HN HD).
      rewrite E, length_app. lia. }
  destruct (sim_step A B (semicolon :: b) A1 HA HM ER HN SA HF)
    as [(B' & SB' & HM1 & ER1)|(_ & (w' & [W|W]) & _)]; [|discriminate W|discriminate W].
  rewrite SB in SB'. injection SB' as <-.
  split; [|exact HT1]. split; [exact HM1|].
  assert (NB : normal A = normal B).
  { destruct (normal B) eqn:E.
    - apply normal_mode. rewrite HM. now apply normal_mode.
    - destruct (normal A) eqn:E'; [|reflexivity].
      apply normal_mode in E'. rewrite HM in E'. apply normal_mode in E'. congruence. }
  destruct (step_ascii A A1 HA SA) as [(NA & EA & EA1)|(SA1 & chunkA & HneA & EA & EBA)];
    destruct (step_ascii B B1 HB SB) as [(NB1 & EB & EB1)|(SB1 & chunkB & HneB & EB & EBB)].
  - rewrite EA1, EB1. cbn [boundary statements sb]. rewrite EST, ESB. auto.
  - exfalso. rewrite NB in NA.
    assert (EB2 : reader B = semicolon :: skipn 1 (reader B)).
    { rewrite ER in EA. destruct (reader B) as [|c0 u0]; [congruence|].
      cbn [app] in EA. injection EA as -> _. reflexivity. }
    rewrite (step_semicolon_normal B _ EB2 NA) in SB. injection SB as <-.
    cbn [boundary sb] in EBB. symmetry in EBB. apply app_eq_nil in EBB. tauto.
  - exfalso. rewrite <- NB in NB1.
    assert (EA2 : reader A = semicolon :: skipn 1 (reader A)).
    { rewrite ER, EB. reflexivity. }
    rewrite (step_semicolon_normal A _ EA2 NB1) in SA. injection SA as <-.
    cbn [boundary sb] in EBA. symmetry in EBA. apply app_eq_nil in EBA. tauto.
  - assert (chunkA = chunkB).
    { rewrite ER, EB, ER1, <- app_assoc in EA. now apply app_inv_tail in EA. }
    subst chunkB. rewrite SA1, SB1, EBA, EBB, EST, ESB. auto.
Qed.

(** The scan of [a ; b] goes through [a] as the scan of [a] alone does,
    then meets the semicolon in the Normal state and starts on [b] with the
    statements of [a] found. *)
Lemma loop_inStep fuelB : forall A B b fuelA,
  (List.length (reader B) < fuelB)%nat -> (List.length (reader A) < fuelA)%nat ->
  inStep A B b -> forallb isAscii (reader A) = true -> tagOK A ->
  noDollar (reader B) = true \/ noDollar b = true ->
  normal (loop fuelB B) = true ->
  finish (loop fuelA A) = finish (loop fuelB B) ++ splitSQLStatements b.
Proof.
  induction fuelB as [|fuelB IH]; intros A B b fuelA HlB HlA HI HA HT HD HN; [lia|].
  destruct fuelA as [|fuelA]; [lia|].
  cbn [loop] in HN |- *. destruct (step B) as [B1|] eqn:SB.
  - destruct (inStep_step A B b B1 HI HA HT HD SB) as (A1 & SA & HI1 & HT1).
    rewrite SA. pose proof (step_shorter _ _ SA). pose proof (step_shorter _ _ SB).
    apply IH; try assumption; try lia.
    + destruct (step_ascii A A1 HA SA) as [(_ & E & _)|(_ & chunk & _ & E & _)];
        rewrite E in HA.
      * cbn [forallb] in HA. apply andb_true_iff in HA. tauto.
      * now apply forallb_app_r in HA.
    + destruct HD as [HD|HD]; [left|now right].
      destruct (step_suffix B B1 SB) as [k ->]. now apply noDollar_skipn.
  - apply step_none_iff in SB. destruct HI as (HM & EST & ESB & ER).
    rewrite SB in ER. cbn [app] in ER.
    assert (NA : normal A = true).
    { apply normal_mode. rewrite HM. now apply normal_mode. }
    rewrite (step_semicolon_normal A b ER NA).
    rewrite (loop_enough fuelA) by (cbn [boundary reader]; rewrite ER in HlA; cbn in HlA; lia).
    cbn [boundary reader].
    replace (boundary A b) with (prepend (emit (statements A) (sb A)) (init b))
      by (unfold prepend, boundary, init; cbn; now rewrite app_nil_r).
    rewrite loop_prepend, finish_prepend. unfold finish at 2. now rewrite EST, ESB.
Qed.

(** X4. A semicolon at the end of the last statement is optional: when
    the scan of an ASCII script ends in the Normal state, appending a
    semicolon to the script does not change the statements returned. *)
Theorem trailing_semicolon_optional : forall a : gostring,
  forallb isAscii a = true -> normal (scan a) = true ->
  splitSQLStatements (a ++ [semicolon]) = splitSQLStatements a.
Proof.
  intros a HA HN. unfold splitSQLStatements at 1. unfold scan at 1.
  rewrite (loop_inStep (S (List.length a)) (init (a ++ [semicolon])) (init a) []).
  - change (splitSQLStatements []) with (@nil gostring). now rewrite app_nil_r.
  - cbn [init reader]. lia.
  - cbn [init reader]. lia.
  - unfold inStep. cbn [init reader statements sb]. auto.
  - cbn [init reader]. rewrite forallb_app, HA. reflexivity.
  - left. reflexivity.
  - right. reflexivity.
  - exact HN.
Qed.

Lemma trailing_semicolon_optional_witness :
  splitSQLStatements (str "select 1; select 2" ++ [semicolon])
  = splitSQLStatements (str "select 1; select 2").
Proof.
  apply trailing_semicolon_optional; reflexivity.
Defined.

(** X5. Two ASCII scripts joined by a semicolon yield the statements of
    the first followed by those of the second, when the scan of the first
    ends in the Normal state and the two do not both hold a dollar sign
    (a dollar tag cannot then begin in one and end in the other). *)
Theorem split_joined_scripts : forall a b : gostring,
  forallb isAscii a = true -> forallb isAscii b = true ->
  normal (scan a) = true ->
  noDollar a = true \/ noDollar b = true ->
  splitSQLStatements (a ++ semicolon :: b)
  = splitSQLStatements a ++ splitSQLStatements b.
Proof.
  intros a b HA HB HN HD. unfold splitSQLStatements at 1. unfold scan at 1.
  apply (loop_inStep (S (List.length a)) (init (a ++ semicolon :: b)) (init a) b).
  - cbn [init reader]. lia.
  - cbn [init reader]. lia.
  - unfold inStep. cbn [init reader statements sb]. auto.
  - cbn [init reader]. rewrite forallb_app, HA. cbn [forallb]. now rewrite HB.
  - left. reflexivity.
  - exact HD.
  - exact HN.
Qed.

Lemma split_joined_scripts_witness :
  splitSQLStatements (str "select 'a;b' " ++ semicolon :: str " do $$ x; $$")
  = [str "select 'a;b'"; str "do $$ x; $$"].
Proof.
  rewrite split_joined_scripts; try reflexivity. left. reflexivity.
Defined.

(** ** The ASCII theorems of the splitter at a script *)

Lemma ascii_resplit_witness :
  splitSQLStatements (str "update t set x = 'y;z'") = [str "update t set x = 'y;z'"].
Proof.
  apply (ascii_resplit (str "select ';' as a; update t set x = 'y;z';")).
  - reflexivity.
  - vm_compute. right. left. reflexivity.
Defined.

Lemma ascii_statements_are_regions_witness :
  exists r0 rs,
    str "select ';' as a; update t" = joinSemi r0 rs
    /\ splitSQLStatements (str "select ';' as a; update t")
       = map TrimSpace (filter (fun s => negb (blank s)) (r0 :: rs))
    /\ forall r, In r (r0 :: rs) -> exists a b, r = a ++ TrimSpace r ++ b.
Proof.
  apply (ascii_statements_are_regions (str "select ';' as a; update t")).
  reflexivity.
Defined.

End GoMoreFacts.

(** * Facts about the connection set-up *)
Module DsnFacts.

Import Utf8 Config Dsn ConfigFacts.

Section WithCaseTable.

Variable lower : rune -> rune.

#[local] Abbreviation ToLower := (Config.ToLower lower).
#[local] Abbreviation validate := (Config.validate lower).
#[local] Abbreviation defaultPort := (Config.defaultPort lower).
#[local] Abbreviation supported := (Config.supported lower).
#[local] Abbreviation driverName := (Dsn.driverName lower).
#[local] Abbreviation buildDSN := (Dsn.buildDSN lower).

(** X8. The four switches on the engine agree: an engine has a driver
    name exactly when validation accepts it, exactly when it has a default
    port other than zero, and exactly when a connection string is built
    for it. *)
Theorem engine_switches_agree : forall cfg : config,
  (driverName (engine cfg) = [] <-> supported (engine cfg) = false)
  /\ (defaultPort (engine cfg) = 0%Z <-> supported (engine cfg) = false)
  /\ (buildDSN cfg = [] <-> supported (engine cfg) = false).
Proof.
  intros cfg.
  unfold Dsn.driverName, Config.defaultPort, Config.supported, Dsn.buildDSN.
  destruct (gostring_eqb (ToLower (engine cfg)) (str "oracle"));
    [cbn; repeat split; intros; discriminate|].
  destruct (gostring_eqb (ToLower (engine cfg)) (str "sqlserver"));
    [cbn; repeat split; intros; discriminate|].
  destruct (gostring_eqb (ToLower (engine cfg)) (str "postgres"));
    [cbn; repeat split; intros; discriminate|].
  cbn. repeat split; reflexivity.
Qed.

Lemma supported_port e : supported e = true -> defaultPort e <> 0%Z.
Proof.
  unfold Config.defaultPort, Config.supported.
  destruct (gostring_eqb (ToLower e) (str "oracle")); [discriminate|].
  destruct (gostring_eqb (ToLower e) (str "sqlserver")); [discriminate|].
  destruct (gostring_eqb (ToLower e) (str "postgres")); [discriminate|].
  cbn. discriminate.
Qed.

Lemma supported_driver e : supported e = true -> driverName e <> [].
Proof.
  unfold Dsn.driverName, Config.supported.
  destruct (gostring_eqb (ToLower e) (str "oracle")); [discriminate|].
  destruct (gostring_eqb (ToLower e) (str "sqlserver")); [discriminate|].
  destruct (gostring_eqb (ToLower e) (str "postgres")); [discriminate|].
  cbn. discriminate.
Qed.

Lemma supported_dsn cfg : supported (engine cfg) = true -> buildDSN cfg <> [].
Proof.
  unfold Dsn.buildDSN, Config.supported.
  destruct (gostring_eqb (ToLower (engine cfg)) (str "oracle")); [discriminate|].
  destruct (gostring_eqb (ToLower (engine cfg)) (str "sqlserver")); [discriminate|].
  destruct (gostring_eqb (ToLower (engine cfg)) (str "postgres")); [discriminate|].
  cbn. discriminate.
Qed.

Lemma validate_ok_inv c c' :
  validate c = (None, c') ->
  complete c /\ supported (engine c) = true
  /\ c' = (if (port c =? 0)%Z then setPort c (defaultPort (engine c)) else c).
Proof.
  unfold Config.validate.
  destruct (isEmpty (engine c)) eqn:E1; [discriminate|].
  destruct (isEmpty (host c)) eqn:E2; [discriminate|].
  destruct (isEmpty (dbname c)) eqn:E3; [discriminate|].
  destruct (isEmpty (sqlPath c)) eqn:E4; [discriminate|].
  destruct (Config.supported lower (engine c)) eqn:E5; cbn [negb]; [|discriminate].
  intros H. split; [|split; [reflexivity|]].
  - unfold complete. rewrite <- !isEmpty_false. auto.
  - destruct (port c =? 0)%Z; now inversion H.
Qed.

(** X9. A configuration that passes validation is ready to connect: the
    four required fields are there, only the port may have changed, the
    port is not zero, the engine has a driver and a connection string, and
    validating it again changes nothing. *)
Theorem validated_config_is_ready : forall c c' : config,
  validate c = (None, c') ->
  complete c'
  /\ (engine c', host c', username c', password c', dbname c', sqlPath c')
     = (engine c, host c, username c, password c, dbname c, sqlPath c)
  /\ (port c <> 0%Z -> port c' = port c)
  /\ port c' <> 0%Z
  /\ driverName (engine c') <> []
  /\ buildDSN c' <> []
  /\ validate c' = (None, c').
Proof.
  intros c c' H. destruct (validate_ok_inv c c' H) as (HC & HS & E).
  assert (F : (engine c', host c', username c', password c', dbname c', sqlPath c')
              = (engine c, host c, username c, password c, dbname c, sqlPath c)).
  { rewrite E. destruct (port c =? 0)%Z; reflexivity. }
  injection F as F1 F2 F3 F4 F5 F6.
  assert (HC' : complete c').
  { unfold complete in *. now rewrite F1, F2, F5, F6. }
  assert (P : port c' <> 0%Z).
  { rewrite E. destruct (port c =? 0)%Z eqn:EP.
    - cbn [setPort port]. now apply supported_port.
    - now apply Z.eqb_neq. }
  split; [exact HC'|]. split; [now rewrite F1, F2, F3, F4, F5, F6|].
  split; [|split; [exact P|split; [|split]]].
  - intros Hp. rewrite E. apply Z.eqb_neq in Hp. now rewrite Hp.
  - rewrite F1. now apply supported_driver.
  - apply supported_dsn. now rewrite F1.
  - rewrite (validate_complete lower c' HC'), F1, HS.
    apply Z.eqb_neq in P. now rewrite P.
Qed.

Lemma escape_app s t m : escape (s ++ t) m = (escape s m ++ escape t m)%list.
Proof. unfold escape. apply flat_map_app. Qed.

Lemma escapeByte_querySafe c :
  forallb querySafe (escapeByte encodeQueryComponent c) = true.
Proof. destruct c as [[] [] [] [] [] [] [] []]; vm_compute; reflexivity. Qed.

Lemma QueryEscape_querySafe s : forallb querySafe (QueryEscape s) = true.
Proof.
  unfold QueryEscape, escape. induction s as [|c s IH]; [reflexivity|].
  cbn [flat_map]. rewrite forallb_app, escapeByte_querySafe. exact IH.
Qed.

(** X10. For SQL Server the database name only adds to the end of the
    connection string, and what it adds holds letters, digits and the bytes
    [-_.~+%] alone: no [&], [=], [#] or [;] of the name reaches the string,
    so the name cannot bring in a parameter of its own. *)
Theorem sqlserver_database_name_is_escaped : forall (cfg : config) (d : gostring),
  ToLower (engine cfg) = str "sqlserver" ->
  exists q,
    buildDSN (setDbname cfg d) = (buildDSN (setDbname cfg []) ++ q)%list
    /\ forallb querySafe q = true.
Proof.
  intros cfg d E. exists (QueryEscape d). split; [|apply QueryEscape_querySafe].
  unfold Dsn.buildDSN. cbn [setDbname engine host port username password dbname].
  rewrite E. cbn [gostring_eqb]. 
  change (gostring_eqb (str "sqlserver") (str "oracle")) with false.
  change (gostring_eqb (str "sqlserver") (str "sqlserver")) with true.
  cbv iota. unfold encodeDatabase.
  change (QueryEscape []) with (@nil ascii).
  rewrite <- !app_assoc. repeat f_equal.
Qed.

(** X11. The connection string does not keep the user name and the
    password apart: a colon is left as it is by the escaping for Oracle and
    SQL Server, and nothing is escaped for PostgreSQL, so moving the
    separator and what follows it from the end of the user name to the
    front of the password gives the same connection string. *)
Theorem credentials_boundary_is_lost : forall (cfg : config) (u p1 p2 : gostring),
  let sep := if gostring_eqb (ToLower (engine cfg)) (str "postgres")
             then str " password=" else str ":" in
  buildDSN (setCredentials cfg (u ++ sep ++ p1) p2)
  = buildDSN (setCredentials cfg u (p1 ++ sep ++ p2)).
Proof.
  intros cfg u p1 p2.
  unfold Dsn.buildDSN. cbn [setCredentials engine host port username password dbname].
  destruct (gostring_eqb (ToLower (engine cfg)) (str "oracle")) eqn:E1.
  { apply GoFacts.gostring_eqb_eq in E1. rewrite E1.
    change (gostring_eqb (str "oracle") (str "postgres")) with false. cbv zeta iota.
    unfold PathEscape. rewrite !escape_app.
    change (escape (str ":") encodePathSegment) with (str ":").
    now rewrite <- !app_assoc. }
  destruct (gostring_eqb (ToLower (engine cfg)) (str "sqlserver")) eqn:E2.
  { apply GoFacts.gostring_eqb_eq in E2. rewrite E2.
    change (gostring_eqb (str "sqlserver") (str "postgres")) with false. cbv zeta iota.
    unfold PathEscape. rewrite !escape_app.
    change (escape (str ":") encodePathSegment) with (str ":").
    now rewrite <- !app_assoc. }
  destruct (gostring_eqb (ToLower (engine cfg)) (str "postgres")) eqn:E3;
    [|reflexivity].
  cbv zeta. now rewrite <- !app_assoc.
Qed.

End WithCaseTable.

Lemma sqlserver_database_name_is_escaped_witness :
  exists q,
    Dsn.buildDSN (fun r => r)
      (setDbname (mkConfig (str "SqlServer") (str "h") 1433%Z (str "u") (str "p") [] [])
                 (str "a&b=c"))
    = (Dsn.buildDSN (fun r => r)
        (setDbname (mkConfig (str "SqlServer") (str "h") 1433%Z (str "u") (str "p") [] []) [])
       ++ q)%list
    /\ forallb querySafe q = true.
Proof.
  apply (sqlserver_database_name_is_escaped (fun r => r)
           (mkConfig (str "SqlServer") (str "h") 1433%Z (str "u") (str "p") [] [])
           (str "a&b=c")).
  reflexivity.
Defined.

Lemma validated_config_is_ready_witness :
  port (snd (Config.validate (fun r => r) (parseFlags exampleFlags))) <> 0%Z.
Proof.
  apply (proj1 (proj2 (proj2 (proj2 (validated_config_is_ready (fun r => r)
           (parseFlags exampleFlags)
           (snd (Config.validate (fun r => r) (parseFlags exampleFlags)))
           eq_refl))))).
Defined.

End DsnFacts.

(** * Facts about the table of a result set *)
Module TableFacts.

Import GoSpec Table.

Local Open Scope Z_scope.

Lemma len_app a b : len (a ++ b) = len a + len b.
Proof. unfold len. rewrite length_app. lia. Qed.

Lemma len_nonneg a : 0 <= len a.
Proof. unfold len. lia. Qed.

Lemma Repeat_byte c n :
  0 <= n -> exists r, Repeat [c] n = Some r /\ len r = n.
Proof.
  intros H. unfold Repeat. destruct (n <? 0) eqn:E; [lia|].
  eexists. split; [reflexivity|].
  unfold len. rewrite <- (Z2Nat.id n) at 2 by lia. f_equal.
  induction (Z.to_nat n) as [|k IH]; [reflexivity|].
  cbn. now rewrite IH.
Qed.

(** ** The widths *)

Lemma setNth_length i v l : List.length (setNth i v l) = List.length l.
Proof.
  revert i. induction l as [|h t IH]; intros [|i]; cbn; auto.
Qed.

Lemma setNth_nth i v l j :
  (i < List.length l)%nat ->
  nth j (setNth i v l) 0 = if Nat.eq_dec j i then v else nth j l 0.
Proof.
  revert i j. induction l as [|h t IH]; intros i j H; cbn in H; [lia|].
  destruct i as [|i]; destruct j as [|j]; cbn [setNth nth].
  - reflexivity.
  - destruct (Nat.eq_dec (S j) 0); [lia|reflexivity].
  - destruct (Nat.eq_dec 0 (S i)); [lia|reflexivity].
  - rewrite IH by lia.
    destruct (Nat.eq_dec j i), (Nat.eq_dec (S j) (S i)); try reflexivity; lia.
Qed.

Lemma nth_error_nth0 (l : list Z) i w : nth_error l i = Some w -> nth i l 0 = w.
Proof. intros H. now apply nth_error_nth. Qed.

Lemma nth_error_in_range (l : list Z) i :
  (i < List.length l)%nat -> nth_error l i = Some (nth i l 0).
Proof. intros H. now apply nth_error_nth'. Qed.

Lemma widenRow_length row : forall i widths widths',
  widenRow i row widths = Some widths' -> List.length widths' = List.length widths.
Proof.
  induction row as [|cell rest IH]; intros i widths widths' H; cbn in H.
  - now inversion H.
  - destruct (nth_error widths i) as [w|]; [|discriminate].
    apply IH in H. rewrite H.
    destruct (len cell >? w); [apply setNth_length|reflexivity].
Qed.

Lemma widenRow_some row : forall i widths,
  (i + List.length row <= List.length widths)%nat ->
  exists widths',
    widenRow i row widths = Some widths'
    /\ (forall j, nth j widths 0 <= nth j widths' 0)
    /\ (forall j, (j < List.length row)%nat ->
                  len (nth j row []) <= nth (i + j) widths' 0).
Proof.
  induction row as [|cell rest IH]; intros i widths H.
  - exists widths. split; [reflexivity|]. split; [intros; lia|].
    cbn. intros; lia.
  - cbn [List.length] in H. cbn [widenRow].
    rewrite (nth_error_in_range widths i) by lia.
    set (w := nth i widths 0).
    set (widths1 := if len cell >? w then setNth i (len cell) widths else widths).
    assert (L1 : List.length widths1 = List.length widths).
    { unfold widths1. destruct (len cell >? w); [apply setNth_length|reflexivity]. }
    assert (G1 : forall j, nth j widths 0 <= nth j widths1 0).
    { intros j. unfold widths1. destruct (len cell >? w) eqn:E; [|lia].
      rewrite setNth_nth by lia. destruct (Nat.eq_dec j i) as [->|]; [|lia].
      fold w. lia. }
    assert (C1 : len cell <= nth i widths1 0).
    { unfold widths1. destruct (len cell >? w) eqn:E.
      - rewrite setNth_nth by lia. destruct (Nat.eq_dec i i); [lia|congruence].
      - fold w. lia. }
    destruct (IH (S i) widths1) as (widths' & E & G & C); [lia|].
    exists widths'. split; [exact E|]. split.
    + intros j. specialize (G1 j). specialize (G j). lia.
    + intros [|j] Hj.
      * cbn [nth]. rewrite Nat.add_0_r. specialize (G i). lia.
      * cbn [nth]. cbn [List.length] in Hj.
        replace (i + S j)%nat with (S i + j)%nat by lia. apply C. lia.
Qed.

Lemma widenRow_none row : forall i widths,
  (i <= List.length widths)%nat ->
  (List.length widths < i + List.length row)%nat ->
  widenRow i row widths = None.
Proof.
  induction row as [|cell rest IH]; intros i widths H1 H2; cbn [List.length] in H2.
  - lia.
  - cbn [widenRow]. destruct (nth_error widths i) as [w|] eqn:E; [|reflexivity].
    assert (i < List.length widths)%nat
      by (apply nth_error_Some; congruence).
    apply IH.
    + destruct (len cell >? w); [rewrite setNth_length|]; lia.
    + destruct (len cell >? w); [rewrite setNth_length|]; lia.
Qed.

Lemma widen_some data : forall widths,
  Forall (fun row => (List.length row <= List.length widths)%nat) data ->
  exists widths',
    widen data widths = Some widths'
    /\ List.length widths' = List.length widths
    /\ (forall j, nth j widths 0 <= nth j widths' 0)
    /\ Forall (fun row => forall j, (j < List.length row)%nat ->
                 len (nth j row []) <= nth j widths' 0) data.
Proof.
  induction data as [|row rest IH]; intros widths H.
  - exists widths. repeat split; auto. intros; lia.
  - inversion H as [|? ? H1 H2]; subst.
    destruct (widenRow_some row 0%nat widths) as (w1 & E1 & G1 & C1); [cbn; lia|].
    pose proof (widenRow_length _ _ _ _ E1) as L1.
    destruct (IH w1) as (w' & E & L & G & C).
    { rewrite L1. exact H2. }
    exists w'. cbn [widen]. rewrite E1. split; [exact E|].
    split; [lia|]. split.
    + intros j. specialize (G1 j). specialize (G j). lia.
    + constructor; [|exact C].
      intros j Hj. specialize (C1 j Hj). rewrite Nat.add_0_l in C1.
      eapply Z.le_trans; [exact C1|apply G].
Qed.

Lemma widen_none data : forall widths,
  Exists (fun row => (List.length widths < List.length row)%nat) data ->
  widen data widths = None.
Proof.
  induction data as [|row rest IH]; intros widths H; [inversion H|].
  cbn [widen]. destruct (widenRow 0 row widths) as [w1|] eqn:E1; [|reflexivity].
  inversion H as [? ? H1|? ? H1]; subst.
  - rewrite widenRow_none in E1; [discriminate|lia|cbn; lia].
  - apply IH. rewrite (widenRow_length _ _ _ _ E1). exact H1.
Qed.

(** ** The lines *)

Lemma separatorLoop_ok widths : forall sb,
  Forall (fun w => 0 <= w) widths ->
  exists line, separatorLoop widths sb = Some line
               /\ len line + 1 = len sb + lineLength widths.
Proof.
  induction widths as [|w rest IH]; intros sb H.
  - exists sb. split; [reflexivity|]. cbn. lia.
  - inversion H as [|? ? H1 H2]; subst. cbn [separatorLoop].
    destruct (Repeat_byte "-"%char (w + 2)) as (d & E & L); [lia|].
    change (str "-") with ["-"%char]. rewrite E.
    destruct (IH (sb ++ d ++ str "+")%list H2) as (line & E' & L').
    exists line. split; [exact E'|].
    rewrite !len_app in L'. change (len (str "+")) with 1 in L'.
    cbn [lineLength fold_right]. fold (lineLength rest). lia.
Qed.

Lemma skipn_cons_nth (l : list Z) i :
  (i < List.length l)%nat -> skipn i l = nth i l 0 :: skipn (S i) l.
Proof.
  revert i. induction l as [|h t IH]; intros i H; cbn in H; [lia|].
  destruct i as [|i]; [reflexivity|].
  cbn [skipn nth]. rewrite IH by lia. reflexivity.
Qed.

Lemma rowLoop_ok row : forall i widths sb,
  (i + List.length row <= List.length widths)%nat ->
  (forall j, (j < List.length row)%nat -> len (nth j row []) <= nth (i + j) widths 0) ->
  exists line,
    rowLoop i row widths sb = Some line
    /\ len line + 1
       = len sb + lineLength (firstn (List.length row) (skipn i widths)).
Proof.
  induction row as [|cell rest IH]; intros i widths sb H C.
  - exists sb. split; [reflexivity|]. cbn. lia.
  - cbn [List.length] in H. cbn [rowLoop].
    rewrite (nth_error_in_range widths i) by lia.
    pose proof (C 0%nat ltac:(cbn; lia)) as C0. cbn [nth] in C0.
    rewrite Nat.add_0_r in C0.
    destruct (Repeat_byte " "%char (nth i widths 0 - len cell + 1)) as (b & E & L);
      [lia|].
    change (str " ") with [" "%char]. cbv zeta. rewrite E.
    destruct (IH (S i) widths (sb ++ [" "%char] ++ cell ++ b ++ str "|")%list)
      as (line & E' & L').
    { lia. }
    { intros j Hj. replace (S i + j)%nat with (i + S j)%nat by lia.
      apply (C (S j)). cbn [List.length]. lia. }
    exists line. split; [exact E'|].
    rewrite !len_app in L'. change (len (str "|")) with 1 in L'.
    change (len [" "%char]) with 1 in L'.
    rewrite (skipn_cons_nth widths i) by lia.
    cbn [List.length firstn lineLength fold_right].
    fold (lineLength (firstn (List.length rest) (skipn (S i) widths))). lia.
Qed.

Lemma rowLoop_short row : forall i widths sb,
  (List.length widths < i + List.length row)%nat ->
  (i <= List.length widths)%nat ->
  rowLoop i row widths sb = None.
Proof.
  induction row as [|cell rest IH]; intros i widths sb H1 H2; cbn [List.length] in H1.
  - lia.
  - cbn [rowLoop]. destruct (nth_error widths i) as [w|] eqn:E; [|reflexivity].
    assert (i < List.length widths)%nat by (apply nth_error_Some; congruence).
    cbv zeta. destruct (Repeat (str " ") (w - len cell + 1)); [|reflexivity].
    apply IH; lia.
Qed.

Lemma printData_ok data : forall widths,
  Forall (fun row => (List.length row <= List.length widths)%nat
                     /\ forall j, (j < List.length row)%nat ->
                          len (nth j row []) <= nth j widths 0) data ->
  exists lines,
    printData data widths = (printed lines, Some tt)
    /\ Forall2 (fun row line =>
         len line = lineLength (firstn (List.length row) widths)) data lines.
Proof.
  induction data as [|row rest IH]; intros widths H.
  - exists []. split; [reflexivity|constructor].
  - inversion H as [|? ? [H1 C1] H2]; subst.
    destruct (rowLoop_ok row 0%nat widths (str "|")) as (line & E & L);
      [cbn; lia|exact C1|].
    destruct (IH widths H2) as (lines & E' & F).
    exists (line :: lines). split.
    + cbn [printData]. unfold printRow. rewrite E. cbn. rewrite E'. cbn.
      unfold printed. cbn [flat_map]. now rewrite <- !app_assoc.
    + constructor; [|exact F]. cbn [skipn] in L.
      change (len (str "|")) with 1 in L. lia.
Qed.

(** The whole of [printTable] when no row is longer than the header. *)
Lemma printTable_ok columns data :
  Forall (fun row => (List.length row <= List.length columns)%nat) data ->
  exists widths sep head lines,
    List.length widths = List.length columns
    /\ printTable columns data
       = (printed ([sep; head; sep] ++ lines ++ [sep]), Some tt)
    /\ len sep = lineLength widths
    /\ len head = lineLength widths
    /\ Forall2 (fun row line =>
         len line = lineLength (firstn (List.length row) widths)) data lines.
Proof.
  intros H.
  destruct (widen_some data (map len columns)) as (widths & E & L & G & C).
  { now rewrite length_map. }
  rewrite length_map in L.
  assert (P : Forall (fun w => 0 <= w) widths).
  { apply Forall_forall. intros w Hw.
    destruct (In_nth _ _ 0 Hw) as (j & Hj & <-).
    specialize (G j). 
    assert (0 <= nth j (map len columns) 0); [|lia].
    rewrite (nth_indep _ 0 (len [])) by (rewrite length_map; lia).
    rewrite map_nth. apply len_nonneg. }
  destruct (separatorLoop_ok widths (str "+") P) as (sep & Es & Ls).
  destruct (rowLoop_ok columns 0%nat widths (str "|")) as (head & Eh & Lh).
  { unfold gostring in *. cbn. lia. }
  { intros j Hj. cbn. specialize (G j).
    rewrite (nth_indep _ 0 (len [])) in G by (rewrite length_map; exact Hj).
    rewrite map_nth in G. exact G. }
  destruct (printData_ok data widths) as (lines & Ed & F).
  { rewrite Forall_forall in *. intros row Hr. split; [rewrite L; auto|auto]. }
  exists widths, sep, head, lines. split; [exact L|]. split; [|split; [|split]].
  - unfold printTable. rewrite E. cbn [orPanic ret bind].
    unfold printSeparator, printRow. rewrite Es, Eh.
    cbn [orPanic ret bind Println]. rewrite Ed. cbn [bind app].
    f_equal. unfold printed. cbn [flat_map app].
    rewrite flat_map_app. cbn [flat_map].
    rewrite <- !app_assoc. reflexivity.
  - change (len (str "+")) with 1 in Ls. lia.
  - change (len (str "|")) with 1 in Lh. cbn [skipn] in Lh.
    unfold gostring in *. rewrite <- L, firstn_all in Lh. lia.
  - exact F.
Qed.

(** X12. [printTable] runs to its end exactly when no row has more
    cells than there are columns; with a longer row it panics on the index
    before it has printed anything. *)
Theorem printTable_completes_iff : forall columns data,
  (snd (printTable columns data) = Some tt
   <-> Forall (fun row => (List.length row <= List.length columns)%nat) data)
  /\ (snd (printTable columns data) = None -> fst (printTable columns data) = []).
Proof.
  intros columns data.
  destruct (Forall_Exists_dec
              (fun row : list gostring => (List.length row <= List.length columns)%nat)
              (fun row => le_dec (List.length row) (List.length columns)) data)
    as [F|X].
  - destruct (printTable_ok columns data F) as (w & s & h & l & _ & E & _).
    rewrite E. cbn. split; [tauto|discriminate].
  - assert (N : widen data (map len columns) = None).
    { apply widen_none. rewrite length_map.
      eapply Exists_impl; [|exact X]. cbn. intros; lia. }
    unfold printTable. rewrite N. cbn. split; [|reflexivity].
    split; [discriminate|]. intros F. exfalso.
    apply Exists_exists in X. destruct X as (row & Hr & Hn).
    rewrite Forall_forall in F. auto.
Qed.

Lemma printTable_rectangle columns data :
  Forall (fun row => List.length row = List.length columns) data ->
  exists lines width,
    printTable columns data = (printed lines, Some tt)
    /\ List.length lines = (List.length data + 4)%nat
    /\ Forall (fun line => len line = width) lines.
Proof.
  intros H.
  destruct (printTable_ok columns data) as (w & s & h & l & L & E & Ls & Lh & F).
  { eapply Forall_impl; [|exact H]. cbn. intros; lia. }
  exists ([s; h; s] ++ l ++ [s])%list, (lineLength w).
  split; [exact E|]. split.
  - rewrite !length_app. cbn [List.length].
    rewrite <- (Forall2_length F). lia.
  - assert (Fl : Forall (fun line => len line = lineLength w) l).
    { clear E. induction F as [|row line data' l' Hl F IH]; constructor.
      - inversion H; subst.
        replace (List.length row) with (List.length w) in Hl by congruence.
        now rewrite firstn_all in Hl.
      - apply IH. now inversion H. }
    repeat constructor; auto.
    apply Forall_app. split; [exact Fl|]. repeat constructor; auto.
Qed.



End TableFacts.

(** * Facts about the run of a script *)
Module RunnerFacts.

Import Utf8 Strings Go GoSpec Config Dsn Runner.

Local Open Scope Z_scope.

(** ** [printRows] *)

Lemma scanAll_ok n scans : forall data data',
  scanAll n scans data = inr data' ->
  Forall (fun row => List.length row = n) data ->
  Forall (fun row => List.length row = n) data'
  /\ List.length data' = (List.length data + List.length scans)%nat.
Proof.
  induction scans as [|[err|values] rest IH]; intros data data' E F; cbn in E.
  - inversion E; subst. split; [exact F|]. cbn. lia.
  - discriminate.
  - apply IH in E.
    + destruct E as [E1 E2]. split; [exact E1|].
      rewrite E2, length_app. cbn. lia.
    + apply Forall_app. split; [exact F|]. constructor; [|constructor].
      now rewrite length_map, length_seq.
Qed.

Lemma printRows_cases rows :
  (exists err, printRows rows = ([], Some (Some err)))
  \/ (exists lines width,
        printRows rows = (Table.printed lines, Some None)
        /\ List.length lines = (List.length (Scans rows) + 4)%nat
        /\ Forall (fun line => Table.len line = width) lines).
Proof.
  unfold printRows.
  destruct (Columns rows) as [err|columns]; [left; eexists; reflexivity|].
  destruct (scanAll (List.length columns) (Scans rows) []) as [err|data] eqn:E;
    [left; eexists; reflexivity|].
  destruct (RowsErr rows) as [err|]; [left; eexists; reflexivity|]. right.
  destruct (scanAll_ok _ _ _ _ E (Forall_nil _)) as [F L].
  destruct (TableFacts.printTable_rectangle columns data F) as (lines & width & Ep & Ll & Fl).
  exists lines, width. rewrite Ep. cbn. rewrite app_nil_r.
  split; [reflexivity|]. split; [|exact Fl]. rewrite Ll, L. reflexivity.
Qed.


(** ** Traces *)

Lemma sent_app a b : sent (a ++ b) = (sent a ++ sent b)%list.
Proof. apply flat_map_app. Qed.

Lemma calls_app a b : calls (a ++ b) = (calls a ++ calls b)%list.
Proof. apply flat_map_app. Qed.

Lemma In_calls c t : In c (calls t) <-> exists e, In (Sql c e) t.
Proof.
  unfold calls. rewrite in_flat_map. split.
  - intros (e & He & Hc). destruct e; cbn in Hc; try tauto.
    destruct Hc as [<-|[]]. eauto.
  - intros (e & He). exists (Sql c e). split; [exact He|now left].
Qed.

Lemma print_quiet t :
  forallb isPrint t = true ->
  sent t = [] /\ calls t = [] /\ forallb isClean t = true
  /\ forallb isStatementEvent t = true.
Proof.
  induction t as [|e t IH]; [now repeat split|].
  cbn [forallb]. intros H. apply andb_true_iff in H. destruct H as [He Ht].
  destruct (IH Ht) as (I1 & I2 & I3 & I4).
  destruct e; try discriminate; cbn; now rewrite ?I1, ?I2, ?I3, ?I4.
Qed.

Lemma setup_quiet t :
  forallb isSetup t = true ->
  sent t = []
  /\ (forall c, In c (calls t) ->
        c <> CommitCall /\ c <> RollbackCall
        /\ (forall s, c <> QueryCall s) /\ (forall s, c <> ExecCall s)).
Proof.
  induction t as [|e t IH]; [now split|].
  cbn [forallb]. intros H. apply andb_true_iff in H. destruct H as [He Ht].
  destruct (IH Ht) as (I1 & I2).
  destruct e as [p|x|x|c o|]; try discriminate.
  - split; [exact I1|exact I2].
  - destruct c; try discriminate; (split; [exact I1|]);
      cbn; intros c' [<-|Hc]; auto; repeat split; discriminate.
Qed.

Lemma clean_statement t :
  forallb isClean t = true -> forallb isStatementEvent t = true.
Proof.
  induction t as [|e t IH]; [reflexivity|].
  cbn [forallb]. intros H. apply andb_true_iff in H. destruct H as [He Ht].
  rewrite (IH Ht), andb_true_r.
  destruct e as [p|x|x|c o|]; try discriminate; try reflexivity.
  destruct c; try discriminate; reflexivity.
Qed.

Lemma statement_calls t c :
  forallb isStatementEvent t = true -> In c (calls t) ->
  exists s, c = QueryCall s \/ c = ExecCall s.
Proof.
  intros H Hc. apply In_calls in Hc. destruct Hc as (e & He).
  rewrite forallb_forall in H. specialize (H _ He).
  destruct c; try discriminate; eauto.
Qed.

Lemma clean_no_error t c err :
  forallb isClean t = true -> ~ In (Sql c (Some err)) t.
Proof.
  intros H Hc. rewrite forallb_forall in H. specialize (H _ Hc).
  destruct c; discriminate.
Qed.

(** ** [executeStatement] and the loop of [main] *)

Section WithDatabase.

Variable lower : rune -> rune.
Variable readFile : gostring -> error + gostring.
Variable D : Database.

#[local] Abbreviation executeStatement := (Runner.executeStatement lower D).
#[local] Abbreviation runStatements := (Runner.runStatements lower D).
#[local] Abbreviation main := (Runner.main lower readFile D).

Lemma executeStatement_cases idx s st :
  exists st' t r,
    executeStatement idx s st = (st', t, Return r)
    /\ ((notBlank s = false /\ t = [] /\ r = None)
        \/ (notBlank s = true
            /\ exists c e outs,
                 c = (if HasPrefix (ToLower lower (TrimSpace s)) (str "select")
                         || HasPrefix (ToLower lower (TrimSpace s)) (str "with")
                      then QueryCall s else ExecCall s)
                 /\ t = Sql c e :: outs
                 /\ forallb isPrint outs = true
                 /\ (e = None
                     \/ (exists err, e = Some err /\ outs = [] /\ r = Some err)))).
Proof.
  unfold Runner.executeStatement, notBlank.
  destruct (isEmpty (TrimSpace s)) eqn:B.
  { exists st, [], None. split; [reflexivity|]. left. auto. }
  cbv zeta.
  destruct (HasPrefix (ToLower lower (TrimSpace s)) (str "select")
            || HasPrefix (ToLower lower (TrimSpace s)) (str "with")).
  - unfold bind, call1. destruct (QueryContext D s st) as [s1 [err|rows]].
    + cbn. do 3 eexists. split; [reflexivity|]. right. split; [reflexivity|].
      exists (QueryCall s), (Some err), []. repeat split; auto.
      right. eauto.
    + unfold deferred, bind, emit, say.
      destruct (printRows_cases rows) as [(err & P)|(lines & width & P & _)];
        rewrite P; cbn; do 3 eexists; (split; [reflexivity|]); right;
        (split; [reflexivity|]); exists (QueryCall s), None; eexists;
        (split; [reflexivity|]); (split; [reflexivity|]); split; auto.
  - unfold bind, call1. destruct (ExecContext D s st) as [s1 [err|result]].
    + cbn. do 3 eexists. split; [reflexivity|]. right. split; [reflexivity|].
      exists (ExecCall s), (Some err), []. repeat split; auto.
      right. eauto.
    + destruct (RowsAffected result) as [err|n]; [|destruct (n >=? 0)];
        unfold emit, say, ret; cbn; do 3 eexists; (split; [reflexivity|]); right;
        (split; [reflexivity|]); exists (ExecCall s), None; eexists;
        (split; [reflexivity|]); (split; [reflexivity|]); split; auto.
Qed.

Lemma bind_return {A B} (m : M D A) (f : A -> M D B) st s1 t1 a :
  m st = (s1, t1, Return a) ->
  bind D m f st = (let '(s2, t2, o) := f a s1 in (s2, (t1 ++ t2)%list, o)).
Proof. intros E. unfold bind. now rewrite E. Qed.

Lemma filter_notBlank_cons s rest :
  filter notBlank (s :: rest)
  = if notBlank s then s :: filter notBlank rest else filter notBlank rest.
Proof. reflexivity. Qed.

Lemma runStatements_cases stmts : forall idx st,
  exists st' t o,
    runStatements idx stmts st = (st', t, o)
    /\ ((o = Return tt /\ forallb isClean t = true
         /\ sent t = filter notBlank stmts)
        \/ (o = Exited 1
            /\ exists t0 r msg k,
                 t = (t0 ++ [Sql RollbackCall r; Err msg])%list
                 /\ forallb isStatementEvent t0 = true
                 /\ sent t0 = firstn k (filter notBlank stmts))).
Proof.
  induction stmts as [|s rest IH]; intros idx st.
  { exists st, [], (Return tt). split; [reflexivity|]. left. auto. }
  cbn [Runner.runStatements].
  destruct (executeStatement_cases (idx + 1) s st) as (s1 & t1 & r & E & H).
  rewrite (bind_return _ _ _ _ _ _ E).
  destruct r as [err|].
  - unfold bind, call0, emit, exit. destruct (Rollback D s1) as [s2 r2]. cbn.
    do 3 eexists. split; [reflexivity|]. right. split; [reflexivity|].
    destruct H as [(_ & _ & H)|(N & c & e & outs & Hc & Et & Ho & He)];
      [discriminate|].
    destruct (print_quiet outs Ho) as (Q1 & Q2 & Q3 & Q4).
    exists t1, r2. eexists. exists 1%nat. split; [reflexivity|]. split.
    + rewrite Et. cbn [forallb]. rewrite Q4.
      rewrite Hc. destruct (_ || _); reflexivity.
    + cbn [filter]. rewrite N, Et. cbn [firstn].
      change (Sql c e :: outs) with ([Sql c e] ++ outs)%list.
      rewrite sent_app, Q1, Hc. destruct (_ || _); reflexivity.
  - destruct (IH (idx + 1) s1) as (s2 & t2 & o & E2 & H2). rewrite E2.
    do 3 eexists. split; [reflexivity|].
    assert (S1 : sent t1 = (if notBlank s then [s] else [])
                 /\ forallb isClean t1 = true).
    { destruct H as [(N & -> & _)|(N & c & e & outs & Hc & Et & Ho & He)].
      - rewrite N. auto.
      - destruct (print_quiet outs Ho) as (Q1 & Q2 & Q3 & Q4).
        destruct He as [->|(err & _ & _ & He)]; [|discriminate].
        rewrite N, Et. change (Sql c None :: outs) with ([Sql c None] ++ outs)%list.
        rewrite sent_app, Q1, forallb_app, Q3, Hc.
        destruct (_ || _); auto. }
    destruct S1 as [S1 C1].
    destruct H2 as [(-> & C2 & S2)|(-> & t0 & r & msg & k & Et & F0 & S0)].
    + left. split; [reflexivity|]. split.
      * now rewrite forallb_app, C1, C2.
      * rewrite sent_app, S1, S2, filter_notBlank_cons.
        now destruct (notBlank s).
    + right. split; [reflexivity|].
      exists (t1 ++ t0)%list, r, msg, (if notBlank s then S k else k).
      split; [now rewrite Et, app_assoc|]. split.
      * now rewrite forallb_app, (clean_statement t1 C1), F0.
      * rewrite sent_app, S1, S0, filter_notBlank_cons.
        now destruct (notBlank s).
Qed.

Lemma validate_keeps_path c c' :
  validate lower c = (None, c') -> sqlPath c' = sqlPath c.
Proof.
  intros H. destruct (DsnFacts.validate_ok_inv lower c c' H) as (_ & _ & ->).
  now destruct (port c =? 0).
Qed.

(** The runs of [main]: an exit before the first statement; or, with the
    script read, a failed statement, a failed commit, or success. *)
Lemma main_cases f st :
  exists st' t o,
    main f st = (st', t, o)
    /\ ((o = Exited 1
         /\ exists pre msg, t = (pre ++ [Err msg])%list /\ forallb isSetup pre = true)
        \/ (exists cfg script pre,
              validate lower (parseFlags f) = (None, cfg)
              /\ readFile (sqlPath (parseFlags f)) = inr script
              /\ pre = [Read (sqlPath (parseFlags f));
                        Sql (OpenCall (driverName lower (engine cfg))
                                      (buildDSN lower cfg)) None;
                        Sql PingCall None; Sql BeginCall None]
              /\ ((o = Exited 1
                   /\ exists t0 r msg k,
                        t = (pre ++ t0 ++ [Sql RollbackCall r; Err msg])%list
                        /\ forallb isStatementEvent t0 = true
                        /\ sent t0
                           = firstn k (filter notBlank (splitSQLStatements script)))
                  \/ (o = Exited 1
                      /\ exists tl err msg,
                           t = (pre ++ tl ++ [Sql CommitCall (Some err); Err msg])%list
                           /\ forallb isClean tl = true
                           /\ sent tl = filter notBlank (splitSQLStatements script))
                  \/ (o = Return tt
                      /\ exists tl r,
                           t = (pre ++ tl ++ [Sql CommitCall None; Sql CloseCall r])%list
                           /\ forallb isClean tl = true
                           /\ sent tl = filter notBlank (splitSQLStatements script))))).
Proof.
  unfold Runner.main.
  destruct (validate lower (parseFlags f)) as [[err|] cfg] eqn:V.
  { do 3 eexists. split; [reflexivity|]. left. split; [reflexivity|].
    exists []. eexists. split; reflexivity. }
  rewrite (validate_keeps_path _ _ V).
  destruct (readFile (sqlPath (parseFlags f))) as [err|script] eqn:R.
  { do 3 eexists. split; [reflexivity|]. left. split; [reflexivity|].
    exists [Read (sqlPath (parseFlags f))]. eexists. split; reflexivity. }
  cbv zeta.
  destruct (List.length (splitSQLStatements script) =? 0)%nat.
  { do 3 eexists. split; [reflexivity|]. left. split; [reflexivity|].
    exists [Read (sqlPath (parseFlags f))]. eexists. split; reflexivity. }
  set (stmts := splitSQLStatements script).
  set (drv := driverName lower (engine cfg)). set (dsn := buildDSN lower cfg).
  set (path := sqlPath (parseFlags f)).
  unfold deferred, bind, call0, emit, exit, ret.
  destruct (Open D drv dsn st) as [s1 [err|]].
  { do 3 eexists. split; [reflexivity|]. left. split; [reflexivity|].
    exists [Read path; Sql (OpenCall drv dsn) (Some err)]. eexists.
    split; reflexivity. }
  destruct (PingContext D s1) as [s2 [err|]].
  { do 3 eexists. split; [reflexivity|]. left. split; [reflexivity|].
    exists [Read path; Sql (OpenCall drv dsn) None; Sql PingCall (Some err)].
    eexists. split; reflexivity. }
  destruct (BeginTx D s2) as [s3 [err|]].
  { do 3 eexists. split; [reflexivity|]. left. split; [reflexivity|].
    exists [Read path; Sql (OpenCall drv dsn) None; Sql PingCall None;
            Sql BeginCall (Some err)].
    eexists. split; reflexivity. }
  destruct (runStatements_cases stmts 0 s3) as (s4 & t4 & o4 & E4 & H4).
  rewrite E4.
  destruct H4 as [(-> & C4 & S4)|(-> & t0 & r & msg & k & Et & F0 & S0)].
  - destruct (Commit D s4) as [s5 [err|]].
    + do 3 eexists. split; [reflexivity|]. right.
      exists cfg, script. eexists.
      split; [reflexivity|]. split; [reflexivity|]. split; [reflexivity|]. right. left.
      split; [reflexivity|]. exists t4, err. eexists.
      split; [|split; [exact C4|exact S4]].
      cbn [app]. rewrite <- ?app_assoc. reflexivity.
    + destruct (Close D s5) as [s6 r6].
      do 3 eexists. split; [reflexivity|]. right.
      exists cfg, script. eexists.
      split; [reflexivity|]. split; [reflexivity|]. split; [reflexivity|]. right. right.
      split; [reflexivity|]. exists t4, r6.
      split; [|split; [exact C4|exact S4]].
      cbn [app]. rewrite <- ?app_assoc. reflexivity.
  - do 3 eexists. split; [reflexivity|]. right.
    exists cfg, script. eexists.
    split; [reflexivity|]. split; [reflexivity|]. split; [reflexivity|]. left.
    split; [reflexivity|]. exists t0, r, msg, k.
    split; [|split; [exact F0|exact S0]].
    rewrite Et. cbn [app]. rewrite <- ?app_assoc. reflexivity.
Qed.

Lemma not_in_by (P : event -> bool) t e :
  forallb P t = true -> P e = false -> ~ In e t.
Proof.
  intros H He Hi. rewrite forallb_forall in H. rewrite (H _ Hi) in He. discriminate.
Qed.




Lemma ascii_statements_notBlank input :
  forallb isAscii input = true ->
  filter notBlank (splitSQLStatements input) = splitSQLStatements input.
Proof.
  intros HA.
  assert (F : forall s, In s (splitSQLStatements input) -> notBlank s = true).
  { intros s HI.
    destruct (GoMoreFacts.ascii_statement_trimmed input s HA HI)
      as (E & (c & rest & -> & _) & _).
    unfold notBlank. now rewrite E. }
  induction (splitSQLStatements input) as [|x l IH]; [reflexivity|].
  cbn [filter]. rewrite (F x (or_introl eq_refl)). f_equal.
  apply IH. intros s Hs. apply F. now right.
Qed.

(** X15. [executeStatement] skips no statement that the splitter
    returned for an ASCII script: it passes the statement, as it is, to
    exactly one of [QueryContext] and [ExecContext], and it returns; the
    test for an empty statement at its head never succeeds on them. *)
Theorem split_statement_is_sent_once :
  forall (input s : gostring) (idx : Z) (st : conn D),
  forallb isAscii input = true -> In s (splitSQLStatements input) ->
  exists st' t r,
    executeStatement idx s st = (st', t, Return r)
    /\ sent t = [s]
    /\ (calls t = [QueryCall s] \/ calls t = [ExecCall s]).
Proof.
  clear readFile. intros input s idx st HA HI.
  destruct (executeStatement_cases idx s st) as (st' & t & r & E & H).
  exists st', t, r. split; [exact E|].
  assert (N : notBlank s = true).
  { pose proof (ascii_statements_notBlank input HA) as F.
    rewrite <- F in HI. apply filter_In in HI. tauto. }
  destruct H as [(B & _)|(_ & c & e & outs & Hc & -> & Ho & _)]; [congruence|].
  destruct (print_quiet outs Ho) as (Q1 & Q2 & _).
  change (Sql c e :: outs) with ([Sql c e] ++ outs)%list.
  rewrite sent_app, calls_app, Q1, Q2, Hc.
  destruct (_ || _); cbn; auto.
Qed.

(** X16. A statement of ASCII text whose first byte is not white space
    and is none of [s], [S], [w], [W] goes to [ExecContext], whatever
    follows: a query that comes after a comment in its statement, as the
    splitter returns it, is run as an execution and its rows are not
    printed. *)
Theorem statement_led_by_other_text_is_executed :
  forall (idx : Z) (c : ascii) (rest : gostring) (st : conn D),
  forallb isAscii (c :: rest) = true -> isWs c = false ->
  ~ In c [ "s"%char; "S"%char; "w"%char; "W"%char ] ->
  exists st' t r,
    executeStatement idx (c :: rest) st = (st', t, Return r)
    /\ calls t = [ExecCall (c :: rest)]
    /\ ~ In CloseRows t.
Proof.
  clear readFile. intros idx c rest st HA HW HC.
  destruct (executeStatement_cases idx (c :: rest) st) as (st' & t & r & E & H).
  exists st', t, r. split; [exact E|].
  destruct (GoFacts.TrimSpace_ascii (c :: rest) HA)
    as (lead & trail & Er & Wl & Wt & Hs).
  assert (T : exists rest', TrimSpace (c :: rest) = c :: rest').
  { destruct lead as [|x lead'].
    - cbn [app] in Er. destruct (TrimSpace (c :: rest)) as [|y T'].
      + cbn [app] in Er. rewrite <- Er in Wt. cbn [forallb] in Wt.
        rewrite HW in Wt. discriminate.
      + inversion Er; subst. eauto.
    - inversion Er; subst. cbn [forallb] in Wl. rewrite HW in Wl. discriminate. }
  destruct T as [rest' T].
  assert (HT : forallb isAscii (c :: rest') = true).
  { rewrite <- T. rewrite Er in HA. apply GoFacts.forallb_app_r in HA.
    now apply GoFacts.forallb_app_l in HA. }
  assert (Q : HasPrefix (ToLower lower (TrimSpace (c :: rest))) (str "select")
              || HasPrefix (ToLower lower (TrimSpace (c :: rest))) (str "with")
              = false).
  { rewrite T, (ConfigFacts.ToLower_ascii lower _ HT). cbn [map].
    assert (L : lowerByte c <> "s"%char /\ lowerByte c <> "w"%char).
    { cbn [In] in HC. clear - HC.
      destruct c as [[] [] [] [] [] [] [] []]; vm_compute; split; intros K;
        try discriminate; apply HC; vm_compute; tauto. }
    destruct L as [L1 L2]. cbn.
    destruct (ascii_dec (lowerByte c) "s"%char); [contradiction|].
    destruct (ascii_dec (lowerByte c) "w"%char); [contradiction|]. reflexivity. }
  destruct H as [(B & _)|(_ & k & e & outs & Hk & -> & Ho & He)].
  { unfold notBlank in B. rewrite T in B. discriminate. }
  rewrite Q in Hk. subst k.
  destruct (print_quiet outs Ho) as (Q1 & Q2 & _).
  change (Sql (ExecCall (c :: rest)) e :: outs)
    with ([Sql (ExecCall (c :: rest)) e] ++ outs)%list.
  rewrite calls_app, Q2. split; [reflexivity|].
  (* the outputs of an execution hold no [rows.Close()] *)
  clear - E Q T.
  unfold Runner.executeStatement in E. rewrite T in E. cbn [isEmpty] in E.
  cbv zeta in E. rewrite <- T, Q in E.
  unfold bind, call1 in E.
  destruct (ExecContext D (c :: rest) st) as [s1 [err|result]].
  - cbn in E. inversion E; subst. cbn. intros [K|[]]. discriminate.
  - destruct (RowsAffected result) as [err|n]; [|destruct (n >=? 0)];
      unfold emit, say, ret in E; cbn in E; inversion E; subst; cbn;
      intros K; repeat (destruct K as [K|K]; [discriminate|]); exact K.
Qed.


(** X18. [tx.Commit] is called only after every statement of the script
    has been passed to the database, in the order of the script and each
    once, and none of these calls returned an error (in such a run only
    the commit and the closing of the connection can return one); no roll
    back is in the run.  The statements passed are those the splitter returned that
    are not blank, which for an ASCII script is all of them. *)
Theorem commit_only_after_every_statement : forall (f : flags) (st : conn D),
  In CommitCall (calls (events (main f st))) ->
  ~ In RollbackCall (calls (events (main f st)))
  /\ (forall c err, In (Sql c (Some err)) (events (main f st)) ->
                    c = CommitCall \/ c = CloseCall)
  /\ exists script,
       readFile (sqlPath (parseFlags f)) = inr script
       /\ sent (events (main f st)) = filter notBlank (splitSQLStatements script)
       /\ (forallb isAscii script = true ->
           sent (events (main f st)) = splitSQLStatements script).
Proof.
  intros f st. destruct (main_cases f st) as (st' & t & o & E & H). rewrite E.
  cbn [events ending fst snd]. intros HC. apply In_calls in HC. destruct HC as [e HC].
  assert (G : forall pre tl last,
            forallb isSetup pre = true ->
            (forall c err, ~ In (Sql c (Some err)) pre) ->
            forallb isClean tl = true ->
            (forall c err, In (Sql c (Some err)) last ->
                           c = CommitCall \/ c = CloseCall) ->
            ~ In RollbackCall (calls last) -> sent last = [] ->
            forall script, readFile (sqlPath (parseFlags f)) = inr script ->
            sent tl = filter notBlank (splitSQLStatements script) ->
            ~ In RollbackCall (calls (pre ++ tl ++ last))
            /\ (forall c err, In (Sql c (Some err)) (pre ++ tl ++ last) ->
                              c = CommitCall \/ c = CloseCall)
            /\ exists script,
                 readFile (sqlPath (parseFlags f)) = inr script
                 /\ sent (pre ++ tl ++ last)
                    = filter notBlank (splitSQLStatements script)
                 /\ (forallb isAscii script = true ->
                     sent (pre ++ tl ++ last) = splitSQLStatements script)).
  { intros pre tl last P PE C L1 L2 L3 script R S.
    destruct (setup_quiet pre P) as [Sp Cp].
    split; [|split].
    - rewrite !calls_app, !in_app_iff. intros [K|[K|K]].
      + destruct (Cp _ K) as (_ & K' & _). congruence.
      + destruct (statement_calls tl _ (clean_statement tl C) K) as [s [K'|K']];
          discriminate.
      + contradiction.
    - intros c err K. rewrite !in_app_iff in K. destruct K as [K|[K|K]].
      + exfalso. now apply (PE c err).
      + exfalso. now apply (clean_no_error tl c err C).
      + eauto.
    - exists script. split; [exact R|].
      assert (S' : sent (pre ++ tl ++ last)
                   = filter notBlank (splitSQLStatements script)).
      { now rewrite !sent_app, Sp, L3, app_nil_r. }
      split; [exact S'|]. intros HA. rewrite S'.
      now apply ascii_statements_notBlank. }
  destruct H as [(-> & pre & msg & -> & P)
                |(cfg & script & pre & _ & R & Epre &
                  [(-> & t0 & r & msg & k & -> & F0 & _)
                  |[(-> & tl & err & msg & -> & C & S)
                   |(-> & tl & r & -> & C & S)]])];
    try (assert (P : forallb isSetup pre = true) by (now rewrite Epre));
    try (assert (PE : forall c err, ~ In (Sql c (Some err)) pre)
           by (rewrite Epre; intros c err0 K; cbn [In] in K;
               repeat (destruct K as [K|K]; [discriminate|]); exact K));
    try clear Epre.
  - exfalso. apply in_app_iff in HC. destruct HC as [K|[K|[]]]; [|discriminate].
    now apply (not_in_by isSetup pre _ P) in K.
  - exfalso. rewrite !in_app_iff in HC.
    destruct HC as [K|[K|[K|[K|[]]]]]; try discriminate.
    + now apply (not_in_by isSetup pre _ P) in K.
    + now apply (not_in_by isStatementEvent t0 _ F0) in K.
  - apply (fun L1 L2 L3 => G pre tl _ P PE C L1 L2 L3 script R S).
    + intros c e' [K|[K|[]]]; inversion K; now left.
    + cbn. intros [K|[]]. discriminate.
    + reflexivity.
  - apply (fun L1 L2 L3 => G pre tl _ P PE C L1 L2 L3 script R S).
    + intros c e' [K|[K|[]]]; inversion K; now right.
    + cbn. intros [K|[K|[]]]; discriminate.
    + reflexivity.
Qed.

(** X19. A statement whose call returns an error, or whose rows cannot
    be read, ends the run: [tx.Rollback] is called, a message goes to the
    standard error and the program exits with status 1.  Nothing is
    passed to the database after the roll back, there is one roll back
    only and no commit, and the statements passed before it are the first
    ones of the script, in order. *)
Theorem failed_statement_rolls_back : forall (f : flags) (st : conn D),
  (forall s err,
     In (Sql (QueryCall s) (Some err)) (events (main f st))
     \/ In (Sql (ExecCall s) (Some err)) (events (main f st)) ->
     In RollbackCall (calls (events (main f st))))
  /\ (In RollbackCall (calls (events (main f st))) ->
      ending (main f st) = Exited 1
      /\ ~ In CommitCall (calls (events (main f st)))
      /\ (exists t0 r msg,
            events (main f st) = (t0 ++ [Sql RollbackCall r; Err msg])%list
            /\ ~ In RollbackCall (calls t0))
      /\ exists script k,
           readFile (sqlPath (parseFlags f)) = inr script
           /\ sent (events (main f st))
              = firstn k (filter notBlank (splitSQLStatements script))).
Proof.
  intros f st. destruct (main_cases f st) as (st' & t & o & E & H). rewrite E.
  cbn [events ending fst snd].
  assert (QS : forall pre s err, forallb isSetup pre = true ->
                 ~ (In (Sql (QueryCall s) (Some err)) pre
                    \/ In (Sql (ExecCall s) (Some err)) pre)).
  { intros pre s err P [K|K]; now apply (not_in_by isSetup pre _ P) in K. }
  assert (QC : forall tl s err, forallb isClean tl = true ->
                 ~ (In (Sql (QueryCall s) (Some err)) tl
                    \/ In (Sql (ExecCall s) (Some err)) tl)).
  { intros tl s err C [K|K]; now apply (not_in_by isClean tl _ C) in K. }
  assert (RS : forall pre, forallb isSetup pre = true -> ~ In RollbackCall (calls pre)).
  { intros pre P K. destruct (setup_quiet pre P) as [_ Cp].
    destruct (Cp _ K) as (_ & K' & _). congruence. }
  assert (CS : forall pre, forallb isSetup pre = true -> ~ In CommitCall (calls pre)).
  { intros pre P K. destruct (setup_quiet pre P) as [_ Cp].
    destruct (Cp _ K) as (K' & _). congruence. }
  assert (RT : forall t0 c, forallb isStatementEvent t0 = true ->
                 In c (calls t0) -> c <> RollbackCall /\ c <> CommitCall).
  { intros t0 c F K. destruct (statement_calls t0 c F K) as [s [-> | ->]];
      split; discriminate. }
  destruct H as [(-> & pre & msg & -> & P)
                |(cfg & script & pre & _ & R & Epre &
                  [(-> & t0 & r & msg & k & -> & F0 & S0)
                  |[(-> & tl & err & msg & -> & C & S)
                   |(-> & tl & r & -> & C & S)]])];
    try (assert (P : forallb isSetup pre = true) by (now rewrite Epre));
    try clear Epre.
  - split.
    + intros s err K. exfalso. rewrite !in_app_iff in K. cbn [In] in K.
      apply (QS pre s err P). destruct K as [[K|[K|[]]]|[K|[K|[]]]];
        try discriminate; tauto.
    + intros K. exfalso. rewrite calls_app, in_app_iff in K.
      destruct K as [K|[]]. now apply (RS pre P).
  - split.
    + intros _ _ _. rewrite !calls_app, !in_app_iff. right. right. now left.
    + intros _. split; [reflexivity|]. split; [|split].
      * rewrite !calls_app, !in_app_iff. intros [K|[K|[K|[]]]].
        -- now apply (CS pre P).
        -- destruct (RT t0 _ F0 K). congruence.
        -- discriminate.
      * exists (pre ++ t0)%list, r, msg. split; [now rewrite <- app_assoc|].
        rewrite calls_app, in_app_iff. intros [K|K].
        -- now apply (RS pre P).
        -- destruct (RT t0 _ F0 K). congruence.
      * exists script, k. split; [exact R|].
        destruct (setup_quiet pre P) as [Sp _].
        now rewrite !sent_app, Sp, S0, app_nil_r.
  - split.
    + intros s e K. exfalso. rewrite !in_app_iff in K. cbn [In] in K.
      destruct K as [[K|[K|[K|[K|[]]]]]|[K|[K|[K|[K|[]]]]]]; try discriminate.
      * apply (QS pre s e P). tauto.
      * apply (QC tl s e C). tauto.
      * apply (QS pre s e P). tauto.
      * apply (QC tl s e C). tauto.
    + intros K. exfalso. rewrite !calls_app, !in_app_iff in K.
      destruct K as [K|[K|[K|[]]]].
      * now apply (RS pre P).
      * destruct (RT tl _ (clean_statement tl C) K). congruence.
      * discriminate.
  - split.
    + intros s e K. exfalso. rewrite !in_app_iff in K. cbn [In] in K.
      destruct K as [[K|[K|[K|[K|[]]]]]|[K|[K|[K|[K|[]]]]]]; try discriminate.
      * apply (QS pre s e P). tauto.
      * apply (QC tl s e C). tauto.
      * apply (QS pre s e P). tauto.
      * apply (QC tl s e C). tauto.
    + intros K. exfalso. rewrite !calls_app, !in_app_iff in K.
      destruct K as [K|[K|[K|[K|[]]]]].
      * now apply (RS pre P).
      * destruct (RT tl _ (clean_statement tl C) K). congruence.
      * discriminate.
      * discriminate.
Qed.

(** X20. A script that cannot be read and a script without statements
    are told apart: when [os.ReadFile] fails, [main] writes
    [failed to read SQL file] with the error to the standard error and
    exits with status 1, and when the splitter returns no statement it
    writes [no SQL statements found in file]; in both runs nothing is
    passed to the database. *)
Theorem read_failure_is_reported_apart : forall (f : flags) (st : conn D) (cfg : config),
  validate lower (parseFlags f) = (None, cfg) ->
  (forall err, readFile (sqlPath cfg) = inl err ->
     main f st
     = (st, [Read (sqlPath cfg);
             Err (str "failed to read SQL file: " ++ err ++ [newline])], Exited 1))
  /\ (forall script, readFile (sqlPath cfg) = inr script ->
       splitSQLStatements script = [] ->
       main f st
       = (st, [Read (sqlPath cfg);
               Err (str "no SQL statements found in file" ++ [newline])], Exited 1))
  /\ (forall err, str "failed to read SQL file: " ++ err ++ [newline]
                  <> str "no SQL statements found in file" ++ [newline]).
Proof.
  intros f st cfg V. split; [|split].
  - intros err R. unfold Runner.main. rewrite V, R. reflexivity.
  - intros script R E. unfold Runner.main. rewrite V, R. cbv zeta. rewrite E.
    reflexivity.
  - intros err K. discriminate.
Qed.

End WithDatabase.

Lemma read_failure_is_reported_apart_witness :
  main (fun r => r) (oneFile (str " ; ")) toy
       (mkFlags (Some (str "postgres")) (Some (str "h")) None None None
                (Some (str "d")) (Some (str "b.sql"))) 0%nat
  = (0%nat, [Read (str "b.sql");
             Err (str "failed to read SQL file: open: no such file or directory"
                  ++ [newline])], Exited 1).
Proof.
  apply (proj1 (read_failure_is_reported_apart (fun r => r) (oneFile (str " ; ")) toy
                  (mkFlags (Some (str "postgres")) (Some (str "h")) None None None
                           (Some (str "d")) (Some (str "b.sql")))
                  0%nat
                  (mkConfig (str "postgres") (str "h") 5432 (str "db_admin") []
                            (str "d") (str "b.sql"))
                  eq_refl)).
  reflexivity.
Defined.

Lemma split_statement_is_sent_once_witness :
  exists st' t r,
    executeStatement (fun r => r) toy 2 (str "update t set a = 1") 0%nat
    = (st', t, Return r)
    /\ sent t = [str "update t set a = 1"]
    /\ (calls t = [QueryCall (str "update t set a = 1")]
        \/ calls t = [ExecCall (str "update t set a = 1")]).
Proof.
  apply (split_statement_is_sent_once (fun r => r) toy
           (str "select 1; update t set a = 1;")).
  - reflexivity.
  - vm_compute. right. left. reflexivity.
Defined.

Lemma statement_led_by_other_text_is_executed_witness :
  exists st' t r,
    executeStatement (fun r => r) toy 1
      (str "-- keep ; in comment" ++ newline :: str "select ';' as a") 0%nat
    = (st', t, Return r)
    /\ calls t
       = [ExecCall (str "-- keep ; in comment" ++ newline :: str "select ';' as a")]
    /\ ~ In CloseRows t.
Proof.
  apply (statement_led_by_other_text_is_executed (fun r => r) toy 1 "-"%char
           (str "- keep ; in comment" ++ newline :: str "select ';' as a")).
  - reflexivity.
  - reflexivity.
  - cbn [In]. intros [K|[K|[K|[K|[]]]]]; discriminate.
Defined.

Lemma commit_only_after_every_statement_witness :
  sent (events (main (fun r => r) (oneFile (str "select 1; update t set a = 1;"))
                     toy exampleFlags 0%nat))
  = splitSQLStatements (str "select 1; update t set a = 1;").
Proof.
  destruct (commit_only_after_every_statement (fun r => r)
              (oneFile (str "select 1; update t set a = 1;")) toy exampleFlags 0%nat)
    as (_ & _ & script & R & _ & A).
  - vm_compute. tauto.
  - vm_compute in R. inversion R; subst script. apply A. reflexivity.
Defined.

Lemma failed_statement_rolls_back_witness :
  ending (main (fun r => r) (oneFile (str "select 1; update boom; delete from t"))
               toy exampleFlags 0%nat) = Exited 1
  /\ sent (events (main (fun r => r)
                        (oneFile (str "select 1; update boom; delete from t"))
                        toy exampleFlags 0%nat))
     = [str "select 1"; str "update boom"].
Proof.
  destruct (proj2 (failed_statement_rolls_back (fun r => r)
              (oneFile (str "select 1; update boom; delete from t")) toy
              exampleFlags 0%nat)) as (E & _).
  - vm_compute. tauto.
  - split; [exact E|]. vm_compute. reflexivity.
Defined.

End RunnerFacts.
